(** * Timeline compositor of the narrated-slideshow renderer

    A shallow embedding of [src/services/utils.ts] ([generateTitleCard] and
    [renderVideo]) together with the properties of its image timing, frame
    composition, audio mixing and section loop.  The second half of the
    definitions embeds the code around it: [downloadProjectZip] of the same
    file, the WAV header and the reply handling of
    [src/services/geminiService.ts], and [generateAllAssets] of the
    application component.

    Numbers.  The frame tick is read twice.  [imageTiming], [imgProgress]
    and the drawing code read a JavaScript [number] as an exact rational
    ([Q]): [Math.floor] is [Qfloor], [Math.min]/[Math.max] are
    [Qmin]/[Qmax], and every equation between times is an equation of
    exact arithmetic ([==] on [Q]).  Division by zero, which gives
    [Infinity] or [NaN] in JavaScript, gives 0 in [Q]; the timing theorems
    of this reading are stated for ticks [0 <= t < duration], where every
    divisor of the timing computation is positive.  [Double.imageTiming]
    reads the same lines on IEEE-754 doubles, every operation rounded to
    nearest, as the browser evaluates them.  The two readings differ in
    the last place: just before the end of a section the index computed on
    doubles can be the number of images, which exact arithmetic rules
    out.  Where that matters the statements name the reading they are
    about.

    Effects.  The browser is an explicit environment record (decoders, image
    loader, timer samples, canvas availability), its audio context and
    media recorder are a second one, and the observable behaviour of a
    render is the list of events it emits, in order, with the way the call
    ends. *)

From Stdlib Require Import ZArith QArith Qround Qminmax Lqa Lia.
From Stdlib Require Import SpecFloat.
From Stdlib Require Import List String Ascii Bool.
From Stdlib Require Import DecimalString DecimalNat.
Import ListNotations.

Open Scope Q_scope.

(** ** JavaScript helpers *)

Module JS.

(** [x < y] on numbers, as a boolean. *)
Definition ltb (x y : Q) : bool :=
  (Qnum x * QDen y <? Qnum y * QDen x)%Z.

(** [x >= y] on numbers. *)
Definition geb (x y : Q) : bool := negb (ltb x y).

(** Truthiness of a [string | null | undefined] value: only a non-empty
    string is truthy. *)
Definition truthy (s : option string) : bool :=
  match s with
  | Some (String _ _) => true
  | _ => false
  end.

(** [Boolean(s)] for a string, as used by [filter(Boolean)]. *)
Definition nonEmpty (s : string) : bool :=
  match s with
  | EmptyString => false
  | String _ _ => true
  end.

(** [arr[k]]: [undefined] (here [None]) outside the array. *)
Definition index {A : Type} (arr : list A) (k : Z) : option A :=
  if (k <? 0)%Z then None else nth_error arr (Z.to_nat k).

(** [arr.length] as a number. *)
Definition len {A : Type} (arr : list A) : Z := Z.of_nat (List.length arr).

End JS.

(** ** Configuration ([src/types.ts]) *)

Inductive AnimationSpeed : Set := Slow | Medium | Fast.

Inductive Transition : Set := NoTransition | Fade.

(** The fields of [VideoConfig] that [renderVideo] reads. *)
Record VideoConfig : Set := mkVideoConfig {
  aspectRatio : string;
  animationSpeed : AnimationSpeed;
  transition : Transition;
  bgMusicVolume : Q
}.

(** [zoomFactors = { 'Slow': 1.05, 'Medium': 1.15, 'Fast': 1.25 }] *)
Definition zoomFactors (speed : AnimationSpeed) : Q :=
  match speed with
  | Slow => 1.05
  | Medium => 1.15
  | Fast => 1.25
  end.

(** [fadeDuration = transitionType === 'Fade' ? 0.5 : 0] *)
Definition fadeDuration (transitionType : Transition) : Q :=
  match transitionType with
  | Fade => 0.5
  | NoTransition => 0
  end.

(** ** Image timing (the "Determine Image Timing" block of the frame tick)

    The block read over exact rationals; [Double.imageTiming] below is the
    same block read over doubles. *)

Record Timing : Set := mkTiming {
  imgIndex : Z;
  currentImageStartTime : Q;
  currentImageDuration : Q
}.

(** [hasTitleCard] is the truthiness of [section.titleCard]; [length] is
    [loadedImages.length]. *)
Definition imageTiming (hasTitleCard : bool) (length : Z)
    (duration sectionElapsed : Q) : Timing :=
  if hasTitleCard then
    let titleDuration := Qmin 4 (duration * 0.5) in
    if JS.ltb sectionElapsed titleDuration then
      mkTiming 0 0 titleDuration
    else
      let remainingTime := duration - titleDuration in
      if JS.ltb 0 remainingTime && (1 <? length)%Z then
        let contentImagesCount := (length - 1)%Z in
        let contentElapsed := sectionElapsed - titleDuration in
        let timePerImage := remainingTime / inject_Z contentImagesCount in
        let contentIndex := Qfloor (contentElapsed / timePerImage) in
        mkTiming (1 + contentIndex)
                 (titleDuration + inject_Z contentIndex * timePerImage)
                 timePerImage
      else
        mkTiming 0 0 duration
  else
    let timePerImage := duration / inject_Z length in
    let imgIndex := Qfloor (sectionElapsed / timePerImage) in
    mkTiming imgIndex (inject_Z imgIndex * timePerImage) timePerImage.

(** [imgProgress = Math.min(1, Math.max(0, (elapsed - start) / duration))] *)
Definition imgProgress (tm : Timing) (sectionElapsed : Q) : Q :=
  Qmin 1 (Qmax 0 ((sectionElapsed - currentImageStartTime tm)
                    / currentImageDuration tm)).

(** [currentScale = 1.0 + (maxZoom - 1.0) * progress] (Ken Burns zoom). *)
Definition currentScale (maxZoom progress : Q) : Q :=
  1.0 + (maxZoom - 1.0) * progress.

(** ** The interval plan, in the words of the specification

    [planIntervals] is not a function of the source: it is the list of
    intervals the specification describes, against which the per-tick
    computation [imageTiming] is compared. *)

Definition planIntervals (hasTitleCard : bool) (imageCount : nat)
    (sectionDuration : Q) : list Timing :=
  if hasTitleCard then
    let titleDuration := Qmin 4 (sectionDuration * 0.5) in
    let contentCount := (imageCount - 1)%nat in
    if JS.ltb 0 (sectionDuration - titleDuration) && (0 <? contentCount)%nat
    then
      let perImage :=
        (sectionDuration - titleDuration) / inject_Z (Z.of_nat contentCount) in
      mkTiming 0 0 titleDuration ::
      map (fun index : nat =>
             mkTiming (1 + Z.of_nat index)
                      (titleDuration + inject_Z (Z.of_nat index) * perImage)
                      perImage)
          (seq 0 contentCount)
    else [mkTiming 0 0 sectionDuration]
  else
    let perImage := sectionDuration / inject_Z (Z.of_nat imageCount) in
    map (fun index : nat =>
           mkTiming (Z.of_nat index) (inject_Z (Z.of_nat index) * perImage)
                    perImage)
        (seq 0 imageCount).

(** Sum of the durations of a plan. *)
Definition totalDuration (plan : list Timing) : Q :=
  fold_right (fun tm acc => currentImageDuration tm + acc) 0 plan.


(** [sectionElapsed] lies in the half-open interval of [tm]. *)
Definition within (tm : Timing) (sectionElapsed : Q) : Prop :=
  currentImageStartTime tm <= sectionElapsed /\
  sectionElapsed < currentImageStartTime tm + currentImageDuration tm.

(** ** Image timing in double arithmetic

    The browser evaluates the frame tick on IEEE-754 doubles.  [Double] is
    the second reading of the same lines of the source: a number is a
    [spec_float] of precision 53 and maximal exponent 1024, and every
    operation rounds to the nearest double, ties to even, as the
    operations of [SpecFloat] do.  [NaN], the infinities and the two zeros
    are values like the others. *)

Module Double.

Definition prec : Z := 53.
Definition emax : Z := 1024.

(** The double of an integer (exact below [2^53]). *)
Definition ofZ (n : Z) : spec_float := binary_normalize prec emax n 0 false.

Definition add : spec_float -> spec_float -> spec_float := SFadd prec emax.
Definition sub : spec_float -> spec_float -> spec_float := SFsub prec emax.
Definition mul : spec_float -> spec_float -> spec_float := SFmul prec emax.
Definition div : spec_float -> spec_float -> spec_float := SFdiv prec emax.

(** [x < y] and [x <= y]; both are false when an operand is [NaN]. *)
Definition ltb (x y : spec_float) : bool := SFltb x y.
Definition leb (x y : spec_float) : bool := SFleb x y.

(** The literal [0.5]. *)
Definition half : spec_float := S754_finite false 4503599627370496 (-53).

(** [Math.floor]: [NaN], the infinities and the zeros are returned as they
    are; so is a number without fractional bits. *)
Definition floor (x : spec_float) : spec_float :=
  match x with
  | S754_finite s m e =>
    if (0 <=? e)%Z then x
    else
      let n := Z.shiftr (Z.pos m) (- e) in
      if s then ofZ (- (if (Z.shiftl n (- e) =? Z.pos m)%Z then n else n + 1))
      else ofZ n
  | _ => x
  end.

(** [Math.min]: [NaN] when an operand is [NaN]; [-0] is below [+0]. *)
Definition min (x y : spec_float) : spec_float :=
  match SFcompare x y with
  | None => S754_nan
  | Some Lt => x
  | Some Gt => y
  | Some Eq =>
    match x, y with
    | S754_zero sx, S754_zero sy => S754_zero (sx || sy)
    | _, _ => x
    end
  end.

(** [Math.max] *)
Definition max (x y : spec_float) : spec_float :=
  match SFcompare x y with
  | None => S754_nan
  | Some Lt => y
  | Some Gt => x
  | Some Eq =>
    match x, y with
    | S754_zero sx, S754_zero sy => S754_zero (sx && sy)
    | _, _ => x
    end
  end.

(** The array index a number denotes in [arr[x]]: a non-negative integer;
    for any other number the lookup gives [undefined]. *)
Definition toIndex (x : spec_float) : option Z :=
  match x with
  | S754_zero _ => Some 0%Z
  | S754_finite false m e =>
    if (0 <=? e)%Z then Some (Z.shiftl (Z.pos m) e)
    else
      let n := Z.shiftr (Z.pos m) (- e) in
      if (Z.shiftl n (- e) =? Z.pos m)%Z then Some n else None
  | _ => None
  end.

Record Timing : Set := mkTiming {
  imgIndex : spec_float;
  currentImageStartTime : spec_float;
  currentImageDuration : spec_float
}.

(** The "Determine Image Timing" block, operation by operation. *)
Definition imageTiming (hasTitleCard : bool) (length : Z)
    (duration sectionElapsed : spec_float) : Timing :=
  if hasTitleCard then
    let titleDuration := min (ofZ 4) (mul duration half) in
    if ltb sectionElapsed titleDuration then
      mkTiming (ofZ 0) (ofZ 0) titleDuration
    else
      let remainingTime := sub duration titleDuration in
      if ltb (ofZ 0) remainingTime && (1 <? length)%Z then
        let contentImagesCount := (length - 1)%Z in
        let contentElapsed := sub sectionElapsed titleDuration in
        let timePerImage := div remainingTime (ofZ contentImagesCount) in
        let contentIndex := floor (div contentElapsed timePerImage) in
        mkTiming (add (ofZ 1) contentIndex)
                 (add titleDuration (mul contentIndex timePerImage))
                 timePerImage
      else
        mkTiming (ofZ 0) (ofZ 0) duration
  else
    let timePerImage := div duration (ofZ length) in
    let imgIndex := floor (div sectionElapsed timePerImage) in
    mkTiming imgIndex (mul imgIndex timePerImage) timePerImage.

(** [Math.min(imgIndex, loadedImages.length - 1)] *)
Definition currentImgIndex (imgIndex : spec_float) (length : Z)
    : spec_float :=
  min imgIndex (ofZ (length - 1)).

(** [imgProgress = Math.min(1, Math.max(0, (elapsed - start) / duration))] *)
Definition imgProgress (tm : Timing) (sectionElapsed : spec_float)
    : spec_float :=
  min (ofZ 1)
      (max (ofZ 0)
           (div (sub sectionElapsed (currentImageStartTime tm))
                (currentImageDuration tm))).

(** The sign bit is clear, or the number is [NaN]. *)
Definition signClear (x : spec_float) : Prop :=
  match x with
  | S754_nan => True
  | S754_zero s | S754_infinity s | S754_finite s _ _ => s = false
  end.

(** Not negative: a zero of either sign, [NaN], or the sign bit clear. *)
Definition notNegative (x : spec_float) : Prop :=
  match x with
  | S754_zero _ | S754_nan => True
  | S754_infinity s | S754_finite s _ _ => s = false
  end.

End Double.

(** ** Canvas and frame composition *)

(** A decoded image; [new Image()] (never loaded) has width and height 0. *)
Record HTMLImageElement : Set := mkImage {
  img_src : string;
  img_width : Z;
  img_height : Z
}.

Definition newImage : HTMLImageElement := mkImage EmptyString 0 0.

(** Calls made on a 2D drawing context, in the order they are made. *)
Inductive CanvasOp : Set :=
| SetFillStyle (style : string)
| FillRect (x y w h : Q)
| SetGlobalAlpha (alpha : Q)
| DrawImage (img : HTMLImageElement) (x y w h : Q)
| SetFont (font : string)
| SetTextAlign (align : string)
| SetTextBaseline (baseline : string)
| FillText (text : string) (x y : Q).

(** The helper [drawImage(img, progress, alpha)] of the frame tick:
    nothing is drawn for a missing image or an image of width 0.  (A
    decoded image of non-zero width has a non-zero height, so [ratioH] has
    a non-zero divisor whenever something is drawn.) *)
Definition drawImage (canvasWidth canvasHeight : Z) (maxZoom : Q)
    (img : option HTMLImageElement) (progress alpha : Q) : list CanvasOp :=
  match img with
  | None => []
  | Some img =>
    if (img_width img =? 0)%Z then []
    else
      let currentScale := currentScale maxZoom progress in
      let ratioW := inject_Z canvasWidth / inject_Z (img_width img) in
      let ratioH := inject_Z canvasHeight / inject_Z (img_height img) in
      let baseScale := Qmax ratioW ratioH in
      let finalScale := baseScale * currentScale in
      let scaledW := inject_Z (img_width img) * finalScale in
      let scaledH := inject_Z (img_height img) * finalScale in
      let x := (inject_Z canvasWidth - scaledW) / 2 in
      let y := (inject_Z canvasHeight - scaledH) / 2 in
      [SetGlobalAlpha alpha; DrawImage img x y scaledW scaledH;
       SetGlobalAlpha 1.0]
  end.

(** One invocation of [drawImage]: the image looked up, its zoom progress
    and its opacity. *)
Record DrawCall : Set := mkDrawCall {
  call_img : option HTMLImageElement;
  call_progress : Q;
  call_alpha : Q
}.

(** The index at which the current image is read:
    [Math.min(imgIndex, loadedImages.length - 1)]. *)
Definition currentImgIndex (imgIndex length : Z) : Z :=
  Z.min imgIndex (length - 1).

(** [timeRemaining = currentImageDuration - (sectionElapsed - start)] *)
Definition timeRemaining (tm : Timing) (sectionElapsed : Q) : Q :=
  currentImageDuration tm - (sectionElapsed - currentImageStartTime tm).

(** [fadeProgress = 1 - (timeRemaining / fadeDuration)] *)
Definition fadeProgress (transitionType : Transition) (tm : Timing)
    (sectionElapsed : Q) : Q :=
  1 - (timeRemaining tm sectionElapsed / fadeDuration transitionType).

(** The calls to [drawImage] made by one frame tick, given the timing
    already determined ("Current Image Render" and "Handle Fade
    Transition"). *)
Definition drawCalls (transitionType : Transition)
    (loadedImages : list HTMLImageElement) (tm : Timing)
    (sectionElapsed : Q) : list DrawCall :=
  let currentImg :=
    JS.index loadedImages
             (currentImgIndex (imgIndex tm) (JS.len loadedImages)) in
  let imgProgress := imgProgress tm sectionElapsed in
  match transitionType with
  | Fade =>
    if (imgIndex tm <? JS.len loadedImages - 1)%Z then
      if JS.ltb (timeRemaining tm sectionElapsed) (fadeDuration Fade) then
        let nextImg := JS.index loadedImages (imgIndex tm + 1) in
        [mkDrawCall currentImg imgProgress 1.0;
         mkDrawCall nextImg 0 (fadeProgress Fade tm sectionElapsed)]
      else [mkDrawCall currentImg imgProgress 1.0]
    else [mkDrawCall currentImg imgProgress 1.0]
  | NoTransition => [mkDrawCall currentImg imgProgress 1.0]
  end.

(** What the render needs to know while a section plays. *)
Record FrameSetup : Set := mkFrameSetup {
  canvasWidth : Z;
  canvasHeight : Z;
  maxZoom : Q;
  transitionType : Transition
}.

(** The canvas is cleared to black, then every call is drawn. *)
Definition clearCanvas (fs : FrameSetup) : list CanvasOp :=
  [SetFillStyle "#000";
   FillRect 0 0 (inject_Z (canvasWidth fs)) (inject_Z (canvasHeight fs))].

(** The drawing part of one frame tick (the tick has already established
    [sectionElapsed < duration]). *)
Definition drawFrame (fs : FrameSetup) (hasTitleCard : bool)
    (loadedImages : list HTMLImageElement) (duration sectionElapsed : Q)
    : list CanvasOp :=
  let tm := imageTiming hasTitleCard (JS.len loadedImages) duration
                        sectionElapsed in
  clearCanvas fs ++
  flat_map (fun c => drawImage (canvasWidth fs) (canvasHeight fs) (maxZoom fs)
                               (call_img c) (call_progress c) (call_alpha c))
           (drawCalls (transitionType fs) loadedImages tm sectionElapsed).

(** ** Project data ([src/types.ts]) and the browser environment *)

(** The fields of [GeneratedSection] that the renderer reads. *)
Record GeneratedSection : Set := mkSection {
  title : option string;
  generatedImages : list string;
  generatedAudio : option string;
  titleCard : option string
}.

Record ProjectData : Set := mkProjectData {
  intro : GeneratedSection;
  parts : list GeneratedSection;
  config : option VideoConfig;
  backgroundMusic : option string
}.

(** A canvas: its size and the calls made on its context so far. *)
Record Canvas : Set := mkCanvas {
  canvas_width : Z;
  canvas_height : Z;
  canvas_ops : list CanvasOp
}.

(** What the browser answers.
    - [getContext2d]: whether [canvas.getContext('2d')] is non-null;
    - [measureText font text]: the measured width of [text];
    - [toDataURL]: the PNG data URL of a canvas;
    - [decodeAudioData src]: the duration of the buffer obtained by fetching
      and decoding [src], or [None] when the fetch or the decode throws;
    - [loadImage src]: the image passed to [onload], or [None] when
      [onerror] fires;
    - [timerSamples i]: the successive values of [sectionElapsed] read by
      the interval callback while section [i] plays. *)
Record Browser : Type := mkBrowser {
  getContext2d : bool;
  measureText : string -> string -> Q;
  toDataURL : Canvas -> string;
  decodeAudioData : string -> option Q;
  loadImage : string -> option HTMLImageElement;
  timerSamples : nat -> list Q
}.

(** ** [generateTitleCard] *)

(** [text.split(' ')]: never empty; consecutive spaces give empty words. *)
Fixpoint split (text : string) : list string :=
  match text with
  | EmptyString => [EmptyString]
  | String c rest =>
    if Ascii.eqb c " "%char then EmptyString :: split rest
    else match split rest with
         | w :: ws => String c w :: ws
         | [] => [String c EmptyString]
         end
  end.

(** The wrapping loop: [n] is the index of the next word, [line] the line
    being filled, [lines] the lines already pushed. *)
Fixpoint wrapWords (measure : string -> Q) (maxWidth : Q)
    (words : list string) (n : nat) (line : string) (lines : list string)
    : string * list string :=
  match words with
  | [] => (line, lines)
  | word :: rest =>
    let testLine := (line ++ word ++ " ")%string in
    let testWidth := measure testLine in
    if JS.ltb maxWidth testWidth && (0 <? n)%nat then
      wrapWords measure maxWidth rest (S n) (word ++ " ")%string
                (lines ++ [line])
    else
      wrapWords measure maxWidth rest (S n) testLine lines
  end.

(** The lines drawn for [text]: the loop, then the final [lines.push(line)]. *)
Definition wrapLines (measure : string -> Q) (maxWidth : Q) (text : string)
    : list string :=
  let (line, lines) :=
    wrapWords measure maxWidth (split text) 0 EmptyString [] in
  lines ++ [line].

(** [lines.forEach(l => { ctx.fillText(l, x, startY); startY += lineHeight })] *)
Fixpoint fillLines (lines : list string) (x startY lineHeight : Q)
    : list CanvasOp :=
  match lines with
  | [] => []
  | l :: rest =>
    FillText l x startY :: fillLines rest x (startY + lineHeight) lineHeight
  end.

Definition isPortrait (aspectRatio : string) : bool :=
  String.eqb aspectRatio "9:16".

Definition titleFontSize (aspectRatio : string) : Z :=
  if isPortrait aspectRatio then 70 else 80.

Definition titleFont (aspectRatio : string) : string :=
  if isPortrait aspectRatio then "bold 70px Arial, sans-serif"
  else "bold 80px Arial, sans-serif".

Definition titleCanvasWidth (aspectRatio : string) : Z :=
  if isPortrait aspectRatio then 1080 else 1920.

Definition titleCanvasHeight (aspectRatio : string) : Z :=
  if isPortrait aspectRatio then 1920 else 1080.

Definition titleMaxWidth (aspectRatio : string) : Q :=
  inject_Z (titleCanvasWidth aspectRatio)
  - (if isPortrait aspectRatio then 100 else 200).

Definition titleLineHeight (aspectRatio : string) : Q :=
  inject_Z (titleFontSize aspectRatio) * 1.3.

(** [startY] of the first line. *)
Definition titleStartY (aspectRatio : string) (lineCount : nat) : Q :=
  let lineHeight := titleLineHeight aspectRatio in
  let totalHeight := inject_Z (Z.of_nat lineCount) * lineHeight in
  (inject_Z (titleCanvasHeight aspectRatio) - totalHeight) / 2
  + lineHeight / 2.

(** The canvas drawn by [generateTitleCard], or [None] when no 2D context
    could be obtained. *)
Definition titleCardCanvas (b : Browser) (text aspectRatio : string)
    : option Canvas :=
  let width := titleCanvasWidth aspectRatio in
  let height := titleCanvasHeight aspectRatio in
  if negb (getContext2d b) then None
  else
    let font := titleFont aspectRatio in
    let lines :=
      wrapLines (measureText b font) (titleMaxWidth aspectRatio) text in
    Some (mkCanvas width height
      ([SetFillStyle "#000000";
        FillRect 0 0 (inject_Z width) (inject_Z height);
        SetFillStyle "#FFFFFF";
        SetFont font;
        SetTextAlign "center";
        SetTextBaseline "middle"]
       ++ fillLines lines (inject_Z width / 2)
                    (titleStartY aspectRatio (List.length lines))
                    (titleLineHeight aspectRatio))).

(** The value the promise returned by [generateTitleCard] resolves with:
    the empty string without a context, the data URL of the canvas
    otherwise.  The promise has no reject path. *)
Definition generateTitleCard (b : Browser) (text aspectRatio : string)
    : string :=
  match titleCardCanvas b text aspectRatio with
  | None => EmptyString
  | Some canvas => toDataURL b canvas
  end.

(** ** [renderVideo] *)

(** What a render does, as seen from outside, in order. *)
Inductive Event : Type :=
| Draw (ops : list CanvasOp)
| DecodeAudio (src : string)
| ConsoleWarn (msg : string)
| BgStart (src : string) (loop : bool) (gain : Q)
| BgStop
| RecorderStart
| RecorderStop
| OnProgress (msg : string)
| VoiceStart (src : string)
| VoiceStop
| SetInterval
| ClearInterval.

(** Whether an awaited promise resolves. *)
Inductive Completion : Set := Resolved | Pending.

(** How a call of [renderVideo] ends. *)
Inductive Outcome : Set :=
| Throws (msg : string)
| NeverResolves
| ResolvesBlob.

(** [section.title || "Intro"] *)
Definition sectionName (section : GeneratedSection) : string :=
  match title section with
  | Some (String c rest) => String c rest
  | _ => "Intro"
  end.

(** "Decode Voice Audio": the events and the resulting [voiceBuffer]
    (its source and duration), [None] when there is no narration or the
    [try] block throws. *)
Definition decodeVoice (b : Browser) (section : GeneratedSection)
    : list Event * option (string * Q) :=
  match generatedAudio section with
  | Some src =>
    if JS.nonEmpty src then
      match decodeAudioData b src with
      | Some d => ([DecodeAudio src], Some (src, d))
      | None =>
        ([DecodeAudio src; ConsoleWarn "Audio decode failed for section"],
         None)
      end
    else ([], None)
  | None => ([], None)
  end.

(** [duration = voiceBuffer ? voiceBuffer.duration : 5] *)
Definition sectionDuration (voiceBuffer : option (string * Q)) : Q :=
  match voiceBuffer with
  | Some (_, d) => d
  | None => 5
  end.

(** "Prepare Images": the title card when truthy, then the generated
    images, empty entries filtered out. *)
Definition validSrcs (section : GeneratedSection) : list string :=
  let imagesToShow :=
    (if JS.truthy (titleCard section)
     then match titleCard section with Some c => [c] | None => [] end
     else [])
    ++ generatedImages section in
  filter JS.nonEmpty imagesToShow.

(** "Preload Images": the promise of one image always resolves, with the
    loaded image or with a fresh [new Image()] on error. *)
Definition preload (b : Browser) (src : string) : HTMLImageElement :=
  match loadImage b src with
  | Some img => img
  | None => newImage
  end.

(** The interval callback, once per timer sample: the sample that reaches
    [duration] clears the timer, stops the voice and resolves; every earlier
    one draws a frame.  Without such a sample the promise stays pending. *)
Fixpoint animationLoop (fs : FrameSetup) (hasTitleCard : bool)
    (loadedImages : list HTMLImageElement) (duration : Q) (hasVoice : bool)
    (samples : list Q) : list Event * Completion :=
  match samples with
  | [] => ([], Pending)
  | sectionElapsed :: rest =>
    if JS.geb sectionElapsed duration then
      (ClearInterval :: (if hasVoice then [VoiceStop] else []), Resolved)
    else
      let (events, c) :=
        animationLoop fs hasTitleCard loadedImages duration hasVoice rest in
      (Draw (drawFrame fs hasTitleCard loadedImages duration sectionElapsed)
            :: events, c)
  end.

(** The body of the section loop for section number [i]. *)
Definition renderSection (b : Browser) (fs : FrameSetup) (i : nat)
    (section : GeneratedSection) : list Event * Completion :=
  let progress := OnProgress ("Rendering: " ++ sectionName section) in
  let (decodeEvents, voiceBuffer) := decodeVoice b section in
  let duration := sectionDuration voiceBuffer in
  let srcs := validSrcs section in
  match srcs with
  | [] => (progress :: decodeEvents, Resolved)
  | _ :: _ =>
    let loadedImages := map (preload b) srcs in
    let voiceEvents :=
      match voiceBuffer with
      | Some (src, _) => [VoiceStart src]
      | None => []
      end in
    let (loopEvents, c) :=
      animationLoop fs (JS.truthy (titleCard section)) loadedImages duration
                    (match voiceBuffer with Some _ => true | None => false end)
                    (timerSamples b i) in
    (progress :: decodeEvents ++ voiceEvents ++ SetInterval :: loopEvents, c)
  end.

(** [for (let i = ...; i < sections.length; i++)]: sections are rendered in
    order; nothing after a section whose promise stays pending is run. *)
Fixpoint renderSections (b : Browser) (fs : FrameSetup) (i : nat)
    (sections : list GeneratedSection) : list Event * Completion :=
  match sections with
  | [] => ([], Resolved)
  | section :: rest =>
    match renderSection b fs i section with
    | (events, Pending) => (events, Pending)
    | (events, Resolved) =>
      let (events', c) := renderSections b fs (S i) rest in
      (events ++ events', c)
    end
  end.

(** Canvas size, zoom and transition chosen from [data.config]. *)
Definition frameSetup (config : option VideoConfig) : FrameSetup :=
  let portrait :=
    match config with
    | Some c => String.eqb (aspectRatio c) "9:16"
    | None => false
    end in
  let animationSpeed :=
    match config with Some c => animationSpeed c | None => Medium end in
  let transitionType :=
    match config with Some c => transition c | None => NoTransition end in
  mkFrameSetup (if portrait then 720 else 1280)
               (if portrait then 1280 else 720)
               (zoomFactors animationSpeed)
               transitionType.

(** "Background Music Track": the condition under which the track is set
    up at all. *)
Definition bgMusicWanted (data : ProjectData) : option (string * Q) :=
  match backgroundMusic data, config data with
  | Some src, Some c =>
    if JS.nonEmpty src && negb (Qeq_bool (bgMusicVolume c) 0)
       && JS.ltb 0 (bgMusicVolume c)
    then Some (src, bgMusicVolume c)
    else None
  | _, _ => None
  end.

(** The events of the background-music block and whether [bgSource] ends
    up non-null. *)
Definition setupBackgroundMusic (b : Browser) (data : ProjectData)
    : list Event * bool :=
  match bgMusicWanted data with
  | Some (src, volume) =>
    match decodeAudioData b src with
    | Some _ => ([DecodeAudio src; BgStart src true (volume * 0.5)], true)
    | None =>
      ([DecodeAudio src; ConsoleWarn "Failed to load background music"],
       false)
    end
  | None => ([], false)
  end.

(** The media stack of the browser, which [renderVideo] uses outside every
    [try]: a constructor that throws there rejects the whole call.
    - [audioContext]: [None] when [new AudioContext()] and
      [createMediaStreamDestination()] succeed, [Some msg] when one of them
      throws [msg];
    - [mediaRecorder]: likewise for [canvas.captureStream(30)],
      [new MediaStream], [new MediaRecorder] with the mime type
      ['video/webm; codecs=vp9'] and [recorder.start()]; a recorder that
      started records until [recorder.stop()] and then fires its [stop]
      event. *)
Record MediaStack : Set := mkMediaStack {
  audioContext : option string;
  mediaRecorder : option string
}.

(** A media stack in which the audio context and the recorder can be
    built. *)
Definition workingMedia : MediaStack := mkMediaStack None None.

(** [renderVideo], in a browser [b] with media stack [m].  The audio
    context is built after the initial fill and before the
    background-music block; the recorder is built and started after that
    block, hence after [bgSource.start()]. *)
Definition renderVideoWith (m : MediaStack) (b : Browser)
    (data : ProjectData) : list Event * Outcome :=
  let fs := frameSetup (config data) in
  if negb (getContext2d b) then ([], Throws "Could not create canvas context")
  else
    let initial := Draw (clearCanvas fs) in
    match audioContext m with
    | Some msg => ([initial], Throws msg)
    | None =>
      let (bgEvents, bgSource) := setupBackgroundMusic b data in
      match mediaRecorder m with
      | Some msg => (initial :: bgEvents, Throws msg)
      | None =>
        let sections := intro data :: parts data in
        match renderSections b fs 0 sections with
        | (events, Pending) =>
          (initial :: bgEvents ++ RecorderStart :: events, NeverResolves)
        | (events, Resolved) =>
          (initial :: bgEvents ++ RecorderStart :: events
             ++ (if bgSource then [BgStop] else []) ++ [RecorderStop],
           ResolvesBlob)
        end
      end
    end.

(** [renderVideo] in a browser whose audio context and media recorder can
    be built and started. *)
Definition renderVideo (b : Browser) (data : ProjectData)
    : list Event * Outcome :=
  renderVideoWith workingMedia b data.

(** ** Observations on events and frames *)

Definition isFrame (e : Event) : bool :=
  match e with Draw _ => true | _ => false end.

Definition isVoice (e : Event) : bool :=
  match e with VoiceStart _ | VoiceStop => true | _ => false end.

Definition isTimer (e : Event) : bool :=
  match e with SetInterval | ClearInterval => true | _ => false end.

Definition isBackground (e : Event) : bool :=
  match e with BgStart _ _ _ | BgStop => true | _ => false end.

(** The image a frame treats as current did not load: the lookup gave
    nothing, or an image of width 0. *)
Definition notLoaded (img : option HTMLImageElement) : Prop :=
  match img with
  | None => True
  | Some img => img_width img = 0%Z
  end.

(** A section with its narration removed. *)
Definition withoutAudio (section : GeneratedSection) : GeneratedSection :=
  mkSection (title section) (generatedImages section) None (titleCard section).

(** ** What a title card is

    The properties the specification asks of the asset produced by
    [generateTitleCard]. *)

(** The strings of a list written one after the other. *)
Definition joinStrings (l : list string) : string :=
  fold_right String.append EmptyString l.

(** A wrapped line is a single word of the text (followed by its space) or
    fits the maximum width. *)
Definition wrappedLine (measure : string -> Q) (maxWidth : Q)
    (words : list string) (line : string) : Prop :=
  (exists word, In word words /\ line = (word ++ " ")%string) \/
  measure line <= maxWidth.

Definition producesTitleCard (b : Browser) (text aspectRatio : string)
    : Prop :=
  exists canvas lines,
    titleCardCanvas b text aspectRatio = Some canvas /\
    generateTitleCard b text aspectRatio = toDataURL b canvas /\
    canvas_width canvas
      = (if String.eqb aspectRatio "9:16" then 1080 else 1920)%Z /\
    canvas_height canvas
      = (if String.eqb aspectRatio "9:16" then 1920 else 1080)%Z /\
    canvas_ops canvas =
      [SetFillStyle "#000000";
       FillRect 0 0 (inject_Z (canvas_width canvas))
                (inject_Z (canvas_height canvas));
       SetFillStyle "#FFFFFF";
       SetFont (titleFont aspectRatio);
       SetTextAlign "center";
       SetTextBaseline "middle"]
      ++ fillLines lines (inject_Z (canvas_width canvas) / 2)
                   (titleStartY aspectRatio (List.length lines))
                   (titleLineHeight aspectRatio) /\
    lines <> [] /\
    joinStrings lines
      = joinStrings (map (fun word => (word ++ " ")%string) (split text)) /\
    Forall (wrappedLine (measureText b (titleFont aspectRatio))
                        (titleMaxWidth aspectRatio) (split text)) lines /\
    (forall i line, nth_error lines i = Some line ->
       exists y,
         nth_error (fillLines lines (inject_Z (canvas_width canvas) / 2)
                              (titleStartY aspectRatio (List.length lines))
                              (titleLineHeight aspectRatio)) i
         = Some (FillText line (inject_Z (canvas_width canvas) / 2) y) /\
         y - inject_Z (canvas_height canvas) / 2
         == (inject_Z (Z.of_nat i)
             - (inject_Z (Z.of_nat (List.length lines)) - 1) / 2)
            * titleLineHeight aspectRatio).

(** ** Sample environments *)

(** A browser in which every decode and every load succeeds, text is
    measured at 40 units per character, and the timer fires every 0.5. *)
Definition sampleBrowser : Browser :=
  mkBrowser true
            (fun _ text => inject_Z (40 * Z.of_nat (String.length text)))
            (fun _ => "data:image/png;base64,iVBORw0KGgo="%string)
            (fun _ => Some 2)
            (fun src => Some (mkImage src 1920 1080))
            (fun _ => [0.5; 1; 1.5; 2; 2.5]).

(** A media stack without support for VP9 WebM recording. *)
Definition mediaWithoutRecorder : MediaStack :=
  mkMediaStack None (Some "NotSupportedError"%string).

(** The same browser when no 2D context can be obtained. *)
Definition browserWithoutContext : Browser :=
  mkBrowser false (measureText sampleBrowser) (toDataURL sampleBrowser)
            (decodeAudioData sampleBrowser) (loadImage sampleBrowser)
            (timerSamples sampleBrowser).

(** The same browser when nothing decodes and only [ok.png] loads. *)
Definition failingBrowser : Browser :=
  mkBrowser true (measureText sampleBrowser) (toDataURL sampleBrowser)
            (fun _ => None)
            (fun src => if String.eqb src "ok.png"
                        then Some (mkImage src 1920 1080) else None)
            (fun _ => [1; 1.75; 2.5; 5]).

(** ** Further observations on a render *)

(** The samples at which the interval callback draws a frame: those before
    the first sample that reaches [duration]. *)
Fixpoint framesBefore (duration : Q) (samples : list Q) : list Q :=
  match samples with
  | [] => []
  | t :: rest =>
    if JS.geb t duration then [] else t :: framesBefore duration rest
  end.

(** Whether some sample reaches [duration]. *)
Definition reaches (duration : Q) (samples : list Q) : bool :=
  existsb (fun t => JS.geb t duration) samples.

(** The duration a section plays for in browser [b]. *)
Definition durationIn (b : Browser) (section : GeneratedSection) : Q :=
  sectionDuration (snd (decodeVoice b section)).

(** The messages passed to [onProgress], in order. *)
Definition progressMessages (events : list Event) : list string :=
  flat_map (fun e => match e with OnProgress msg => [msg] | _ => [] end)
           events.

Definition countEvents (p : Event -> bool) (events : list Event) : nat :=
  List.length (filter p events).

Definition isVoiceStart (e : Event) : bool :=
  match e with VoiceStart _ => true | _ => false end.

Definition isVoiceStop (e : Event) : bool :=
  match e with VoiceStop => true | _ => false end.

Definition isSetInterval (e : Event) : bool :=
  match e with SetInterval => true | _ => false end.

Definition isClearInterval (e : Event) : bool :=
  match e with ClearInterval => true | _ => false end.

Definition isBgStart (e : Event) : bool :=
  match e with BgStart _ _ _ => true | _ => false end.

Definition isBgStop (e : Event) : bool :=
  match e with BgStop => true | _ => false end.

Definition isRecorderStart (e : Event) : bool :=
  match e with RecorderStart => true | _ => false end.

Definition isRecorderStop (e : Event) : bool :=
  match e with RecorderStop => true | _ => false end.

(** A drawing event begins by clearing the canvas of [fs] to black. *)
Definition clearsFirst (fs : FrameSetup) (e : Event) : Prop :=
  match e with
  | Draw ops => firstn 2 ops = clearCanvas fs
  | _ => True
  end.

(** ** Words and lines of a title *)

(** Whether a string contains a space. *)
Fixpoint hasSpace (s : string) : bool :=
  match s with
  | EmptyString => false
  | String c rest => Ascii.eqb c " "%char || hasSpace rest
  end.

(** The number of spaces of a string. *)
Fixpoint countSpaces (s : string) : nat :=
  match s with
  | EmptyString => 0
  | String c rest =>
    ((if Ascii.eqb c " "%char then 1 else 0) + countSpaces rest)%nat
  end.

(** The words of a group written on one line, each followed by a space. *)
Definition joinWords (group : list string) : string :=
  joinStrings (map (fun word => (word ++ " ")%string) group).

(** ** The whole project and [downloadProjectZip]

    A string stands for the JavaScript string with the same code units, all
    below 256. *)

(** [GeneratedSection] with the fields the renderer does not read. *)
Record ScriptSection : Set := mkScriptSection {
  assets : GeneratedSection;
  content : string;
  imagePrompts : list string
}.

(** [ProjectData] with the fields the renderer does not read. *)
Record Project : Set := mkProject {
  projectIntro : ScriptSection;
  projectParts : list ScriptSection;
  hashtags : list string;
  thumbnailPrompt : string;
  thumbnailImage : option string;
  characterDescription : option string;
  projectConfig : option VideoConfig;
  projectMusic : option string
}.

(** The part of a project that [renderVideo] reads. *)
Definition projectData (p : Project) : ProjectData :=
  mkProjectData (assets (projectIntro p)) (map assets (projectParts p))
                (projectConfig p) (projectMusic p).

(** A character matched by [/[a-z0-9]/i]. *)
Definition isAlnum (c : ascii) : bool :=
  let n := nat_of_ascii c in
  ((48 <=? n) && (n <=? 57) || (65 <=? n) && (n <=? 90)
   || (97 <=? n) && (n <=? 122))%nat.

(** [toLowerCase] on one code unit below 256. *)
Definition lowerChar (c : ascii) : ascii :=
  let n := nat_of_ascii c in
  if ((65 <=? n) && (n <=? 90) || (192 <=? n) && (n <=? 214)
      || (216 <=? n) && (n <=? 222))%nat
  then ascii_of_nat (n + 32) else c.

Fixpoint mapString (f : ascii -> ascii) (s : string) : string :=
  match s with
  | EmptyString => EmptyString
  | String c rest => String (f c) (mapString f rest)
  end.

(** [s.replace(/[^a-z0-9]/gi, '_')] *)
Definition replaceNonAlnum (s : string) : string :=
  mapString (fun c => if isAlnum c then c else "_"%char) s.

Definition toLowerCase (s : string) : string := mapString lowerChar s.

(** [projectName.replace(/[^a-z0-9]/gi, '_').toLowerCase()] *)
Definition safeName (projectName : string) : string :=
  toLowerCase (replaceNonAlnum projectName).

(** [text.split(sep)] for a one-character separator. *)
Fixpoint splitOn (sep : ascii) (text : string) : list string :=
  match text with
  | EmptyString => [EmptyString]
  | String c rest =>
    if Ascii.eqb c sep then EmptyString :: splitOn sep rest
    else match splitOn sep rest with
         | w :: ws => String c w :: ws
         | [] => [String c EmptyString]
         end
  end.

(** [text.includes(c)] for a one-character string. *)
Fixpoint includesChar (c : ascii) (text : string) : bool :=
  match text with
  | EmptyString => false
  | String c' rest => Ascii.eqb c' c || includesChar c rest
  end.

(** [uri.split(',')[1]]: [undefined] (here [None]) without a comma. *)
Definition dataAfterComma (uri : string) : option string :=
  nth_error (splitOn ","%char uri) 1.

(** A number in a template literal. *)
Definition decimal (n : nat) : string :=
  NilEmpty.string_of_uint (Nat.to_uint n).

(** Calls made on the archive: [zip.folder(name)] and
    [folder.file(name, data, { base64 })]; [None] as folder is the archive
    itself, [None] as data is [undefined]. *)
Inductive ZipCall : Set :=
| MkFolder (name : string)
| AddFile (folder : option string) (name : string) (data : option string)
          (base64 : bool).

(** [section.generatedImages.forEach((img, idx) => ...)], from index [idx]. *)
Fixpoint imageFiles (folder : string) (images : list string) (idx : nat)
    : list ZipCall :=
  match images with
  | [] => []
  | img :: rest =>
    (if JS.nonEmpty img
     then [AddFile (Some folder) ("image_" ++ decimal (idx + 1) ++ ".png")
                   (dataAfterComma img) true]
     else [])
    ++ imageFiles folder rest (S idx)
  end.

Definition addSectionToZip (folderName : string) (section : ScriptSection)
    (includeTitleCard : bool) : list ZipCall :=
  [MkFolder folderName;
   AddFile (Some folderName) "script.txt" (Some (content section)) false]
  ++ match generatedAudio (assets section) with
     | Some audio =>
       if JS.nonEmpty audio then
         [AddFile (Some folderName) "voiceover.wav"
                  (if includesChar ","%char audio then dataAfterComma audio
                   else Some audio)
                  true]
       else []
     | None => []
     end
  ++ match titleCard (assets section) with
     | Some card =>
       if includeTitleCard && JS.nonEmpty card then
         [AddFile (Some folderName) "title_card_overlay.png"
                  (dataAfterComma card) true]
       else []
     | None => []
     end
  ++ imageFiles folderName (generatedImages (assets section)) 0.

(** The folder of part number [index] (from 0) with title [partTitle]. *)
Definition partFolderName (index : nat) (partTitle : string) : string :=
  ("0" ++ decimal (index + 2) ++ "_Part" ++ decimal (index + 1) ++ "_"
   ++ substring 0 15 (replaceNonAlnum partTitle))%string.

(** [data.parts.forEach((part, index) => ...)], from index [index]: the
    calls made, and whether the loop ran to its end; it stops, throwing a
    [TypeError], at a part whose [title] is [undefined]. *)
Fixpoint addPartsToZip (parts : list ScriptSection) (index : nat)
    : list ZipCall * bool :=
  match parts with
  | [] => ([], true)
  | part :: rest =>
    match title (assets part) with
    | None => ([], false)
    | Some partTitle =>
      let (calls, completed) := addPartsToZip rest (S index) in
      (addSectionToZip (partFolderName index partTitle) part true ++ calls,
       completed)
    end
  end.

Definition metaContent (data : Project) (projectName : string) : string :=
  ("Project: " ++ projectName ++ String "010" (String "010" EmptyString)
   ++ "Thumbnail Prompt: " ++ thumbnailPrompt data
   ++ String "010" (String "010" EmptyString)
   ++ "Hashtags:" ++ String "010" EmptyString
   ++ String.concat ", " (hashtags data)
   ++ String "010" (String "010" EmptyString)
   ++ "Character Description:" ++ String "010" EmptyString
   ++ match characterDescription data with
      | Some (String c rest) => String c rest
      | _ => "N/A"
      end)%string.

(** The synchronous part of [downloadProjectZip]: the calls it makes on
    the archive and the name its [then] callback hands to [saveAs];
    [None] when it throws before it reaches [zip.generateAsync].  Whether
    the callback ever runs is the matter of [downloadProjectZipWith]. *)
Definition downloadProjectZip (data : Project) (projectName : string)
    : list ZipCall * option string :=
  let details :=
    [AddFile None "project_details.txt" (Some (metaContent data projectName))
             false] in
  let thumbnail :=
    match thumbnailImage data with
    | Some image =>
      if JS.nonEmpty image
      then [AddFile None "thumbnail.png" (dataAfterComma image) true]
      else []
    | None => []
    end in
  let introCalls := addSectionToZip "01_Intro" (projectIntro data) false in
  let (partCalls, completed) := addPartsToZip (projectParts data) 0 in
  (details ++ thumbnail ++ introCalls ++ partCalls,
   if completed then Some (safeName projectName ++ "_package.zip")%string
   else None).

(** [downloadProjectZip] to its end.  [saveAs] is called only in the
    [then] callback of [zip.generateAsync], and the promise has no
    [catch]: the archive is saved when the function reaches
    [generateAsync] and the promise resolves.  [generateAsync calls] tells
    whether it resolves for the archive built by [calls]; the library
    rejects, for one, a payload marked base64 that is not valid base64. *)
Definition downloadProjectZipWith (generateAsync : list ZipCall -> bool)
    (data : Project) (projectName : string) : list ZipCall * option string :=
  let (calls, archiveName) := downloadProjectZip data projectName in
  (calls,
   match archiveName with
   | Some name => if generateAsync calls then Some name else None
   | None => None
   end).

(** The names of the folders made by a list of calls. *)
Definition foldersOf (calls : list ZipCall) : list string :=
  flat_map (fun c => match c with MkFolder name => [name] | _ => [] end)
           calls.

(** The files a list of calls puts into [folder]. *)
Definition filesIn (folder : string) (calls : list ZipCall) : list string :=
  flat_map (fun c => match c with
                     | AddFile (Some f) name _ _ =>
                       if String.eqb f folder then [name] else []
                     | _ => []
                     end) calls.

(** Every character of a string satisfies [p]. *)
Fixpoint allChars (p : ascii -> bool) (s : string) : bool :=
  match s with
  | EmptyString => true
  | String c rest => p c && allChars p rest
  end.

Definition isDigit (c : ascii) : bool :=
  let n := nat_of_ascii c in ((48 <=? n) && (n <=? 57))%nat.

(** A lower-case letter, a digit or an underscore. *)
Definition isSafeChar (c : ascii) : bool :=
  let n := nat_of_ascii c in
  ((48 <=? n) && (n <=? 57) || (97 <=? n) && (n <=? 122) || (n =? 95))%nat.

(** A picture put into the archive: a base64 file other than the voice. *)
Definition isPicture (c : ZipCall) : bool :=
  match c with
  | AddFile _ name _ true => negb (String.eqb name "voiceover.wav")
  | _ => false
  end.

(** ** WAV header ([src/services/geminiService.ts])

    Bytes are integers in [[0, 256)]; a [DataView] over an [ArrayBuffer] is
    the list of its bytes.  A write outside the buffer throws a
    [RangeError], modelled by [None]. *)

(** Replace the bytes of [view] from [offset] by [bytes]. *)
Definition writeBytes (view : list Z) (offset : nat) (bytes : list Z)
    : option (list Z) :=
  if (offset + List.length bytes <=? List.length view)%nat
  then Some (firstn offset view ++ bytes
             ++ skipn (offset + List.length bytes) view)
  else None.

(** [view.setUint8(offset, value)] *)
Definition setUint8 (view : list Z) (offset : nat) (value : Z)
    : option (list Z) :=
  writeBytes view offset [value mod 256]%Z.

(** The two bytes of [value] modulo 2^16, least significant first. *)
Definition le16 (value : Z) : list Z :=
  [value mod 256; (value / 256) mod 256]%Z.

(** The four bytes of [value] modulo 2^32, least significant first. *)
Definition le32 (value : Z) : list Z :=
  [value mod 256; (value / 256) mod 256; (value / 65536) mod 256;
   (value / 16777216) mod 256]%Z.

(** [view.setUint16(offset, value, true)] *)
Definition setUint16 (view : list Z) (offset : nat) (value : Z)
    : option (list Z) :=
  writeBytes view offset (le16 value).

(** [view.setUint32(offset, value, true)] *)
Definition setUint32 (view : list Z) (offset : nat) (value : Z)
    : option (list Z) :=
  writeBytes view offset (le32 value).

(** [string.charCodeAt(i)] for each character. *)
Fixpoint charCodes (s : string) : list Z :=
  match s with
  | EmptyString => []
  | String c rest => Z.of_nat (nat_of_ascii c) :: charCodes rest
  end.

(** [String.fromCharCode.apply(null, bytes)] *)
Fixpoint fromCharCodes (bytes : list Z) : string :=
  match bytes with
  | [] => EmptyString
  | byte :: rest => String (ascii_of_nat (Z.to_nat byte)) (fromCharCodes rest)
  end.

(** [writeString(view, offset, string)]: one [setUint8] per character. *)
Fixpoint writeString (view : list Z) (offset : nat) (s : string)
    : option (list Z) :=
  match s with
  | EmptyString => Some view
  | String c rest =>
    match setUint8 view offset (Z.of_nat (nat_of_ascii c)) with
    | Some view' => writeString view' (S offset) rest
    | None => None
    end
  end.

(** Sequencing of writes that may throw. *)
Definition andThen (view : option (list Z))
    (write : list Z -> option (list Z)) : option (list Z) :=
  match view with
  | Some v => write v
  | None => None
  end.

(** The header built by [addWavHeader] for [wavDataByteLength] bytes of
    samples. *)
Definition wavHeader (wavDataByteLength : Z) : option (list Z) :=
  let numChannels := 1%Z in
  let sampleRate := 24000%Z in
  let bitsPerSample := 16%Z in
  let byteRate := (sampleRate * numChannels * bitsPerSample / 8)%Z in
  let blockAlign := (numChannels * bitsPerSample / 8)%Z in
  let headerByteLength := 44%nat in
  let totalLength := (Z.of_nat headerByteLength + wavDataByteLength)%Z in
  let view := repeat 0%Z headerByteLength in
  andThen (andThen (andThen (andThen (andThen (andThen (andThen (andThen
  (andThen (andThen (andThen (andThen
    (writeString view 0 "RIFF")
    (fun v => setUint32 v 4 (totalLength - 8)))
    (fun v => writeString v 8 "WAVE"))
    (fun v => writeString v 12 "fmt "))
    (fun v => setUint32 v 16 16))
    (fun v => setUint16 v 20 1))
    (fun v => setUint16 v 22 numChannels))
    (fun v => setUint32 v 24 sampleRate))
    (fun v => setUint32 v 28 byteRate))
    (fun v => setUint16 v 32 blockAlign))
    (fun v => setUint16 v 34 bitsPerSample))
    (fun v => writeString v 36 "data"))
    (fun v => setUint32 v 40 wavDataByteLength).

Definition chunkSize : nat := 8 * 1024.

(** [wavBuffer.subarray(from, to)] *)
Definition subarray (wavBuffer : list Z) (from to : nat) : list Z :=
  firstn (to - from) (skipn from wavBuffer).

(** [for (let i = ...; i < wavBuffer.length; i += chunkSize)], at most
    [fuel] iterations. *)
Fixpoint chunkLoop (fuel : nat) (wavBuffer : list Z) (i : nat)
    (binary : string) : string :=
  match fuel with
  | O => binary
  | S fuel' =>
    if (i <? List.length wavBuffer)%nat then
      let chunk :=
        subarray wavBuffer i
                 (Nat.min (i + chunkSize) (List.length wavBuffer)) in
      chunkLoop fuel' wavBuffer (i + chunkSize)
                (binary ++ fromCharCodes chunk)
    else binary
  end.

(** [addWavHeader(base64Pcm)], given the browser's [atob] ([None] when it
    throws on invalid input) and [btoa]; [None] when it throws. *)
Definition addWavHeader (atob : string -> option string)
    (btoa : string -> string) (base64Pcm : string) : option string :=
  match atob base64Pcm with
  | None => None
  | Some binaryString =>
    let buffer := charCodes binaryString in
    match wavHeader (Z.of_nat (List.length buffer)) with
    | None => None
    | Some header =>
      let wavBuffer := header ++ buffer in
      let binary :=
        chunkLoop (List.length wavBuffer) wavBuffer 0 EmptyString in
      Some (btoa binary)
    end
  end.

(** The number whose little-endian bytes are [bytes]. *)
Fixpoint uintLE (bytes : list Z) : Z :=
  match bytes with
  | [] => 0
  | byte :: rest => (byte + 256 * uintLE rest)%Z
  end.

(** ** The generation service ([src/services/geminiService.ts])

    The replies of the remote model are given by the environment, one per
    request, numbered in the order the requests are made.  The text of a
    request (the prompt built from the style, the aspect ratio and the
    character description) is not modelled. *)

(** A function that returns or throws. *)
Inductive Js (A : Type) : Type :=
| Return (value : A)
| Throw (msg : string).

Arguments Return {A} value.
Arguments Throw {A} msg.

(** [part.inlineData] of a reply. *)
Record InlineData : Set := mkInlineData {
  mimeType : option string;
  data : option string
}.

(** - [apiKey]: [process.env.API_KEY];
    - [imageReply k]: the parts
      [response.candidates?.[0]?.content?.parts || []] of the reply to
      request [k], each with its [inlineData] if any; [None] when the
      request throws;
    - [speechReply k]: [...parts?.[0]?.inlineData?.data] of the reply to
      request [k]; [None] when the request throws;
    - [atob], [btoa]: the browser's base64 functions ([atob] throws, here
      [None], on invalid input). *)
Record Gemini : Type := mkGemini {
  apiKey : option string;
  imageReply : nat -> option (list (option InlineData));
  speechReply : nat -> option (option string);
  atob : string -> option string;
  btoa : string -> string
}.

(** [getClient]: throws without an API key. *)
Definition getClient (g : Gemini) : Js unit :=
  if JS.truthy (apiKey g) then Return tt
  else Throw "API_KEY not found in environment".

(** A value interpolated into a template literal. *)
Definition interpolate (s : option string) : string :=
  match s with
  | Some s => s
  | None => "undefined"
  end.

(** The loop over the parts of a reply in [generateImage]: the data URL of
    the first part that carries data, [null] (here [None]) without one. *)
Fixpoint firstInlineImage (parts : list (option InlineData))
    : option string :=
  match parts with
  | [] => None
  | part :: rest =>
    match part with
    | Some inline =>
      if JS.truthy (data inline)
      then Some ("data:" ++ interpolate (mimeType inline) ++ ";base64,"
                 ++ interpolate (data inline))%string
      else firstInlineImage rest
    | None => firstInlineImage rest
    end
  end.

(** [generateImage], as request number [k]. *)
Definition generateImage (g : Gemini) (k : nat) : Js (option string) :=
  match getClient g with
  | Throw msg => Throw msg
  | Return _ =>
    match imageReply g k with
    | Some parts => Return (firstInlineImage parts)
    | None => Return None
    end
  end.

(** [generateSpeech], as request number [k]. *)
Definition generateSpeech (g : Gemini) (k : nat) : Js (option string) :=
  match getClient g with
  | Throw msg => Throw msg
  | Return _ =>
    match speechReply g k with
    | Some (Some audioData) =>
      if JS.nonEmpty audioData then
        match addWavHeader (atob g) (btoa g) audioData with
        | Some wavBase64 =>
          Return (Some ("data:audio/wav;base64," ++ wavBase64)%string)
        | None => Return None
        end
      else Return None
    | Some None => Return None
    | None => Return None
    end
  end.

(** Whether a part of a reply carries image data. *)
Definition carriesData (part : option InlineData) : bool :=
  match part with
  | Some inline => JS.truthy (data inline)
  | None => false
  end.

(** What [addSectionToZip] stores as [voiceover.wav] for [audio]. *)
Definition voiceoverData (audio : string) : option string :=
  if includesChar ","%char audio then dataAfterComma audio else Some audio.

(** ** Asset generation ([generateAllAssets] of the application component)

    The project object is mutated in place by the source; here it is
    passed along.  [imagePrompts] is an array, as its type says, so reading
    a prompt never throws; the prompt itself only enters the request.  [completedTasks] is the counter of [updateProgress],
    [requests] the number of requests made to the generation service so
    far. *)

Inductive AppState : Set :=
| LOCKED | IDLE | ANALYZING_VIDEO | GENERATING_SCRIPT | GENERATING_ASSETS
| RENDERING_VIDEO | COMPLETE | ERROR.

Record AssetProgress : Set := mkAssetProgress {
  total : nat;
  current : nat;
  currentTask : string
}.

(** Calls of the component's state setters and of [console.error]. *)
Inductive UiEvent : Set :=
| SetProgress (p : AssetProgress)
| SetStatus (s : AppState)
| SetErrorMsg (msg : string)
| ConsoleError.

Definition GENERATION_LIMIT : nat := 6.

Record AssetRun : Set := mkAssetRun {
  run_project : Project;
  completedTasks : nat;
  requests : nat;
  uiEvents : list UiEvent
}.

Definition withProject (project : Project) (run : AssetRun) : AssetRun :=
  mkAssetRun project (completedTasks run) (requests run) (uiEvents run).

(** One more request has been made. *)
Definition requested (run : AssetRun) : AssetRun :=
  mkAssetRun (run_project run) (completedTasks run) (S (requests run))
             (uiEvents run).

(** [updateProgress(task)] *)
Definition updateProgress (totalTasks : nat) (task : string)
    (run : AssetRun) : AssetRun :=
  mkAssetRun (run_project run) (S (completedTasks run)) (requests run)
             (uiEvents run
              ++ [SetProgress (mkAssetProgress totalTasks
                                               (S (completedTasks run))
                                               task)]).

(** [section.generatedAudio = audio] *)
Definition setGeneratedAudio (audio : option string) (s : ScriptSection)
    : ScriptSection :=
  mkScriptSection
    (mkSection (title (assets s)) (generatedImages (assets s)) audio
               (titleCard (assets s)))
    (content s) (imagePrompts s).

(** [section.generatedImages.push(img)] for each image of [imgs]. *)
Definition pushGeneratedImages (imgs : list string) (s : ScriptSection)
    : ScriptSection :=
  mkScriptSection
    (mkSection (title (assets s)) (generatedImages (assets s) ++ imgs)
               (generatedAudio (assets s)) (titleCard (assets s)))
    (content s) (imagePrompts s).

(** [part.titleCard = card] *)
Definition setTitleCard (card : string) (s : ScriptSection) : ScriptSection :=
  mkScriptSection
    (mkSection (title (assets s)) (generatedImages (assets s))
               (generatedAudio (assets s)) (Some card))
    (content s) (imagePrompts s).

Fixpoint mapAt {A : Type} (i : nat) (f : A -> A) (l : list A) : list A :=
  match l, i with
  | [], _ => []
  | x :: rest, O => f x :: rest
  | x :: rest, S i' => x :: mapAt i' f rest
  end.

(** The section an asset is generated for. *)
Inductive Target : Set :=
| IntroTarget
| PartTarget (i : nat).

(** Apply [f] to the target section of a project. *)
Definition updateTarget (target : Target)
    (f : ScriptSection -> ScriptSection) (p : Project) : Project :=
  match target with
  | IntroTarget =>
    mkProject (f (projectIntro p)) (projectParts p) (hashtags p)
              (thumbnailPrompt p) (thumbnailImage p)
              (characterDescription p) (projectConfig p) (projectMusic p)
  | PartTarget i =>
    mkProject (projectIntro p) (mapAt i f (projectParts p)) (hashtags p)
              (thumbnailPrompt p) (thumbnailImage p)
              (characterDescription p) (projectConfig p) (projectMusic p)
  end.

(** [data.thumbnailImage = image] *)
Definition setThumbnailImage (image : option string) (p : Project)
    : Project :=
  mkProject (projectIntro p) (projectParts p) (hashtags p)
            (thumbnailPrompt p) image (characterDescription p)
            (projectConfig p) (projectMusic p).

(** The progress message of image [j] (from 0) of a target. *)
Definition imageTask (target : Target) (j : nat) : string :=
  match target with
  | IntroTarget => "Generating Intro Image " ++ decimal (j + 1) ++ "..."
  | PartTarget i =>
    "Generating Image " ++ decimal (j + 1) ++ " for Part "
    ++ decimal (i + 1) ++ "..."
  end.

(** [for (let j = ...; j < GENERATION_LIMIT; j++)] with [count] iterations
    left: the run afterwards, and whether a call threw. *)
Fixpoint imageLoop (g : Gemini) (totalTasks : nat) (target : Target)
    (count j : nat) (run : AssetRun) : AssetRun * bool :=
  match count with
  | O => (run, false)
  | S count' =>
    let run1 := updateProgress totalTasks (imageTask target j) run in
    match generateImage g (requests run1) with
    | Throw _ => (requested run1, true)
    | Return img =>
      let run2 :=
        match img with
        | Some (String c rest) =>
          withProject
            (updateTarget target (pushGeneratedImages [String c rest])
                          (run_project run1))
            (requested run1)
        | _ => requested run1
        end in
      imageLoop g totalTasks target count' (S j) run2
    end
  end.

(** The body of the loop over the parts, for part [i]. *)
Definition partStep (g : Gemini) (b : Browser) (config : VideoConfig)
    (totalTasks i : nat) (run : AssetRun) : AssetRun * bool :=
  let run1 :=
    updateProgress totalTasks
      ("Creating Title Card for Part " ++ decimal (i + 1) ++ "...") run in
  match nth_error (projectParts (run_project run1)) i with
  | None => (run1, true)
  | Some part =>
    let run2 :=
      match title (assets part) with
      | Some (String c rest) =>
        withProject
          (updateTarget (PartTarget i)
             (setTitleCard (generateTitleCard b (String c rest)
                                              (aspectRatio config)))
             (run_project run1))
          run1
      | _ => run1
      end in
    let run3 :=
      updateProgress totalTasks
        ("Generating Audio for Part " ++ decimal (i + 1) ++ "...") run2 in
    match generateSpeech g (requests run3) with
    | Throw _ => (requested run3, true)
    | Return audio =>
      let run4 :=
        withProject
          (updateTarget (PartTarget i) (setGeneratedAudio audio)
                        (run_project run3))
          (requested run3) in
      imageLoop g totalTasks (PartTarget i) GENERATION_LIMIT 0 run4
    end
  end.

(** [for (let i = ...; i < data.parts.length; i++)] with [count] parts
    left. *)
Fixpoint partsLoop (g : Gemini) (b : Browser) (config : VideoConfig)
    (totalTasks count i : nat) (run : AssetRun) : AssetRun * bool :=
  match count with
  | O => (run, false)
  | S count' =>
    match partStep g b config totalTasks i run with
    | (run', true) => (run', true)
    | (run', false) => partsLoop g b config totalTasks count' (S i) run'
    end
  end.

(** [generateAllAssets(data)]: the project afterwards and the calls made on
    the component's state. *)
Definition generateAllAssets (g : Gemini) (b : Browser)
    (config : VideoConfig) (project : Project) : Project * list UiEvent :=
  let totalParts := (1 + List.length (projectParts project))%nat in
  let tasksPerPart := (1 + GENERATION_LIMIT + 1)%nat in
  let totalTasks := (1 + tasksPerPart * totalParts)%nat in
  let run1 :=
    updateProgress totalTasks "Generating Thumbnail..."
                   (mkAssetRun project 0 0 []) in
  let (run, threw) :=
    match generateImage g (requests run1) with
    | Throw _ => (requested run1, true)
    | Return image =>
      let run2 :=
        withProject (setThumbnailImage image (run_project run1))
                    (requested run1) in
      let run3 :=
        updateProgress totalTasks "Generating Intro Voice..." run2 in
      match generateSpeech g (requests run3) with
      | Throw _ => (requested run3, true)
      | Return audio =>
        let run4 :=
          withProject
            (updateTarget IntroTarget (setGeneratedAudio audio)
                          (run_project run3))
            (requested run3) in
        match imageLoop g totalTasks IntroTarget GENERATION_LIMIT 0 run4 with
        | (run5, true) => (run5, true)
        | (run5, false) =>
          partsLoop g b config totalTasks
                    (List.length (projectParts (run_project run5))) 0 run5
        end
      end
    end in
  (run_project run,
   uiEvents run
   ++ (if threw
       then [ConsoleError;
             SetErrorMsg
               "Failed during asset generation. Some assets may be missing.";
             SetStatus COMPLETE]
       else [SetStatus COMPLETE])).

(** The [(current, total)] pairs passed to [setProgress], in order. *)
Definition progressValues (events : list UiEvent) : list (nat * nat) :=
  flat_map (fun e => match e with
                     | SetProgress p => [(current p, total p)]
                     | _ => []
                     end) events.

(** The images pushed by [count] image requests in a row, the first of
    them request number [k]: the replies that are non-empty strings, in
    order. *)
Definition imagesFrom (g : Gemini) (k count : nat) : list string :=
  flat_map (fun j => match generateImage g (k + j) with
                     | Return (Some (String c rest)) => [String c rest]
                     | _ => []
                     end)
           (seq 0 count).

(** The audio stored from the speech request number [k]. *)
Definition audioFrom (g : Gemini) (k : nat) : option string :=
  match generateSpeech g k with
  | Return audio => audio
  | Throw _ => None
  end.

(** What asset generation makes of a section whose speech request is
    number [k], followed by its six image requests: the audio is the
    reply to the speech request, the images pushed are those of the six
    image requests, and the title card is [card]. *)
Definition generatedSection (g : Gemini) (k : nat) (card : option string)
    (s : ScriptSection) : ScriptSection :=
  mkScriptSection
    (mkSection (title (assets s))
               (generatedImages (assets s)
                ++ imagesFrom g (S k) GENERATION_LIMIT)
               (audioFrom g k) card)
    (content s) (imagePrompts s).

(** The title card a part has after asset generation. *)
Definition partTitleCard (b : Browser) (config : VideoConfig)
    (s : ScriptSection) : option string :=
  match title (assets s) with
  | Some (String c rest) =>
    Some (generateTitleCard b (String c rest) (aspectRatio config))
  | _ => titleCard (assets s)
  end.

(** What asset generation makes of the parts, the speech request of the
    first of them being number [k]: each part takes seven requests. *)
Fixpoint generatedParts (g : Gemini) (b : Browser) (config : VideoConfig)
    (k : nat) (parts : list ScriptSection) : list ScriptSection :=
  match parts with
  | [] => []
  | s :: rest =>
    generatedSection g k (partTitleCard b config s) s
    :: generatedParts g b config (k + 7) rest
  end.

Definition withIntro (section : ScriptSection) (p : Project) : Project :=
  mkProject section (projectParts p) (hashtags p) (thumbnailPrompt p)
            (thumbnailImage p) (characterDescription p) (projectConfig p)
            (projectMusic p).

Definition withParts (sections : list ScriptSection) (p : Project)
    : Project :=
  mkProject (projectIntro p) sections (hashtags p) (thumbnailPrompt p)
            (thumbnailImage p) (characterDescription p) (projectConfig p)
            (projectMusic p).

Definition isProgressEvent (e : UiEvent) : bool :=
  match e with SetProgress _ => true | _ => false end.

(** Between [run] and [run'] exactly [n] tasks were reported, numbered on
    from the counter of [run], each with total [totalTasks], and nothing
    else was done to the component's state. *)
Definition ranTasks (totalTasks n : nat) (run run' : AssetRun) : Prop :=
  completedTasks run' = (completedTasks run + n)%nat /\
  exists added,
    uiEvents run' = uiEvents run ++ added /\
    Forall (fun e => isProgressEvent e = true) added /\
    progressValues added
    = map (fun k => (k, totalTasks)) (seq (S (completedTasks run)) n).

(** The target section of a project, if there is one. *)
Definition targetSection (target : Target) (p : Project)
    : option ScriptSection :=
  match target with
  | IntroTarget => Some (projectIntro p)
  | PartTarget i => nth_error (projectParts p) i
  end.

(** * Properties *)

(** ** Arithmetic helpers *)

Lemma ltb_lt (x y : Q) : JS.ltb x y = true <-> x < y.
Proof. unfold JS.ltb, Qlt. apply Z.ltb_lt. Qed.

Lemma ltb_ge (x y : Q) : JS.ltb x y = false <-> y <= x.
Proof. unfold JS.ltb, Qle. rewrite Z.ltb_ge. reflexivity. Qed.

Lemma geb_ge (x y : Q) : JS.geb x y = true <-> y <= x.
Proof. unfold JS.geb. rewrite negb_true_iff. apply ltb_ge. Qed.

Lemma geb_lt (x y : Q) : JS.geb x y = false <-> x < y.
Proof. unfold JS.geb. rewrite negb_false_iff. apply ltb_lt. Qed.

Lemma inject_Z_pos (n : Z) : (0 < n)%Z -> 0 < inject_Z n.
Proof. intros H. change 0 with (inject_Z 0). rewrite <- Zlt_Qlt. exact H. Qed.

(** The slot [k = floor(x / c)] of a non-negative [x] among slots of
    width [c > 0]. *)
Lemma floor_slot (x c : Q) :
  0 < c -> 0 <= x ->
  let k := Qfloor (x / c) in
  (0 <= k)%Z /\ inject_Z k * c <= x /\ x < inject_Z k * c + c.
Proof.
  intros Hc Hx k.
  assert (Hq : x == (x / c) * c) by (field; lra).
  pose proof (Qfloor_le (x / c)) as Hlo.
  pose proof (Qlt_floor (x / c)) as Hhi.
  fold k in Hlo, Hhi.
  rewrite inject_Z_plus in Hhi. change (inject_Z 1) with 1 in Hhi.
  split; [| split].
  - change 0%Z with (Qfloor (inject_Z 0)).
    apply Qfloor_resp_le. change (inject_Z 0) with 0.
    apply Qle_shift_div_l; lra.
  - assert (H : inject_Z k * c <= (x / c) * c)
      by (apply Qmult_le_compat_r; lra).
    apply (Qle_trans _ _ _ H). rewrite <- Hq. apply Qle_refl.
  - assert (H : (x / c) * c < (inject_Z k + 1) * c)
      by (apply Qmult_lt_compat_r; lra).
    apply (Qle_lt_trans _ ((x / c) * c)); [rewrite <- Hq; apply Qle_refl |].
    apply (Qlt_le_trans _ _ _ H). apply Qle_lteq. right. ring.
Qed.

(** A point below [n * c] falls in a slot below [n]. *)
Lemma floor_slot_lt (x c : Q) (n : Z) :
  0 < c -> 0 <= x -> x < inject_Z n * c ->
  (Qfloor (x / c) < n)%Z.
Proof.
  intros Hc Hx Hn.
  destruct (floor_slot x c Hc Hx) as (_ & Hlo & _).
  destruct (Z.lt_ge_cases (Qfloor (x / c)) n) as [Hlt | Hge]; [exact Hlt |].
  exfalso. rewrite Zle_Qle in Hge.
  assert (inject_Z n * c <= inject_Z (Qfloor (x / c)) * c)
    by (apply Qmult_le_compat_r; lra).
  lra.
Qed.

(** The left end of slot [k] falls in slot [k]. *)
Lemma floor_slot_start (k : Z) (c : Q) :
  0 < c -> Qfloor (inject_Z k * c / c) = k.
Proof.
  intros Hc. rewrite <- (Qfloor_Z k) at 2.
  apply Qfloor_comp. field. lra.
Qed.

(** ** Plans *)

Lemma nth_error_map_seq {A : Type} (f : nat -> A) (n i start : nat) :
  (i < n)%nat -> nth_error (map f (seq start n)) i = Some (f (start + i)%nat).
Proof.
  revert i start. induction n as [| n IH]; intros i start Hi; [lia |].
  destruct i as [| i]; simpl.
  - f_equal. f_equal. lia.
  - rewrite IH by lia. f_equal. f_equal. lia.
Qed.

Lemma totalDuration_uniform (idx : nat -> Z) (start : nat -> Q) (c : Q)
    (l : list nat) :
  totalDuration (map (fun i => mkTiming (idx i) (start i) c) l)
  == inject_Z (Z.of_nat (List.length l)) * c.
Proof.
  induction l as [| a l IH].
  - simpl. change (inject_Z 0) with 0. lra.
  - cbn [map totalDuration fold_right List.length currentImageDuration].
    fold (totalDuration (map (fun i => mkTiming (idx i) (start i) c) l)).
    rewrite IH, Nat2Z.inj_succ, <- Z.add_1_r, inject_Z_plus.
    change (inject_Z 1) with 1. lra.
Qed.

(** ** Sections without a title card *)

(** The timing computed at a tick of a section without title card. *)
Lemma imageTiming_no_title (length : Z) (duration sectionElapsed : Q) :
  imageTiming false length duration sectionElapsed =
  let timePerImage := duration / inject_Z length in
  let k := Qfloor (sectionElapsed / timePerImage) in
  mkTiming k (inject_Z k * timePerImage) timePerImage.
Proof. reflexivity. Qed.

(** The even partition, in exact arithmetic: the plan has [N] intervals,
    interval [i] being image [i] from [i * (D / N)] for [D / N]; the
    durations sum to [D]; starts are strictly increasing and contiguous; at
    every [t] in [[0, D)] the index is [floor (t / (D / N))], below [N],
    with the interval of the plan at that index, which contains [t]; and
    every interval of the plan is the one computed at its own start. *)
Lemma no_title_partition_exact (N : nat) (D : Q) :
  (0 < N)%nat -> 0 < D ->
  let perImage := D / inject_Z (Z.of_nat N) in
  let interval (i : nat) :=
    mkTiming (Z.of_nat i) (inject_Z (Z.of_nat i) * perImage) perImage in
  let plan := planIntervals false N D in
  List.length plan = N /\
  (forall i, (i < N)%nat -> nth_error plan i = Some (interval i)) /\
  totalDuration plan == D /\
  (forall i j, (i < j)%nat ->
     currentImageStartTime (interval i) < currentImageStartTime (interval j)) /\
  (forall i,
     currentImageStartTime (interval (S i))
     == currentImageStartTime (interval i) + currentImageDuration (interval i)) /\
  (forall t, 0 <= t -> t < D ->
     let tm := imageTiming false (Z.of_nat N) D t in
     imgIndex tm = Qfloor (t / perImage) /\
     (0 <= imgIndex tm < Z.of_nat N)%Z /\
     nth_error plan (Z.to_nat (imgIndex tm)) = Some tm /\
     within tm t) /\
  (forall i, (i < N)%nat ->
     imageTiming false (Z.of_nat N) D (currentImageStartTime (interval i))
     = interval i).
Proof.
  intros HN HD perImage interval plan.
  assert (HNq : 0 < inject_Z (Z.of_nat N)) by (apply inject_Z_pos; lia).
  assert (Hper : 0 < perImage)
    by (apply Qlt_shift_div_l; [exact HNq | lra]).
  assert (Hsum : inject_Z (Z.of_nat N) * perImage == D)
    by (unfold perImage; field; lra).
  assert (Hnth : forall i, (i < N)%nat -> nth_error plan i = Some (interval i)).
  { intros i Hi. unfold plan, planIntervals.
    rewrite (nth_error_map_seq _ N i 0 Hi). reflexivity. }
  split; [| split; [| split; [| split; [| split; [| split]]]]].
  - unfold plan, planIntervals. rewrite length_map, length_seq. reflexivity.
  - exact Hnth.
  - unfold plan, planIntervals.
    rewrite totalDuration_uniform, length_seq. exact Hsum.
  - intros i j Hij. cbn [interval currentImageStartTime].
    apply Qmult_lt_compat_r; [exact Hper |].
    rewrite <- Zlt_Qlt. lia.
  - intros i. cbn [interval currentImageStartTime currentImageDuration].
    rewrite Nat2Z.inj_succ, <- Z.add_1_r, inject_Z_plus.
    change (inject_Z 1) with 1. ring.
  - intros t Ht0 HtD tm.
    destruct (floor_slot t perImage Hper Ht0) as (Hk0 & Hlo & Hhi).
    assert (HkN : (Qfloor (t / perImage) < Z.of_nat N)%Z).
    { apply floor_slot_lt; [exact Hper | exact Ht0 |]. rewrite Hsum. exact HtD. }
    unfold tm. rewrite imageTiming_no_title. fold perImage.
    cbn zeta. cbn [imgIndex].
    split; [reflexivity |]. split; [lia |]. split.
    + rewrite Hnth by lia. unfold interval.
      rewrite Z2Nat.id by exact Hk0. reflexivity.
    + unfold within. cbn [currentImageStartTime currentImageDuration].
      split; assumption.
  - intros i Hi. rewrite imageTiming_no_title. fold perImage. cbn zeta.
    cbn [interval currentImageStartTime].
    rewrite (floor_slot_start (Z.of_nat i) perImage Hper). reflexivity.
Qed.

(** *** The same tick on doubles *)

(** Rounding keeps the sign it is given. *)
Lemma double_round_sign (s : bool) (m e : Z) (l : location) :
  match binary_round_aux Double.prec Double.emax s m e l with
  | S754_nan => True
  | S754_zero s' | S754_infinity s' | S754_finite s' _ _ => s' = s
  end.
Proof.
  unfold binary_round_aux.
  destruct (shr_fexp Double.prec Double.emax m e l) as [mrs' e'].
  destruct (shr_fexp Double.prec Double.emax _ e' loc_Exact) as [mrs'' e''].
  destruct (shr_m mrs''); [reflexivity | | exact I].
  destruct (e'' <=? Double.emax - Double.prec)%Z; reflexivity.
Qed.

Lemma double_ofZ_signClear (n : Z) :
  (0 <= n)%Z -> Double.signClear (Double.ofZ n).
Proof.
  intros Hn. unfold Double.ofZ, binary_normalize.
  destruct n as [| p | p]; [reflexivity | | lia].
  unfold binary_round.
  destruct (shl_align p 0 _) as [mz ez].
  pose proof (double_round_sign false (Z.pos mz) ez loc_Exact) as H.
  destruct (binary_round_aux _ _ _ _ _ _); cbn; auto.
Qed.

Lemma double_div_signClear (x y : spec_float) :
  Double.signClear x -> Double.signClear y ->
  Double.signClear (Double.div x y).
Proof.
  intros Hx Hy. unfold Double.div, SFdiv.
  destruct x as [sx | sx | | sx mx ex]; destruct y as [sy | sy | | sy my ey];
    cbn in Hx, Hy; subst; cbn; auto.
  destruct (SFdiv_core_binary _ _ _ _ _ _) as [[mz ez] lz].
  pose proof (double_round_sign false mz ez lz) as H.
  destruct (binary_round_aux _ _ _ _ _ _); cbn; auto.
Qed.

Lemma double_div_notNegative (x y : spec_float) :
  Double.notNegative x -> Double.signClear y ->
  Double.notNegative (Double.div x y).
Proof.
  intros Hx Hy. unfold Double.div, SFdiv.
  destruct x as [sx | sx | | sx mx ex]; destruct y as [sy | sy | | sy my ey];
    cbn in Hx, Hy; subst; cbn; auto.
  destruct (SFdiv_core_binary _ _ _ _ _ _) as [[mz ez] lz].
  pose proof (double_round_sign false mz ez lz) as H.
  destruct (binary_round_aux _ _ _ _ _ _); cbn; auto.
Qed.

Lemma double_floor_notNegative (x : spec_float) :
  Double.notNegative x -> Double.notNegative (Double.floor x).
Proof.
  intros Hx. destruct x as [s | s | | s m e]; cbn in *; auto.
  subst s. destruct (0 <=? e)%Z; [reflexivity |].
  assert (Hn : (0 <= Z.shiftr (Z.pos m) (- e))%Z)
    by (apply Z.shiftr_nonneg; lia).
  pose proof (double_ofZ_signClear _ Hn) as H.
  destruct (Double.ofZ _); cbn in *; auto.
Qed.

Lemma double_notNegative_iff (x : spec_float) :
  Double.notNegative x <-> Double.ltb x (Double.ofZ 0) = false.
Proof.
  destruct x as [s | [|] | | [|] m e]; cbn; split; intros;
    try reflexivity; try discriminate; auto.
Qed.

Lemma double_leb_zero (x : spec_float) :
  Double.leb (Double.ofZ 0) x = true -> Double.notNegative x.
Proof.
  destruct x as [s | [|] | | [|] m e]; cbn; intros;
    try reflexivity; try discriminate; auto.
Qed.

Lemma double_ltb_zero (x : spec_float) :
  Double.ltb (Double.ofZ 0) x = true -> Double.signClear x.
Proof.
  destruct x as [s | [|] | | [|] m e]; cbn; intros;
    try reflexivity; try discriminate; auto.
Qed.

(** Comparing the other way round gives the opposite answer. *)
Lemma double_compare_antisym (x y : spec_float) :
  SFcompare y x = option_map CompOpp (SFcompare x y).
Proof.
  destruct x as [sx | sx | | sx mx ex]; destruct y as [sy | sy | | sy my ey];
    cbn; try reflexivity;
    try (destruct sx; reflexivity); try (destruct sy; reflexivity);
    try (destruct sx, sy; reflexivity).
  assert (Hm : PosDef.Pos.compare_cont Eq my mx
               = CompOpp (PosDef.Pos.compare_cont Eq mx my)).
  { change (Pos.compare_cont Eq my mx = CompOpp (Pos.compare_cont Eq mx my)).
    rewrite Pos.compare_cont_antisym. reflexivity. }
  rewrite (Z.compare_antisym ex ey), Hm.
  destruct sx, sy; cbn; try reflexivity;
    destruct (ex ?= ey)%Z; cbn; rewrite ?CompOpp_involutive; reflexivity.
Qed.

(** [Math.min(x, y)] is never above [y]. *)
Lemma double_min_le_r (x y : spec_float) :
  Double.ltb y (Double.min x y) = false.
Proof.
  unfold Double.ltb, SFltb, Double.min.
  destruct (SFcompare x y) as [[| |] |] eqn:Hc.
  - assert (Hyx : SFcompare y x = Some Eq)
      by (rewrite double_compare_antisym, Hc; reflexivity).
    destruct x as [sx | sx | | sx mx ex]; destruct y as [sy | sy | | sy my ey];
      try (rewrite Hyx; reflexivity); reflexivity.
  - rewrite double_compare_antisym, Hc. reflexivity.
  - assert (Hyy : SFcompare y y = option_map CompOpp (SFcompare y y))
      by apply double_compare_antisym.
    destruct (SFcompare y y) as [[| |] |]; try reflexivity; discriminate Hyy.
  - destruct y; reflexivity.
Qed.

Lemma double_min_notNegative (x y : spec_float) :
  Double.notNegative x -> Double.notNegative y ->
  Double.notNegative (Double.min x y).
Proof.
  intros Hx Hy. unfold Double.min.
  destruct (SFcompare x y) as [[| |] |]; try assumption; [| exact I].
  destruct x as [sx | sx | | sx mx ex]; try assumption.
  destruct y; exact I.
Qed.

(** On doubles the index of a section without title card is never
    negative. *)
Lemma double_index_notNegative (length : Z) (d t : spec_float) :
  Double.leb (Double.ofZ 0) t = true -> Double.ltb (Double.ofZ 0) d = true ->
  (0 <= length)%Z ->
  Double.notNegative (Double.imgIndex (Double.imageTiming false length d t)).
Proof.
  intros Ht Hd Hlen. cbn [Double.imageTiming Double.imgIndex].
  apply double_floor_notNegative, double_div_notNegative.
  - apply double_leb_zero. exact Ht.
  - apply double_div_signClear.
    + apply double_ltb_zero. exact Hd.
    + apply double_ofZ_signClear. exact Hlen.
Qed.

(** C1, as stated, at the doubles [D = 0.1] and [t = 0.09999999999999999]
    (the double just below [D]) with three images: [t] lies in [[0, D)],
    yet the tick computes index 3 and start time [D]; so it is false that
    the index is below the number of images and that the computed interval
    starts at or before [t]. *)
Lemma no_title_index_reaches_count :
  let D := Double.div (Double.ofZ 1) (Double.ofZ 10) in
  let t := S754_finite false 7205759403792793 (-56) in
  let tm := Double.imageTiming false 3 D t in
  D = S754_finite false 7205759403792794 (-56) /\
  Double.leb (Double.ofZ 0) t = true /\ Double.ltb t D = true /\
  Double.imgIndex tm = Double.ofZ 3 /\
  Double.currentImageStartTime tm = D /\
  ~ (Double.ltb (Double.imgIndex tm) (Double.ofZ 3) = true /\
     Double.leb (Double.currentImageStartTime tm) t = true).
Proof.
  intros D t tm.
  split; [vm_compute; reflexivity |].
  split; [vm_compute; reflexivity |].
  split; [vm_compute; reflexivity |].
  split; [vm_compute; reflexivity |].
  split; [vm_compute; reflexivity |].
  intros [Hlt _]. vm_compute in Hlt. discriminate Hlt.
Qed.

(** C1, amended. Without a title card, [N > 0] images and a duration
    [D > 0].
    - In exact arithmetic the timing formulas partition [D] evenly: the
      plan has [N] intervals, interval [i] being image [i] from
      [i * (D / N)] for [D / N]; the durations sum to [D]; starts are
      strictly increasing and contiguous; at every elapsed time [t] in
      [[0, D)] the index [floor (t / (D / N))] is below [N], its interval
      is the one of the plan and contains [t]; and every interval of the
      plan is the one computed at its own start time.
    - The tick evaluates the same formulas on doubles: for all doubles [d]
      and [t] it computes the index [floor (t / (d / N))], the start
      [index * (d / N)] and the duration [d / N], every operation rounded.
      For [t >= 0] and [d > 0] the index is never negative, and the index
      at which the image is read, [min(index, N - 1)], is neither negative
      nor above [N - 1].
    - Rounding lets the index reach [N] just below the end of the
      section: for three images, [d = 0.1] and [t] the double below it,
      the index is 3, and the image is read at 2, the last one. *)
Theorem no_title_even_partition (N : nat) (D : Q) :
  (0 < N)%nat -> 0 < D ->
  let perImage := D / inject_Z (Z.of_nat N) in
  let interval (i : nat) :=
    mkTiming (Z.of_nat i) (inject_Z (Z.of_nat i) * perImage) perImage in
  let plan := planIntervals false N D in
  (List.length plan = N /\
   (forall i, (i < N)%nat -> nth_error plan i = Some (interval i)) /\
   totalDuration plan == D /\
   (forall i j, (i < j)%nat ->
      currentImageStartTime (interval i) < currentImageStartTime (interval j)) /\
   (forall i,
      currentImageStartTime (interval (S i))
      == currentImageStartTime (interval i)
         + currentImageDuration (interval i)) /\
   (forall t, 0 <= t -> t < D ->
      let tm := imageTiming false (Z.of_nat N) D t in
      imgIndex tm = Qfloor (t / perImage) /\
      (0 <= imgIndex tm < Z.of_nat N)%Z /\
      nth_error plan (Z.to_nat (imgIndex tm)) = Some tm /\
      within tm t) /\
   (forall i, (i < N)%nat ->
      imageTiming false (Z.of_nat N) D (currentImageStartTime (interval i))
      = interval i)) /\
  (forall d t : spec_float,
     let timePerImage := Double.div d (Double.ofZ (Z.of_nat N)) in
     let index := Double.floor (Double.div t timePerImage) in
     Double.imageTiming false (Z.of_nat N) d t
     = Double.mkTiming index (Double.mul index timePerImage) timePerImage) /\
  (forall d t : spec_float,
     Double.leb (Double.ofZ 0) t = true ->
     Double.ltb (Double.ofZ 0) d = true ->
     let tm := Double.imageTiming false (Z.of_nat N) d t in
     let readAt := Double.currentImgIndex (Double.imgIndex tm) (Z.of_nat N) in
     Double.ltb (Double.imgIndex tm) (Double.ofZ 0) = false /\
     Double.ltb readAt (Double.ofZ 0) = false /\
     Double.ltb (Double.ofZ (Z.of_nat N - 1)) readAt = false) /\
  (let d := Double.div (Double.ofZ 1) (Double.ofZ 10) in
   let t := S754_finite false 7205759403792793 (-56) in
   let tm := Double.imageTiming false 3 d t in
   Double.leb (Double.ofZ 0) t = true /\ Double.ltb t d = true /\
   Double.imgIndex tm = Double.ofZ 3 /\
   Double.toIndex (Double.currentImgIndex (Double.imgIndex tm) 3)
   = Some 2%Z).
Proof.
  intros HN HD perImage interval plan.
  split; [exact (no_title_partition_exact N D HN HD) |].
  split; [reflexivity |].
  split.
  - intros d t Ht Hd tm readAt.
    assert (Hidx : Double.notNegative (Double.imgIndex tm))
      by (apply double_index_notNegative; [exact Ht | exact Hd | lia]).
    split; [apply double_notNegative_iff; exact Hidx |].
    split.
    + apply double_notNegative_iff. unfold readAt, Double.currentImgIndex.
      apply double_min_notNegative; [exact Hidx |].
      assert (Hs : Double.signClear (Double.ofZ (Z.of_nat N - 1)))
        by (apply double_ofZ_signClear; lia).
      destruct (Double.ofZ (Z.of_nat N - 1)); cbn in *; auto.
    + apply double_min_le_r.
  - repeat split; vm_compute; reflexivity.
Qed.

Lemma no_title_even_partition_witness :
  let plan := planIntervals false 2 4 in
  (List.length plan = 2%nat /\ totalDuration plan == 4 /\
   imgIndex (imageTiming false 2 4 3) = 1%Z) /\
  Double.imgIndex (Double.imageTiming false 2 (Double.ofZ 4) (Double.ofZ 3))
  = Double.ofZ 1.
Proof.
  pose proof (no_title_even_partition 2 4 ltac:(lia) ltac:(reflexivity)) as H.
  cbv zeta in H.
  destruct H as ((Hlen & _ & Hsum & _ & _ & Hat & _) & Hformula & _).
  split.
  - split; [exact Hlen |]. split; [exact Hsum |].
    destruct (Hat 3 ltac:(discriminate) ltac:(reflexivity)) as (Hidx & _).
    change (imageTiming false 2 4 3) with (imageTiming false (Z.of_nat 2) 4 3).
    rewrite Hidx. reflexivity.
  - change 2%Z with (Z.of_nat 2).
    rewrite (Hformula (Double.ofZ 4) (Double.ofZ 3)). vm_compute. reflexivity.
Defined.

(** ** Sections with a title card *)

(** The title duration [min(4, D * 0.5)] of a positive duration is positive
    and leaves at least half of the section. *)
Lemma titleDuration_bounds (D : Q) :
  0 < D -> 0 < Qmin 4 (D * 0.5) /\ Qmin 4 (D * 0.5) <= D * 0.5 /\
           Qmin 4 (D * 0.5) < D.
Proof.
  intros HD.
  assert (Hhalf : D * 0.5 < D) by lra.
  assert (Hpos : 0 < D * 0.5) by lra.
  pose proof (Q.le_min_r 4 (D * 0.5)) as Hr.
  split; [| split].
  - apply Q.min_glb_lt; [reflexivity | exact Hpos].
  - exact Hr.
  - lra.
Qed.

Lemma imageTiming_title_phase (length : Z) (D t : Q) :
  t < Qmin 4 (D * 0.5) ->
  imageTiming true length D t = mkTiming 0 0 (Qmin 4 (D * 0.5)).
Proof.
  intros Ht. unfold imageTiming.
  apply ltb_lt in Ht. rewrite Ht. reflexivity.
Qed.

Lemma imageTiming_content_phase (length : Z) (D t : Q) :
  Qmin 4 (D * 0.5) <= t -> 0 < D - Qmin 4 (D * 0.5) -> (1 < length)%Z ->
  imageTiming true length D t =
  let titleDuration := Qmin 4 (D * 0.5) in
  let timePerImage := (D - titleDuration) / inject_Z (length - 1) in
  let k := Qfloor ((t - titleDuration) / timePerImage) in
  mkTiming (1 + k) (titleDuration + inject_Z k * timePerImage) timePerImage.
Proof.
  intros Ht Hrem Hlen. unfold imageTiming.
  apply ltb_ge in Ht. rewrite Ht.
  apply ltb_lt in Hrem. rewrite Hrem.
  apply Z.ltb_lt in Hlen. rewrite Hlen. reflexivity.
Qed.

Lemma imageTiming_title_only (length : Z) (D t : Q) :
  Qmin 4 (D * 0.5) <= t -> D - Qmin 4 (D * 0.5) <= 0 \/ (length <= 1)%Z ->
  imageTiming true length D t = mkTiming 0 0 D.
Proof.
  intros Ht Hcase. unfold imageTiming.
  apply ltb_ge in Ht. rewrite Ht.
  destruct Hcase as [Hrem | Hlen].
  - apply ltb_ge in Hrem. rewrite Hrem. reflexivity.
  - apply Z.ltb_ge in Hlen. rewrite Hlen, andb_false_r. reflexivity.
Qed.

(** ** Ken Burns zoom *)

Lemma imgProgress_clamped (tm : Timing) (t : Q) :
  0 <= imgProgress tm t /\ imgProgress tm t <= 1.
Proof.
  unfold imgProgress. split.
  - apply Q.min_glb; [discriminate | apply Q.le_max_l].
  - apply Q.le_min_l.
Qed.

Lemma zoomFactors_ge_1 (speed : AnimationSpeed) : 1 <= zoomFactors speed.
Proof. destruct speed; discriminate. Qed.

(** C3. The zoom scale is [1.0 + (maxZoom - 1.0) * progress], and it is
    the scale at which [drawImage] draws: a loaded image is drawn centred
    with width and height multiplied by the cover-fit scale times the zoom
    scale.  The progress of the current image of a frame is
    [min(1, max(0, (elapsed - start) / duration))], so the frame draws its
    current image at zoom scale [1.0 + (maxZoom - 1.0) *] that progress,
    and every progress handed to [drawImage] lies in [[0, 1]].  [maxZoom]
    is the zoom factor of the configured animation speed ([Medium] without
    a configuration), namely 1.05, 1.15, 1.25 for [Slow], [Medium],
    [Fast], strictly increasing; and for progress in [[0, 1]] the scale is
    non-decreasing in progress, starts at 1.0, ends at [maxZoom] and stays
    in [[1.0, maxZoom]]. *)
Theorem ken_burns_zoom :
  (forall maxZoom progress,
     currentScale maxZoom progress = 1.0 + (maxZoom - 1.0) * progress) /\
  (forall W H mz img progress alpha,
     img_width img <> 0%Z ->
     let zoom := 1.0 + (mz - 1.0) * progress in
     let cover := Qmax (inject_Z W / inject_Z (img_width img))
                       (inject_Z H / inject_Z (img_height img)) in
     let w := inject_Z (img_width img) * (cover * zoom) in
     let h := inject_Z (img_height img) * (cover * zoom) in
     drawImage W H mz (Some img) progress alpha =
     [SetGlobalAlpha alpha;
      DrawImage img ((inject_Z W - w) / 2) ((inject_Z H - h) / 2) w h;
      SetGlobalAlpha 1.0]) /\
  (forall tr imgs tm t,
     exists rest,
       drawCalls tr imgs tm t =
       mkDrawCall (JS.index imgs (currentImgIndex (imgIndex tm) (JS.len imgs)))
                  (Qmin 1 (Qmax 0 ((t - currentImageStartTime tm)
                                     / currentImageDuration tm)))
                  1.0 :: rest) /\
  (forall fs hasTitleCard imgs D t img,
     let tm := imageTiming hasTitleCard (JS.len imgs) D t in
     JS.index imgs (currentImgIndex (imgIndex tm) (JS.len imgs)) = Some img ->
     img_width img <> 0%Z ->
     let progress := Qmin 1 (Qmax 0 ((t - currentImageStartTime tm)
                                       / currentImageDuration tm)) in
     let zoom := 1.0 + (maxZoom fs - 1.0) * progress in
     let cover := Qmax (inject_Z (canvasWidth fs) / inject_Z (img_width img))
                       (inject_Z (canvasHeight fs) / inject_Z (img_height img)) in
     let w := inject_Z (img_width img) * (cover * zoom) in
     let h := inject_Z (img_height img) * (cover * zoom) in
     exists rest,
       drawFrame fs hasTitleCard imgs D t =
       clearCanvas fs
       ++ [SetGlobalAlpha 1.0;
           DrawImage img ((inject_Z (canvasWidth fs) - w) / 2)
                     ((inject_Z (canvasHeight fs) - h) / 2) w h;
           SetGlobalAlpha 1.0]
       ++ rest) /\
  (forall tm t, 0 <= imgProgress tm t /\ imgProgress tm t <= 1) /\
  (forall tr imgs tm t c,
     In c (drawCalls tr imgs tm t) ->
     0 <= call_progress c /\ call_progress c <= 1) /\
  (forall c, maxZoom (frameSetup (Some c)) = zoomFactors (animationSpeed c)) /\
  maxZoom (frameSetup None) = zoomFactors Medium /\
  (zoomFactors Slow == 1.05 /\ zoomFactors Medium == 1.15 /\
   zoomFactors Fast == 1.25) /\
  (zoomFactors Slow < zoomFactors Medium /\
   zoomFactors Medium < zoomFactors Fast) /\
  (forall speed,
     currentScale (zoomFactors speed) 0 == 1.0 /\
     currentScale (zoomFactors speed) 1 == zoomFactors speed) /\
  (forall speed p q, 0 <= p -> p <= q -> q <= 1 ->
     1.0 <= currentScale (zoomFactors speed) p /\
     currentScale (zoomFactors speed) p <= currentScale (zoomFactors speed) q /\
     currentScale (zoomFactors speed) q <= zoomFactors speed).
Proof.
  assert (Hdraw : forall W H mz img progress alpha,
            img_width img <> 0%Z ->
            drawImage W H mz (Some img) progress alpha =
            [SetGlobalAlpha alpha;
             DrawImage img
               ((inject_Z W
                 - inject_Z (img_width img)
                   * (Qmax (inject_Z W / inject_Z (img_width img))
                           (inject_Z H / inject_Z (img_height img))
                      * (1.0 + (mz - 1.0) * progress))) / 2)
               ((inject_Z H
                 - inject_Z (img_height img)
                   * (Qmax (inject_Z W / inject_Z (img_width img))
                           (inject_Z H / inject_Z (img_height img))
                      * (1.0 + (mz - 1.0) * progress))) / 2)
               (inject_Z (img_width img)
                * (Qmax (inject_Z W / inject_Z (img_width img))
                        (inject_Z H / inject_Z (img_height img))
                   * (1.0 + (mz - 1.0) * progress)))
               (inject_Z (img_height img)
                * (Qmax (inject_Z W / inject_Z (img_width img))
                        (inject_Z H / inject_Z (img_height img))
                   * (1.0 + (mz - 1.0) * progress)));
             SetGlobalAlpha 1.0]).
  { intros W H mz img progress alpha Hw. unfold drawImage.
    destruct (img_width img =? 0)%Z eqn:Hz;
      [apply Z.eqb_eq in Hz; contradiction | reflexivity]. }
  assert (Hhead : forall tr imgs tm t,
            exists rest,
              drawCalls tr imgs tm t =
              mkDrawCall
                (JS.index imgs (currentImgIndex (imgIndex tm) (JS.len imgs)))
                (Qmin 1 (Qmax 0 ((t - currentImageStartTime tm)
                                   / currentImageDuration tm)))
                1.0 :: rest).
  { intros tr imgs tm t. unfold drawCalls.
    destruct tr; [eexists; reflexivity |].
    destruct (imgIndex tm <? JS.len imgs - 1)%Z; [| eexists; reflexivity].
    destruct (JS.ltb (timeRemaining tm t) (fadeDuration Fade));
      eexists; reflexivity. }
  split; [reflexivity |].
  split; [exact Hdraw |].
  split; [exact Hhead |].
  split.
  { intros fs hasTitleCard imgs D t img tm Himg Hw progress zoom cover w h.
    unfold drawFrame. fold tm.
    destruct (Hhead (transitionType fs) imgs tm t) as (rest & Hcalls).
    rewrite Hcalls. cbn [flat_map call_img call_progress call_alpha].
    rewrite Himg, (Hdraw _ _ _ _ _ _ Hw).
    eexists. reflexivity. }
  split; [exact imgProgress_clamped |].
  split.
  { intros tr imgs tm t c Hin.
    assert (Hcur : forall img, 0 <= call_progress (mkDrawCall img (imgProgress tm t) 1.0)
                               /\ call_progress (mkDrawCall img (imgProgress tm t) 1.0) <= 1)
      by (intros img; apply imgProgress_clamped).
    unfold drawCalls in Hin.
    destruct tr;
      [| destruct (imgIndex tm <? JS.len imgs - 1)%Z;
         [destruct (JS.ltb (timeRemaining tm t) (fadeDuration Fade)) | ]];
      cbn [In] in Hin;
      repeat (destruct Hin as [Hin | Hin]; [subst c; try apply Hcur |]);
      try contradiction.
    cbn [call_progress]. split; discriminate. }
  split; [reflexivity |].
  split; [reflexivity |].
  split; [repeat split; reflexivity |].
  split; [split; reflexivity |].
  split.
  { intros speed. unfold currentScale. split; ring. }
  intros speed p q Hp Hpq Hq.
  pose proof (zoomFactors_ge_1 speed) as Hz.
  unfold currentScale.
  assert (H1 : 0 <= (zoomFactors speed - 1.0) * p)
    by (apply Qmult_le_0_compat; lra).
  assert (H2 : (zoomFactors speed - 1.0) * p <= (zoomFactors speed - 1.0) * q)
    by (rewrite !(Qmult_comm (zoomFactors speed - 1.0));
        apply Qmult_le_compat_r; lra).
  assert (H3 : (zoomFactors speed - 1.0) * q <= (zoomFactors speed - 1.0) * 1)
    by (rewrite !(Qmult_comm (zoomFactors speed - 1.0));
        apply Qmult_le_compat_r; lra).
  repeat split; lra.
Qed.

Lemma ken_burns_zoom_witness :
  (1.0 <= currentScale (zoomFactors Fast) 0.25 /\
   currentScale (zoomFactors Fast) 0.25 <= currentScale (zoomFactors Fast) 0.5 /\
   currentScale (zoomFactors Fast) 0.5 <= zoomFactors Fast) /\
  exists x y w h,
    drawImage 1280 720 (zoomFactors Fast) (Some (mkImage "a.png" 1920 1080))
              0.5 1
    = [SetGlobalAlpha 1; DrawImage (mkImage "a.png" 1920 1080) x y w h;
       SetGlobalAlpha 1.0] /\
    w == 1440 /\ h == 810 /\ x == -80 /\ y == -45.
Proof.
  destruct ken_burns_zoom as (_ & Hdraw & _ & _ & _ & _ & _ & _ & _ & _ & _ & H).
  split; [apply (H Fast 0.25 0.5); discriminate |].
  do 4 eexists. split.
  - apply (Hdraw 1280%Z 720%Z (zoomFactors Fast) (mkImage "a.png" 1920 1080)
                 0.5 1).
    discriminate.
  - repeat split; vm_compute; reflexivity.
Defined.

(** ** Cross-fade *)

(** The call that draws the current image. *)
Lemma drawCalls_head (tr : Transition) (imgs : list HTMLImageElement)
    (tm : Timing) (t : Q) :
  exists rest,
    drawCalls tr imgs tm t =
    mkDrawCall (JS.index imgs (currentImgIndex (imgIndex tm) (JS.len imgs)))
               (imgProgress tm t) 1.0 :: rest.
Proof.
  unfold drawCalls. destruct tr; [eexists; reflexivity |].
  destruct (imgIndex tm <? JS.len imgs - 1)%Z; [| eexists; reflexivity].
  destruct (JS.ltb (timeRemaining tm t) (fadeDuration Fade));
    eexists; reflexivity.
Qed.

Lemma drawCalls_fade_window (imgs : list HTMLImageElement) (tm : Timing)
    (t : Q) :
  (imgIndex tm < JS.len imgs - 1)%Z -> timeRemaining tm t < 0.5 ->
  drawCalls Fade imgs tm t =
  [mkDrawCall (JS.index imgs (currentImgIndex (imgIndex tm) (JS.len imgs)))
              (imgProgress tm t) 1.0;
   mkDrawCall (JS.index imgs (imgIndex tm + 1)) 0
              (1 - timeRemaining tm t / 0.5)].
Proof.
  intros Hidx Hrem. unfold drawCalls.
  apply Z.ltb_lt in Hidx. rewrite Hidx.
  apply ltb_lt in Hrem. cbn [fadeDuration]. rewrite Hrem. reflexivity.
Qed.

Lemma drawCalls_current_only (tr : Transition) (imgs : list HTMLImageElement)
    (tm : Timing) (t : Q) :
  tr = NoTransition \/ (JS.len imgs - 1 <= imgIndex tm)%Z \/
  0.5 <= timeRemaining tm t ->
  drawCalls tr imgs tm t =
  [mkDrawCall (JS.index imgs (currentImgIndex (imgIndex tm) (JS.len imgs)))
              (imgProgress tm t) 1.0].
Proof.
  intros Hcase. unfold drawCalls.
  destruct tr; [reflexivity |].
  destruct (imgIndex tm <? JS.len imgs - 1)%Z eqn:Hidx; [| reflexivity].
  destruct Hcase as [Htr | [Hlast | Hrem]].
  - discriminate Htr.
  - apply Z.ltb_lt in Hidx. lia.
  - apply ltb_ge in Hrem. cbn [fadeDuration]. rewrite Hrem. reflexivity.
Qed.

(** C4. Writing [current] for the call that draws the current image with
    its clamped progress at opacity 1.0:
    - under [Fade], when the image is not the last one and less than 0.5
      remains of its interval, the frame draws [current] and then the next
      image with zoom progress 0 at opacity [1 - timeRemaining / 0.5];
    - under [Fade] with at least 0.5 remaining, under [Fade] on the last
      image, and without transition, the frame draws [current] only;
    - zoom progress 0 is scale 1.0 whatever the maximum zoom;
    - when 0.25 remains, i.e. at [elapsed - start = duration - 0.25], the
      opacity of the incoming image is 0.5; so it is at [t = 1.75] in a
      section of two images lasting 4;
    - a frame is the cleared canvas followed by these calls in order, each
      call on a loaded image setting the opacity, drawing the image and
      resetting the opacity to 1.0; the transition is the configured one,
      none without a configuration. *)
Theorem fade_transition (imgs : list HTMLImageElement) (tm : Timing) (t : Q) :
  let current :=
    mkDrawCall (JS.index imgs (currentImgIndex (imgIndex tm) (JS.len imgs)))
               (imgProgress tm t) 1.0 in
  ((imgIndex tm < JS.len imgs - 1)%Z -> timeRemaining tm t < 0.5 ->
     drawCalls Fade imgs tm t =
     [current;
      mkDrawCall (JS.index imgs (imgIndex tm + 1)) 0
                 (1 - timeRemaining tm t / 0.5)]) /\
  ((imgIndex tm < JS.len imgs - 1)%Z -> 0.5 <= timeRemaining tm t ->
     drawCalls Fade imgs tm t = [current]) /\
  ((JS.len imgs - 1 <= imgIndex tm)%Z ->
     drawCalls Fade imgs tm t = [current]) /\
  drawCalls NoTransition imgs tm t = [current] /\
  (forall maxZoom, currentScale maxZoom 0 == 1.0) /\
  (t - currentImageStartTime tm == currentImageDuration tm - 0.25 ->
     timeRemaining tm t == 0.25 /\
     1 - timeRemaining tm t / 0.5 == 0.5) /\
  (forall a b,
     drawCalls Fade [a; b] (imageTiming false 2 4 1.75) 1.75 =
     [mkDrawCall (Some a) (imgProgress (imageTiming false 2 4 1.75) 1.75) 1.0;
      mkDrawCall (Some b) 0 (fadeProgress Fade (imageTiming false 2 4 1.75) 1.75)]
     /\ fadeProgress Fade (imageTiming false 2 4 1.75) 1.75 == 0.5) /\
  (forall fs hasTitleCard D,
     drawFrame fs hasTitleCard imgs D t =
     clearCanvas fs ++
     flat_map (fun c => drawImage (canvasWidth fs) (canvasHeight fs)
                                  (maxZoom fs) (call_img c) (call_progress c)
                                  (call_alpha c))
              (drawCalls (transitionType fs) imgs
                         (imageTiming hasTitleCard (JS.len imgs) D t) t)) /\
  (forall W H mz img progress alpha,
     img_width img <> 0%Z ->
     exists x y w h,
       drawImage W H mz (Some img) progress alpha =
       [SetGlobalAlpha alpha; DrawImage img x y w h; SetGlobalAlpha 1.0]) /\
  (transitionType (frameSetup None) = NoTransition /\
   forall c, transitionType (frameSetup (Some c)) = transition c).
Proof.
  intros current.
  split; [| split; [| split; [| split; [| split; [| split; [| split;
    [| split; [| split]]]]]]]].
  - intros Hidx Hrem. apply drawCalls_fade_window; assumption.
  - intros _ Hrem. apply drawCalls_current_only. right. right. exact Hrem.
  - intros Hidx. apply drawCalls_current_only. right. left. exact Hidx.
  - reflexivity.
  - intros maxZoom. unfold currentScale. ring.
  - intros Hel. unfold timeRemaining.
    assert (Hrem : currentImageDuration tm - (t - currentImageStartTime tm)
                   == 0.25) by (rewrite Hel; ring).
    split; [exact Hrem |]. rewrite Hrem. reflexivity.
  - intros a b. split; [vm_compute; reflexivity | reflexivity].
  - reflexivity.
  - intros W H mz img progress alpha Hw. unfold drawImage.
    apply Z.eqb_neq in Hw. rewrite Hw.
    do 4 eexists. reflexivity.
  - split; reflexivity.
Qed.

Lemma fade_transition_witness :
  let imgs := [mkImage "a" 16 9; mkImage "b" 16 9] in
  let tm := mkTiming 0 0 2 in
  drawCalls Fade imgs tm 1.75 =
  [mkDrawCall (Some (mkImage "a" 16 9)) (imgProgress tm 1.75) 1.0;
   mkDrawCall (Some (mkImage "b" 16 9)) 0 (1 - timeRemaining tm 1.75 / 0.5)]
  /\ 1 - timeRemaining tm 1.75 / 0.5 == 0.5.
Proof.
  intros imgs tm.
  destruct (fade_transition imgs tm 1.75) as (Hfade & _ & _ & _ & _ & Hhalf & _).
  split.
  - apply Hfade; reflexivity.
  - apply Hhalf. reflexivity.
Defined.

(** ** Image lookups *)

Lemma index_in_bounds {A : Type} (arr : list A) (k : Z) :
  (0 <= k < JS.len arr)%Z ->
  exists x, JS.index arr k = Some x /\ In x arr.
Proof.
  intros [Hk0 Hk]. unfold JS.index, JS.len in *.
  apply Z.ltb_ge in Hk0. rewrite Hk0.
  destruct (nth_error arr (Z.to_nat k)) as [x |] eqn:Hnth.
  - exists x. split; [reflexivity |]. eapply nth_error_In. exact Hnth.
  - apply nth_error_None in Hnth. apply Z.ltb_ge in Hk0. lia.
Qed.

Lemma index_out_of_bounds {A : Type} (arr : list A) (k : Z) :
  (k < 0 \/ JS.len arr <= k)%Z -> JS.index arr k = None.
Proof.
  intros Hk. unfold JS.index, JS.len in *.
  destruct (k <? 0)%Z eqn:Hneg; [reflexivity |].
  apply Z.ltb_ge in Hneg. apply nth_error_None. lia.
Qed.

(** The index computed by a tick is never negative. *)
Lemma imageTiming_index_nonneg (hasTitleCard : bool) (length : Z) (D t : Q) :
  (1 <= length)%Z -> 0 <= t -> t < D ->
  (0 <= imgIndex (imageTiming hasTitleCard length D t))%Z.
Proof.
  intros Hlen Ht0 HtD.
  assert (HD : 0 < D) by lra.
  destruct hasTitleCard.
  - destruct (titleDuration_bounds D HD) as (Htd0 & _ & HtdD).
    destruct (Qlt_le_dec t (Qmin 4 (D * 0.5))) as [Hlt | Hge].
    + rewrite imageTiming_title_phase by exact Hlt. cbn. lia.
    + destruct (Z.lt_ge_cases 1 length) as [Hmany | Hone].
      * rewrite imageTiming_content_phase by (try assumption; lra).
        cbv zeta. cbn [imgIndex].
        assert (Hper : 0 < (D - Qmin 4 (D * 0.5)) / inject_Z (length - 1)).
        { apply Qlt_shift_div_l; [apply inject_Z_pos; lia | lra]. }
        assert (Hx : 0 <= t - Qmin 4 (D * 0.5)) by lra.
        destruct (floor_slot _ _ Hper Hx) as (Hk0 & _). lia.
      * rewrite imageTiming_title_only by (try assumption; right; lia).
        cbn. lia.
  - rewrite imageTiming_no_title. cbv zeta. cbn [imgIndex].
    assert (Hper : 0 < D / inject_Z length).
    { apply Qlt_shift_div_l; [apply inject_Z_pos; lia | lra]. }
    destruct (floor_slot _ _ Hper Ht0) as (Hk0 & _). exact Hk0.
Qed.

(** C9. Whatever non-negative image index a tick has computed, also one
    at or beyond the number of loaded images, the current image is read at
    [min(imgIndex, length - 1)], which lies inside the non-empty list of
    loaded images, and so does every other image the frame reads (the next
    image of a cross-fade is read only when [imgIndex < length - 1]): each
    call of a frame gets an image of the list.  The index computed by
    [imageTiming] at a tick [0 <= t < duration] is non-negative, so this
    holds on every frame tick of every rendered section. *)
Theorem current_image_in_bounds (tr : Transition)
    (imgs : list HTMLImageElement) (tm : Timing) (t : Q) :
  imgs <> [] -> (0 <= imgIndex tm)%Z ->
  let k := currentImgIndex (imgIndex tm) (JS.len imgs) in
  k = Z.min (imgIndex tm) (JS.len imgs - 1) /\
  (0 <= k < JS.len imgs)%Z /\
  (exists rest,
     drawCalls tr imgs tm t =
     mkDrawCall (JS.index imgs k) (imgProgress tm t) 1.0 :: rest) /\
  Forall (fun c => exists img, call_img c = Some img /\ In img imgs)
         (drawCalls tr imgs tm t) /\
  (forall hasTitleCard D,
     0 <= t -> t < D ->
     let tm' := imageTiming hasTitleCard (JS.len imgs) D t in
     (0 <= imgIndex tm')%Z /\
     Forall (fun c => exists img, call_img c = Some img /\ In img imgs)
            (drawCalls tr imgs tm' t)).
Proof.
  intros Hne Hidx k.
  assert (Hlen : (1 <= JS.len imgs)%Z).
  { unfold JS.len. destruct imgs; [congruence | cbn [List.length]; lia]. }
  assert (Hcalls : forall tm0, (0 <= imgIndex tm0)%Z ->
            Forall (fun c => exists img, call_img c = Some img /\ In img imgs)
                   (drawCalls tr imgs tm0 t)).
  { intros tm0 H0.
    assert (Hcur : exists img,
               JS.index imgs (currentImgIndex (imgIndex tm0) (JS.len imgs))
               = Some img /\ In img imgs)
      by (apply index_in_bounds; unfold currentImgIndex; lia).
    unfold drawCalls. destruct tr.
    - repeat constructor. exact Hcur.
    - destruct (imgIndex tm0 <? JS.len imgs - 1)%Z eqn:Hlast.
      + apply Z.ltb_lt in Hlast.
        destruct (JS.ltb (timeRemaining tm0 t) (fadeDuration Fade)).
        * repeat constructor; [exact Hcur |].
          cbn [call_img]. apply index_in_bounds. lia.
        * repeat constructor. exact Hcur.
      + repeat constructor. exact Hcur. }
  split; [reflexivity |].
  split; [unfold k, currentImgIndex; lia |].
  split; [apply drawCalls_head |].
  split; [apply Hcalls; exact Hidx |].
  intros hasTitleCard D Ht0 HtD tm'.
  assert (H0 : (0 <= imgIndex tm')%Z)
    by (apply imageTiming_index_nonneg; assumption).
  split; [exact H0 | apply Hcalls; exact H0].
Qed.

Lemma current_image_in_bounds_witness :
  let imgs := [mkImage "a" 16 9; mkImage "b" 16 9] in
  (0 <= currentImgIndex 2 (JS.len imgs) < JS.len imgs)%Z /\
  Forall (fun c => exists img, call_img c = Some img /\ In img imgs)
         (drawCalls Fade imgs (mkTiming 2 4 2) 4).
Proof.
  intros imgs.
  destruct (current_image_in_bounds Fade imgs (mkTiming 2 4 2) 4
              ltac:(discriminate) ltac:(cbn; lia))
    as (_ & Hk & _ & Hall & _).
  split; [exact Hk | exact Hall].
Defined.

(** ** Images that failed to load *)

Lemma drawImage_not_loaded (W H : Z) (mz : Q) (img : option HTMLImageElement)
    (progress alpha : Q) :
  notLoaded img -> drawImage W H mz img progress alpha = [].
Proof.
  destruct img as [img |]; cbn [notLoaded drawImage]; [| reflexivity].
  intros Hw. rewrite Hw. reflexivity.
Qed.

(** C10, as stated, fails: with the [Fade] transition, a first image that
    failed to load and a second one that loaded, the frame at 1.75 of a
    4 long section (0.25 before the first interval ends) has the failed
    image as current image and is not the cleared black canvas: the
    incoming image is drawn. *)
Lemma failed_image_frame_not_black :
  let fs := mkFrameSetup 1280 720 1.15 Fade in
  let imgs := map (preload failingBrowser) ["bad.png"; "ok.png"]%string in
  let tm := imageTiming false (JS.len imgs) 4 1.75 in
  ~ (notLoaded (JS.index imgs (currentImgIndex (imgIndex tm) (JS.len imgs)))
     -> drawFrame fs false imgs 4 1.75 = clearCanvas fs).
Proof.
  intros fs imgs tm H.
  assert (Hfail : notLoaded (JS.index imgs
                    (currentImgIndex (imgIndex tm) (JS.len imgs))))
    by (vm_compute; reflexivity).
  specialize (H Hfail). vm_compute in H. discriminate H.
Qed.

(** C10, amended. Preloading always yields an image, the empty image of
    width 0 when loading failed; [drawImage] draws nothing for a missing
    image or one of width 0; so a frame whose current image did not load
    draws nothing for it and is the cleared black canvas, except in the
    cross-fade window ([Fade], not the last image, less than 0.5
    remaining), where it is the black canvas with only the incoming image
    drawn on it. *)
Theorem failed_image_draws_nothing (b : Browser) (fs : FrameSetup)
    (hasTitleCard : bool) (imgs : list HTMLImageElement) (D t : Q) :
  (forall src, loadImage b src = None ->
     preload b src = newImage /\ img_width (preload b src) = 0%Z) /\
  (forall src img, loadImage b src = Some img -> preload b src = img) /\
  (forall W H mz img progress alpha,
     notLoaded img -> drawImage W H mz img progress alpha = []) /\
  (let tm := imageTiming hasTitleCard (JS.len imgs) D t in
   notLoaded (JS.index imgs (currentImgIndex (imgIndex tm) (JS.len imgs))) ->
   (transitionType fs = NoTransition \/
    (JS.len imgs - 1 <= imgIndex tm)%Z \/
    0.5 <= timeRemaining tm t ->
    drawFrame fs hasTitleCard imgs D t = clearCanvas fs) /\
   (transitionType fs = Fade -> (imgIndex tm < JS.len imgs - 1)%Z ->
    timeRemaining tm t < 0.5 ->
    drawFrame fs hasTitleCard imgs D t =
    clearCanvas fs ++
    drawImage (canvasWidth fs) (canvasHeight fs) (maxZoom fs)
              (JS.index imgs (imgIndex tm + 1)) 0
              (1 - timeRemaining tm t / 0.5))).
Proof.
  split; [| split; [| split]].
  - intros src Hload. unfold preload. rewrite Hload. split; reflexivity.
  - intros src img Hload. unfold preload. rewrite Hload. reflexivity.
  - intros W H mz img progress alpha. apply drawImage_not_loaded.
  - intros tm Hcur.
    split.
    + intros Hcase. unfold drawFrame. fold tm.
      rewrite (drawCalls_current_only (transitionType fs) imgs tm t Hcase).
      cbn [flat_map call_img call_progress call_alpha].
      rewrite drawImage_not_loaded by exact Hcur.
      rewrite !app_nil_r. reflexivity.
    + intros Htr Hidx Hrem. unfold drawFrame. fold tm.
      rewrite Htr, (drawCalls_fade_window imgs tm t Hidx Hrem).
      cbn [flat_map call_img call_progress call_alpha].
      rewrite drawImage_not_loaded by exact Hcur.
      rewrite app_nil_r. reflexivity.
Qed.

Lemma failed_image_draws_nothing_witness :
  let fs := mkFrameSetup 1280 720 1.15 NoTransition in
  let imgs := map (preload failingBrowser) ["bad.png"; "ok.png"]%string in
  preload failingBrowser "bad.png" = newImage /\
  drawFrame fs false imgs 4 1.75 = clearCanvas fs.
Proof.
  intros fs imgs.
  destruct (failed_image_draws_nothing failingBrowser fs false imgs 4 1.75)
    as (Hpre & _ & _ & Hframe).
  split.
  - apply (Hpre "bad.png"%string). reflexivity.
  - cbv zeta in Hframe.
    destruct (Hframe ltac:(vm_compute; reflexivity)) as (Hblack & _).
    apply Hblack. left. reflexivity.
Defined.

(** ** Sections without images *)

Lemma filter_nonEmpty_nil (l : list string) :
  filter JS.nonEmpty l = [] <-> Forall (fun src => src = EmptyString) l.
Proof.
  induction l as [| a l IH]; cbn [filter].
  - split; [constructor | reflexivity].
  - destruct a as [| c a]; cbn [JS.nonEmpty].
    + rewrite IH. split.
      * intros H. constructor; [reflexivity | exact H].
      * intros H. inversion H. assumption.
    + split; [discriminate |]. intros H. inversion H. discriminate.
Qed.

Lemma validSrcs_nil (section : GeneratedSection) :
  validSrcs section = [] <->
  JS.truthy (titleCard section) = false /\
  Forall (fun src => src = EmptyString) (generatedImages section).
Proof.
  unfold validSrcs. rewrite filter_app.
  destruct (titleCard section) as [[| c card] |]; cbn [JS.truthy app filter].
  - rewrite filter_nonEmpty_nil. tauto.
  - cbn [JS.nonEmpty]. split; [discriminate | intros [H _]; discriminate].
  - rewrite filter_nonEmpty_nil. tauto.
Qed.

Lemma decodeVoice_events (b : Browser) (section : GeneratedSection) :
  Forall (fun e => isFrame e = false /\ isVoice e = false /\
                   isTimer e = false /\ isBackground e = false)
         (fst (decodeVoice b section)).
Proof.
  unfold decodeVoice.
  destruct (generatedAudio section) as [src |]; [| constructor].
  destruct (JS.nonEmpty src); [| constructor].
  destruct (decodeAudioData b src); repeat constructor.
Qed.

(** A section without images only reports progress and decodes. *)
Lemma empty_section_events (b : Browser) (fs : FrameSetup) (i : nat)
    (section : GeneratedSection) :
  validSrcs section = [] ->
  renderSection b fs i section =
    (OnProgress ("Rendering: " ++ sectionName section)
       :: fst (decodeVoice b section), Resolved) /\
  forall b', decodeAudioData b' = decodeAudioData b ->
    renderSection b' fs i section = renderSection b fs i section.
Proof.
  intros Hnil.
  assert (Heq : forall b', decodeAudioData b' = decodeAudioData b ->
            renderSection b' fs i section =
            (OnProgress ("Rendering: " ++ sectionName section)
               :: fst (decodeVoice b section), Resolved)).
  { intros b' Hdec. unfold renderSection.
    assert (Hv : decodeVoice b' section = decodeVoice b section)
      by (unfold decodeVoice; rewrite Hdec; reflexivity).
    rewrite Hv. destruct (decodeVoice b section) as [events voice].
    rewrite Hnil. reflexivity. }
  split; [apply Heq; reflexivity |].
  intros b' Hdec. rewrite (Heq b' Hdec), (Heq b eq_refl). reflexivity.
Qed.

(** C5. A section has no image to show exactly when its title card is
    absent or empty and all its generated images are empty.  Such a section
    only reports its progress and attempts to decode its narration; it
    resolves at once, without drawing a frame, starting or stopping a
    voice, or starting the frame timer (so no timer sample of the section
    is consumed), and rendering goes on with the next section. *)
Theorem empty_section_skipped (b : Browser) (fs : FrameSetup) (i : nat)
    (section : GeneratedSection) (rest : list GeneratedSection) :
  (validSrcs section = [] <->
   JS.truthy (titleCard section) = false /\
   Forall (fun src => src = EmptyString) (generatedImages section)) /\
  (validSrcs section = [] ->
   renderSection b fs i section =
     (OnProgress ("Rendering: " ++ sectionName section)
        :: fst (decodeVoice b section), Resolved) /\
   Forall (fun e => isFrame e = false /\ isVoice e = false /\
                    isTimer e = false)
          (fst (renderSection b fs i section)) /\
   (forall samples,
      renderSection (mkBrowser (getContext2d b) (measureText b) (toDataURL b)
                               (decodeAudioData b) (loadImage b) samples)
                    fs i section
      = renderSection b fs i section) /\
   renderSections b fs i (section :: rest) =
     (fst (renderSection b fs i section)
        ++ fst (renderSections b fs (S i) rest),
      snd (renderSections b fs (S i) rest))).
Proof.
  split; [apply validSrcs_nil |].
  intros Hnil.
  destruct (empty_section_events b fs i section Hnil) as [Hb Hsame].
  split; [exact Hb |]. split; [| split].
  - rewrite Hb. cbn [fst]. constructor.
    + repeat split; reflexivity.
    + eapply Forall_impl; [| apply decodeVoice_events].
      cbv beta. intros e (H1 & H2 & H3 & _). repeat split; assumption.
  - intros samples. apply Hsame. reflexivity.
  - cbn [renderSections]. rewrite Hb. cbn [fst].
    destruct (renderSections b fs (S i) rest) as [events' c]. reflexivity.
Qed.

Lemma empty_section_skipped_witness :
  let section := mkSection (Some "Part 1"%string) [EmptyString]
                           (Some "voice.wav"%string) None in
  renderSection sampleBrowser (frameSetup None) 1 section =
  ([OnProgress "Rendering: Part 1"; DecodeAudio "voice.wav"], Resolved).
Proof.
  intros section.
  destruct (empty_section_skipped sampleBrowser (frameSetup None) 1 section [])
    as (_ & H).
  destruct (H ltac:(reflexivity)) as (Heq & _).
  exact Heq.
Defined.

(** ** The section loop *)

(** Samples below the duration each draw a frame; the first sample at or
    beyond it clears the timer, stops the voice and resolves. *)
Lemma animationLoop_run (fs : FrameSetup) (hasTitleCard : bool)
    (imgs : list HTMLImageElement) (duration : Q) (hasVoice : bool)
    (before : list Q) (t : Q) (after : list Q) :
  Forall (fun x => x < duration) before -> duration <= t ->
  animationLoop fs hasTitleCard imgs duration hasVoice (before ++ t :: after)
  = (map (fun x => Draw (drawFrame fs hasTitleCard imgs duration x)) before
       ++ ClearInterval :: (if hasVoice then [VoiceStop] else []),
     Resolved).
Proof.
  intros Hbefore Ht. induction Hbefore as [| x before Hx _ IH].
  - cbn [app animationLoop map]. apply geb_ge in Ht. rewrite Ht. reflexivity.
  - cbn [app animationLoop map]. apply geb_lt in Hx. rewrite Hx, IH.
    reflexivity.
Qed.

Lemma animationLoop_no_background (fs : FrameSetup) (hasTitleCard : bool)
    (imgs : list HTMLImageElement) (duration : Q) (hasVoice : bool)
    (samples : list Q) :
  Forall (fun e => isBackground e = false)
         (fst (animationLoop fs hasTitleCard imgs duration hasVoice samples)).
Proof.
  induction samples as [| t samples IH]; cbn [animationLoop].
  - constructor.
  - destruct (JS.geb t duration).
    + destruct hasVoice; repeat constructor.
    + destruct (animationLoop fs hasTitleCard imgs duration hasVoice samples)
        as [events c].
      cbn [fst] in *. constructor; [reflexivity | exact IH].
Qed.

(** The events of a section that has images. *)
Lemma renderSection_with_images (b : Browser) (fs : FrameSetup) (i : nat)
    (section : GeneratedSection) :
  validSrcs section <> [] ->
  renderSection b fs i section =
  let voiceBuffer := snd (decodeVoice b section) in
  let loop :=
    animationLoop fs (JS.truthy (titleCard section))
                  (map (preload b) (validSrcs section))
                  (sectionDuration voiceBuffer)
                  (match voiceBuffer with Some _ => true | None => false end)
                  (timerSamples b i) in
  (OnProgress ("Rendering: " ++ sectionName section)
     :: fst (decodeVoice b section)
     ++ match voiceBuffer with
        | Some (src, _) => [VoiceStart src]
        | None => []
        end
     ++ SetInterval :: fst loop,
   snd loop).
Proof.
  intros Hne. unfold renderSection.
  destruct (decodeVoice b section) as [events voice]. cbn [fst snd].
  destruct (validSrcs section) as [| src srcs] eqn:Hsrcs; [congruence |].
  cbv zeta.
  destruct (animationLoop fs (JS.truthy (titleCard section))
              (map (preload b) (src :: srcs)) (sectionDuration voice)
              (match voice with Some _ => true | None => false end)
              (timerSamples b i)) as [loopEvents c].
  reflexivity.
Qed.

Lemma renderSection_no_background (b : Browser) (fs : FrameSetup) (i : nat)
    (section : GeneratedSection) :
  Forall (fun e => isBackground e = false)
         (fst (renderSection b fs i section)).
Proof.
  assert (Hdec : Forall (fun e => isBackground e = false)
                        (fst (decodeVoice b section))).
  { eapply Forall_impl; [| apply decodeVoice_events].
    cbv beta. intros e (_ & _ & _ & H). exact H. }
  destruct (validSrcs section) as [| src srcs] eqn:Hsrcs.
  - destruct (empty_section_events b fs i section Hsrcs) as [Heq _].
    rewrite Heq. cbn [fst]. constructor; [reflexivity | exact Hdec].
  - rewrite renderSection_with_images by (rewrite Hsrcs; discriminate).
    cbv zeta. cbn [fst]. constructor; [reflexivity |].
    apply Forall_app. split; [exact Hdec |].
    apply Forall_app. split.
    + destruct (snd (decodeVoice b section)) as [[src' d] |];
        repeat constructor.
    + constructor; [reflexivity | apply animationLoop_no_background].
Qed.

Lemma renderSections_no_background (b : Browser) (fs : FrameSetup)
    (sections : list GeneratedSection) (i : nat) :
  Forall (fun e => isBackground e = false)
         (fst (renderSections b fs i sections)).
Proof.
  revert i. induction sections as [| section rest IH]; intros i.
  - constructor.
  - cbn [renderSections].
    pose proof (renderSection_no_background b fs i section) as Hsec.
    destruct (renderSection b fs i section) as [events [|]]; cbn [fst] in *.
    + specialize (IH (S i)).
      destruct (renderSections b fs (S i) rest) as [events' c].
      cbn [fst] in *. apply Forall_app. split; assumption.
    + exact Hsec.
Qed.

(** ** The title card and its intervals *)




(** ** Narration *)

Lemma renderVideo_outcome (b : Browser) (data : ProjectData) :
  getContext2d b = true ->
  snd (renderVideo b data) =
  match snd (renderSections b (frameSetup (config data)) 0
                            (intro data :: parts data)) with
  | Resolved => ResolvesBlob
  | Pending => NeverResolves
  end.
Proof.
  intros Hctx. unfold renderVideo, renderVideoWith. rewrite Hctx.
  cbn [negb audioContext mediaRecorder workingMedia].
  destruct (setupBackgroundMusic b data) as [bgEvents bgSource].
  destruct (renderSections b (frameSetup (config data)) 0
                           (intro data :: parts data)) as [events [|]];
    reflexivity.
Qed.

(** With an available media stack [renderVideoWith] is [renderVideo]. *)
Lemma renderVideoWith_available (m : MediaStack) (b : Browser)
    (data : ProjectData) :
  audioContext m = None -> mediaRecorder m = None ->
  renderVideoWith m b data = renderVideo b data.
Proof.
  intros Haudio Hrec. unfold renderVideo, renderVideoWith.
  rewrite Haudio, Hrec. reflexivity.
Qed.

(** Every section first reports its progress. *)
Lemma renderSection_head (b : Browser) (fs : FrameSetup) (i : nat)
    (section : GeneratedSection) :
  exists events,
    fst (renderSection b fs i section)
    = OnProgress ("Rendering: " ++ sectionName section) :: events.
Proof.
  unfold renderSection.
  destruct (decodeVoice b section) as [decodeEvents voice].
  destruct (validSrcs section) as [| s0 srcs]; [eexists; reflexivity |].
  destruct (animationLoop fs (JS.truthy (titleCard section))
              (map (preload b) (s0 :: srcs)) (sectionDuration voice)
              (match voice with Some _ => true | None => false end)
              (timerSamples b i)) as [loopEvents c].
  eexists. reflexivity.
Qed.

(** A section whose narration fails to decode is rendered as the section
    without narration, after the decode and the warning. *)
Lemma renderSection_decode_failure (b : Browser) (fs : FrameSetup) (i : nat)
    (section : GeneratedSection) (src : string) :
  generatedAudio section = Some src -> JS.nonEmpty src = true ->
  decodeAudioData b src = None ->
  renderSection b fs i section =
  (OnProgress ("Rendering: " ++ sectionName section)
     :: DecodeAudio src
     :: ConsoleWarn "Audio decode failed for section"
     :: tl (fst (renderSection b fs i (withoutAudio section))),
   snd (renderSection b fs i (withoutAudio section))).
Proof.
  intros Haudio Hsrc Hdec.
  assert (Hvoice : decodeVoice b section =
            ([DecodeAudio src; ConsoleWarn "Audio decode failed for section"],
             None))
    by (unfold decodeVoice; rewrite Haudio, Hsrc, Hdec; reflexivity).
  unfold renderSection. rewrite Hvoice.
  change (decodeVoice b (withoutAudio section))
    with (@nil Event, @None (string * Q)).
  change (validSrcs (withoutAudio section)) with (validSrcs section).
  change (sectionName (withoutAudio section)) with (sectionName section).
  change (titleCard (withoutAudio section)) with (titleCard section).
  destruct (validSrcs section) as [| s0 srcs]; [reflexivity |].
  destruct (animationLoop fs (JS.truthy (titleCard section))
              (map (preload b) (s0 :: srcs)) (sectionDuration None) false
              (timerSamples b i)) as [loopEvents c].
  reflexivity.
Qed.

(** C6. The duration of a section is the duration of its decoded
    narration when the narration exists and decodes, and 5 when there is
    no narration or the decode fails.  A failed decode is logged and the
    section is then rendered exactly as the same section without
    narration, and so is the rest of the section loop: the sections that
    follow are rendered as they are after the silent section.  The
    duration is the one the frame loop runs against: the samples below it
    each draw a frame and the first sample reaching it ends the
    section. *)
Theorem narration_duration (b : Browser) (fs : FrameSetup) (i : nat)
    (section : GeneratedSection) :
  (forall src d,
     generatedAudio section = Some src -> JS.nonEmpty src = true ->
     decodeAudioData b src = Some d ->
     decodeVoice b section = ([DecodeAudio src], Some (src, d)) /\
     sectionDuration (snd (decodeVoice b section)) = d) /\
  (JS.truthy (generatedAudio section) = false ->
     decodeVoice b section = ([], None) /\
     sectionDuration (snd (decodeVoice b section)) = 5) /\
  (forall src,
     generatedAudio section = Some src -> JS.nonEmpty src = true ->
     decodeAudioData b src = None ->
     decodeVoice b section =
       ([DecodeAudio src; ConsoleWarn "Audio decode failed for section"],
        None) /\
     sectionDuration (snd (decodeVoice b section)) = 5 /\
     renderSection b fs i section =
       (OnProgress ("Rendering: " ++ sectionName section)
          :: DecodeAudio src
          :: ConsoleWarn "Audio decode failed for section"
          :: tl (fst (renderSection b fs i (withoutAudio section))),
        snd (renderSection b fs i (withoutAudio section)))) /\
  (validSrcs section <> [] ->
     forall before t after,
       timerSamples b i = before ++ t :: after ->
       let duration := sectionDuration (snd (decodeVoice b section)) in
       Forall (fun x => x < duration) before -> duration <= t ->
       renderSection b fs i section =
       (OnProgress ("Rendering: " ++ sectionName section)
          :: fst (decodeVoice b section)
          ++ match snd (decodeVoice b section) with
             | Some (src, _) => [VoiceStart src]
             | None => []
             end
          ++ SetInterval
          :: map (fun x => Draw (drawFrame fs (JS.truthy (titleCard section))
                                   (map (preload b) (validSrcs section))
                                   duration x)) before
          ++ ClearInterval
          :: match snd (decodeVoice b section) with
             | Some _ => [VoiceStop]
             | None => []
             end,
        Resolved)) /\
  (forall src rest,
     generatedAudio section = Some src -> JS.nonEmpty src = true ->
     decodeAudioData b src = None ->
     renderSections b fs i (section :: rest) =
       (OnProgress ("Rendering: " ++ sectionName section)
          :: DecodeAudio src
          :: ConsoleWarn "Audio decode failed for section"
          :: tl (fst (renderSections b fs i (withoutAudio section :: rest))),
        snd (renderSections b fs i (withoutAudio section :: rest)))).
Proof.
  split; [| split; [| split; [| split]]].
  - intros src d Haudio Hsrc Hdec. unfold decodeVoice.
    rewrite Haudio, Hsrc, Hdec. split; reflexivity.
  - intros Hfalsy. unfold decodeVoice.
    destruct (generatedAudio section) as [[| c src] |];
      cbn [JS.truthy] in Hfalsy; try discriminate; split; reflexivity.
  - intros src Haudio Hsrc Hdec.
    assert (Hvoice : decodeVoice b section =
              ([DecodeAudio src; ConsoleWarn "Audio decode failed for section"],
               None))
      by (unfold decodeVoice; rewrite Haudio, Hsrc, Hdec; reflexivity).
    split; [exact Hvoice |]. split; [rewrite Hvoice; reflexivity |].
    apply renderSection_decode_failure; assumption.
  - intros Hne before t after Hsamples duration Hbefore Ht.
    rewrite renderSection_with_images by exact Hne.
    cbv zeta. rewrite Hsamples. fold duration.
    rewrite (animationLoop_run fs _ _ duration _ before t after Hbefore Ht).
    cbn [fst snd].
    destruct (snd (decodeVoice b section)) as [[src d] |]; reflexivity.
  - intros src rest Haudio Hsrc Hdec.
    cbn [renderSections].
    rewrite (renderSection_decode_failure b fs i section src Haudio Hsrc Hdec).
    destruct (renderSection_head b fs i (withoutAudio section))
      as (events & Hhead).
    destruct (renderSection b fs i (withoutAudio section)) as [silent c].
    cbn [fst snd] in *. subst silent. cbn [tl].
    destruct c; [| reflexivity].
    destruct (renderSections b fs (S i) rest) as [events' c'].
    reflexivity.
Qed.

Lemma narration_duration_witness :
  let section := mkSection None ["bad.png"; "ok.png"]%string
                           (Some "voice.wav"%string) None in
  sectionDuration (snd (decodeVoice sampleBrowser section)) = 2 /\
  sectionDuration (snd (decodeVoice failingBrowser section)) = 5 /\
  snd (renderSection failingBrowser (frameSetup None) 0 section) = Resolved.
Proof.
  intros section.
  destruct (narration_duration sampleBrowser (frameSetup None) 0 section)
    as (Hok & _).
  destruct (narration_duration failingBrowser (frameSetup None) 0 section)
    as (_ & _ & Hfail & Hrun & _).
  split; [| split].
  - apply (Hok "voice.wav"%string 2); reflexivity.
  - apply (Hfail "voice.wav"%string); reflexivity.
  - cbv zeta in Hrun.
    rewrite (Hrun ltac:(discriminate) [1; 1.75; 2.5] 5 []
               ltac:(reflexivity)
               ltac:(repeat constructor)
               ltac:(discriminate)).
    reflexivity.
Defined.

(** ** Background music *)

Lemma bgMusicWanted_iff (data : ProjectData) (src : string) (volume : Q) :
  bgMusicWanted data = Some (src, volume) <->
  backgroundMusic data = Some src /\ JS.nonEmpty src = true /\
  exists c, config data = Some c /\ bgMusicVolume c = volume /\ 0 < volume.
Proof.
  unfold bgMusicWanted. split.
  - destruct (backgroundMusic data) as [src' |]; [| discriminate].
    destruct (config data) as [c |]; [| discriminate].
    destruct (JS.nonEmpty src') eqn:Hsrc; [| discriminate].
    destruct (Qeq_bool (bgMusicVolume c) 0); [discriminate |].
    destruct (JS.ltb 0 (bgMusicVolume c)) eqn:Hpos; [| discriminate].
    cbn [negb andb]. intros H. injection H as <- <-.
    split; [reflexivity |]. split; [exact Hsrc |].
    exists c. split; [reflexivity |]. split; [reflexivity |].
    apply ltb_lt. exact Hpos.
  - intros (Hbg & Hsrc & c & Hc & Hvol & Hpos).
    rewrite Hbg, Hc, Hsrc, Hvol.
    assert (Hne : Qeq_bool volume 0 = false).
    { destruct (Qeq_bool volume 0) eqn:Heq; [| reflexivity].
      apply Qeq_bool_eq in Heq. lra. }
    apply ltb_lt in Hpos. rewrite Hne, Hpos. reflexivity.
Qed.

(** C7. In a browser that gives the render its canvas context, its audio
    context and its recorder, the background track is set up exactly when a
    non-empty music handle is present and the configured volume is greater
    than 0.  Then it is decoded once; if the decode succeeds the track is
    started looping at gain [volume * 0.5] before the recorder and every
    section, and it is stopped after the events of the last section, just
    before the recorder stops (hence not at all if a section never
    finishes); if the decode fails a warning is logged and the render runs
    on as without music.  No section starts or stops the background track,
    and its presence does not change what the sections do. *)
Theorem background_music_mixing (m : MediaStack) (b : Browser)
    (data : ProjectData) :
  getContext2d b = true ->
  audioContext m = None -> mediaRecorder m = None ->
  let fs := frameSetup (config data) in
  let sections := renderSections b fs 0 (intro data :: parts data) in
  let closing (bgSource : bool) :=
    match snd sections with
    | Resolved => (if bgSource then [BgStop] else []) ++ [RecorderStop]
    | Pending => []
    end in
  (forall src volume,
     bgMusicWanted data = Some (src, volume) <->
     backgroundMusic data = Some src /\ JS.nonEmpty src = true /\
     exists c, config data = Some c /\ bgMusicVolume c = volume /\
               0 < volume) /\
  (forall src volume d,
     bgMusicWanted data = Some (src, volume) ->
     decodeAudioData b src = Some d ->
     fst (renderVideoWith m b data) =
     Draw (clearCanvas fs) :: DecodeAudio src
       :: BgStart src true (volume * 0.5)
       :: RecorderStart :: fst sections ++ closing true) /\
  (forall src volume,
     bgMusicWanted data = Some (src, volume) ->
     decodeAudioData b src = None ->
     fst (renderVideoWith m b data) =
     Draw (clearCanvas fs) :: DecodeAudio src
       :: ConsoleWarn "Failed to load background music"
       :: RecorderStart :: fst sections ++ closing false) /\
  (bgMusicWanted data = None ->
     fst (renderVideoWith m b data) =
     Draw (clearCanvas fs) :: RecorderStart :: fst sections ++ closing false) /\
  Forall (fun e => isBackground e = false) (fst sections) /\
  snd (renderVideoWith m b data) =
    match snd sections with
    | Resolved => ResolvesBlob
    | Pending => NeverResolves
    end.
Proof.
  intros Hctx Haudio Hrec fs sections closing.
  rewrite (renderVideoWith_available m b data Haudio Hrec).
  assert (Hrun : forall bgEvents bgSource,
            setupBackgroundMusic b data = (bgEvents, bgSource) ->
            fst (renderVideo b data) =
            Draw (clearCanvas fs) :: bgEvents
              ++ RecorderStart :: fst sections ++ closing bgSource).
  { intros bgEvents bgSource Hbg. unfold renderVideo, renderVideoWith.
    rewrite Hctx, Hbg. cbn [negb audioContext mediaRecorder workingMedia].
    fold fs. unfold closing.
    change (renderSections b fs 0 (intro data :: parts data)) with sections.
    destruct sections as [events [|]]; cbn [fst snd].
    - reflexivity.
    - rewrite app_nil_r. reflexivity. }
  split; [apply bgMusicWanted_iff |].
  split; [| split; [| split; [| split]]].
  - intros src volume d Hwanted Hdec.
    apply (Hrun [DecodeAudio src; BgStart src true (volume * 0.5)] true).
    unfold setupBackgroundMusic. rewrite Hwanted, Hdec. reflexivity.
  - intros src volume Hwanted Hdec.
    apply (Hrun [DecodeAudio src;
                 ConsoleWarn "Failed to load background music"] false).
    unfold setupBackgroundMusic. rewrite Hwanted, Hdec. reflexivity.
  - intros Hwanted.
    apply (Hrun [] false). unfold setupBackgroundMusic. rewrite Hwanted.
    reflexivity.
  - apply renderSections_no_background.
  - apply renderVideo_outcome. exact Hctx.
Qed.

Lemma background_music_mixing_witness :
  let section := mkSection None ["a.png"]%string
                           (Some "voice.wav"%string) None in
  let data := mkProjectData section []
                (Some (mkVideoConfig "16:9" Slow NoTransition 0.2))
                (Some "music.mp3"%string) in
  fst (renderVideoWith workingMedia sampleBrowser data) =
  Draw (clearCanvas (frameSetup (config data)))
    :: DecodeAudio "music.mp3" :: BgStart "music.mp3" true (0.2 * 0.5)
    :: RecorderStart
    :: fst (renderSections sampleBrowser (frameSetup (config data)) 0 [section])
    ++ [BgStop; RecorderStop].
Proof.
  intros section data.
  destruct (background_music_mixing workingMedia sampleBrowser data
              eq_refl eq_refl eq_refl)
    as (_ & Hmixed & _).
  rewrite (Hmixed "music.mp3"%string 0.2 2 eq_refl eq_refl).
  reflexivity.
Defined.

(** ** Title cards *)

Lemma append_empty_r (s : string) : (s ++ EmptyString)%string = s.
Proof. induction s as [| c s IH]; cbn; [| rewrite IH]; reflexivity. Qed.

Lemma append_assoc (s1 s2 s3 : string) :
  ((s1 ++ s2) ++ s3)%string = (s1 ++ s2 ++ s3)%string.
Proof. induction s1 as [| c s1 IH]; cbn; [| rewrite IH]; reflexivity. Qed.

Lemma joinStrings_app (l1 l2 : list string) :
  joinStrings (l1 ++ l2) = (joinStrings l1 ++ joinStrings l2)%string.
Proof.
  induction l1 as [| s l1 IH]; cbn [app joinStrings fold_right].
  - reflexivity.
  - fold (joinStrings (l1 ++ l2)). fold (joinStrings l1).
    rewrite IH, append_assoc. reflexivity.
Qed.

(** Wrapping neither loses nor reorders text. *)
Lemma wrapWords_join (measure : string -> Q) (maxWidth : Q)
    (words : list string) (n : nat) (line : string) (lines : list string) :
  let (line', lines') := wrapWords measure maxWidth words n line lines in
  joinStrings (lines' ++ [line'])
  = (joinStrings lines ++ line
     ++ joinStrings (map (fun word => word ++ " ") words))%string.
Proof.
  revert n line lines.
  induction words as [| word rest IH]; intros n line lines.
  - cbn [wrapWords map]. rewrite joinStrings_app. reflexivity.
  - cbn [wrapWords map].
    destruct (JS.ltb maxWidth (measure (line ++ word ++ " ")%string)
              && (0 <? n)%nat).
    + specialize (IH (S n) (word ++ " ")%string (lines ++ [line])).
      destruct (wrapWords measure maxWidth rest (S n) (word ++ " ")%string
                          (lines ++ [line])) as [line' lines'].
      rewrite IH, joinStrings_app.
      cbn [joinStrings fold_right].
      rewrite append_empty_r, !append_assoc. reflexivity.
    + specialize (IH (S n) (line ++ word ++ " ")%string lines).
      destruct (wrapWords measure maxWidth rest (S n)
                          (line ++ word ++ " ")%string lines)
        as [line' lines'].
      rewrite IH. cbn [joinStrings fold_right].
      rewrite !append_assoc. reflexivity.
Qed.

(** Every line pushed is a single word or fits. *)
Lemma wrapWords_wrapped (measure : string -> Q) (maxWidth : Q)
    (all words : list string) (n : nat) (line : string)
    (lines : list string) :
  incl words all ->
  Forall (wrappedLine measure maxWidth all) lines ->
  (n = 0%nat -> line = EmptyString /\ words <> []) ->
  ((0 < n)%nat -> wrappedLine measure maxWidth all line) ->
  let (line', lines') := wrapWords measure maxWidth words n line lines in
  Forall (wrappedLine measure maxWidth all) (lines' ++ [line']).
Proof.
  revert n line lines.
  induction words as [| word rest IH];
    intros n line lines Hincl Hlines Hfirst Hlater.
  - cbn [wrapWords]. apply Forall_app. split; [exact Hlines |].
    constructor; [| constructor].
    destruct n as [| n]; [| apply Hlater; lia].
    destruct (Hfirst eq_refl) as [_ Hne]. congruence.
  - assert (Hword : In word all) by (apply Hincl; left; reflexivity).
    assert (Hrest : incl rest all)
      by (intros w Hw; apply Hincl; right; exact Hw).
    assert (Hsingle : wrappedLine measure maxWidth all (word ++ " ")%string)
      by (left; exists word; split; [exact Hword | reflexivity]).
    cbn [wrapWords].
    destruct (JS.ltb maxWidth (measure (line ++ word ++ " ")%string))
      eqn:Hwide; cbn [andb].
    + destruct (0 <? n)%nat eqn:Hn.
      * apply Nat.ltb_lt in Hn.
        apply IH; [exact Hrest | | intros H; discriminate H
                  | intros _; exact Hsingle].
        apply Forall_app. split; [exact Hlines |].
        constructor; [apply Hlater; exact Hn | constructor].
      * apply Nat.ltb_ge in Hn.
        apply IH; [exact Hrest | exact Hlines | intros H; discriminate H |].
        intros _. destruct (Hfirst ltac:(lia)) as [Hempty _].
        rewrite Hempty. exact Hsingle.
    + apply IH; [exact Hrest | exact Hlines | intros H; discriminate H |].
      intros _. right. apply ltb_ge. exact Hwide.
Qed.

Lemma split_nonempty (text : string) : split text <> [].
Proof.
  destruct text as [| c text]; cbn [split]; [discriminate |].
  destruct (Ascii.eqb c " "); [discriminate |].
  destruct (split text); discriminate.
Qed.

Lemma wrapLines_spec (measure : string -> Q) (maxWidth : Q) (text : string) :
  wrapLines measure maxWidth text <> [] /\
  joinStrings (wrapLines measure maxWidth text)
    = joinStrings (map (fun word => (word ++ " ")%string) (split text)) /\
  Forall (wrappedLine measure maxWidth (split text))
         (wrapLines measure maxWidth text).
Proof.
  unfold wrapLines.
  pose proof (wrapWords_join measure maxWidth (split text) 0 EmptyString [])
    as Hjoin.
  pose proof (wrapWords_wrapped measure maxWidth (split text) (split text)
                0 EmptyString [] (incl_refl _) (Forall_nil _)) as Hwrapped.
  destruct (wrapWords measure maxWidth (split text) 0 EmptyString [])
    as [line lines].
  split; [| split].
  - destruct lines; discriminate.
  - exact Hjoin.
  - apply Hwrapped.
    + intros _. split; [reflexivity | apply split_nonempty].
    + intros H. inversion H.
Qed.

Lemma wrapWords_ext (measure measure' : string -> Q) (maxWidth : Q)
    (words : list string) (n : nat) (line : string) (lines : list string) :
  (forall s, measure' s = measure s) ->
  wrapWords measure' maxWidth words n line lines
  = wrapWords measure maxWidth words n line lines.
Proof.
  intros Hsame. revert n line lines.
  induction words as [| word rest IH]; intros n line lines;
    cbn [wrapWords]; [reflexivity |].
  rewrite Hsame, !IH. reflexivity.
Qed.

(** Line [i] is drawn [i] line heights below the first. *)
Lemma fillLines_nth (lines : list string) (x startY lineHeight : Q)
    (i : nat) (line : string) :
  nth_error lines i = Some line ->
  exists y,
    nth_error (fillLines lines x startY lineHeight) i
    = Some (FillText line x y) /\
    y == startY + inject_Z (Z.of_nat i) * lineHeight.
Proof.
  revert startY i.
  induction lines as [| l lines IH]; intros startY i Hnth.
  - destruct i; discriminate Hnth.
  - destruct i as [| i]; cbn [nth_error fillLines] in *.
    + injection Hnth as <-. exists startY. split; [reflexivity |].
      change (inject_Z (Z.of_nat 0)) with 0. ring.
    + destruct (IH (startY + lineHeight) i Hnth) as (y & Hy & Heq).
      exists y. split; [exact Hy |].
      rewrite Heq, Nat2Z.inj_succ, <- Z.add_1_r, inject_Z_plus.
      change (inject_Z 1) with 1. ring.
Qed.

Lemma titleCardCanvas_with_context (b : Browser) (text aspectRatio : string) :
  getContext2d b = true ->
  producesTitleCard b text aspectRatio.
Proof.
  intros Hctx.
  set (lines := wrapLines (measureText b (titleFont aspectRatio))
                          (titleMaxWidth aspectRatio) text).
  destruct (wrapLines_spec (measureText b (titleFont aspectRatio))
                           (titleMaxWidth aspectRatio) text)
    as (Hne & Hjoin & Hwrapped).
  fold lines in Hne, Hjoin, Hwrapped.
  assert (Hcanvas : titleCardCanvas b text aspectRatio =
            Some (mkCanvas (titleCanvasWidth aspectRatio)
                    (titleCanvasHeight aspectRatio)
                    ([SetFillStyle "#000000";
                      FillRect 0 0 (inject_Z (titleCanvasWidth aspectRatio))
                               (inject_Z (titleCanvasHeight aspectRatio));
                      SetFillStyle "#FFFFFF";
                      SetFont (titleFont aspectRatio);
                      SetTextAlign "center";
                      SetTextBaseline "middle"]
                     ++ fillLines lines
                          (inject_Z (titleCanvasWidth aspectRatio) / 2)
                          (titleStartY aspectRatio (List.length lines))
                          (titleLineHeight aspectRatio))))
    by (unfold titleCardCanvas; rewrite Hctx; reflexivity).
  eexists. exists lines.
  split; [exact Hcanvas |].
  split; [unfold generateTitleCard; rewrite Hcanvas; reflexivity |].
  cbn [canvas_width canvas_height canvas_ops].
  split; [reflexivity |]. split; [reflexivity |]. split; [reflexivity |].
  split; [exact Hne |]. split; [exact Hjoin |]. split; [exact Hwrapped |].
  intros i line Hnth.
  destruct (fillLines_nth lines (inject_Z (titleCanvasWidth aspectRatio) / 2)
              (titleStartY aspectRatio (List.length lines))
              (titleLineHeight aspectRatio) i line Hnth) as (y & Hy & Heq).
  exists y. split; [exact Hy |].
  rewrite Heq. unfold titleStartY. field.
Qed.

(** C8, as stated, fails: without a 2D context the promise resolves with
    the empty string, which is no title card (and which [renderVideo]
    treats as an absent title card). *)
Lemma title_card_without_context :
  ~ producesTitleCard browserWithoutContext "Hello" "16:9".
Proof.
  intros (canvas & lines & Hcanvas & _). discriminate Hcanvas.
Qed.

(** C8, amended. [generateTitleCard] never rejects.  When a 2D context can
    be obtained it resolves, for every text and aspect ratio, with the data
    URL of a canvas of 1080 x 1920 for ['9:16'] and 1920 x 1080 otherwise,
    filled black, on which the lines of the wrapped text are drawn in
    white, centred horizontally and, as a block, vertically; the lines
    together are the words of the text in order, and each line is a single
    word or fits the maximum width.  When no context can be obtained it
    resolves with the empty string.  The canvas depends only on the text,
    the aspect ratio and the font metrics. *)
Theorem generateTitleCard_result (b : Browser) (text aspectRatio : string) :
  (getContext2d b = true -> producesTitleCard b text aspectRatio) /\
  (getContext2d b = false ->
     titleCardCanvas b text aspectRatio = None /\
     generateTitleCard b text aspectRatio = EmptyString /\
     JS.truthy (Some (generateTitleCard b text aspectRatio)) = false) /\
  (forall b',
     getContext2d b' = getContext2d b ->
     (forall font s, measureText b' font s = measureText b font s) ->
     titleCardCanvas b' text aspectRatio = titleCardCanvas b text aspectRatio).
Proof.
  split; [apply titleCardCanvas_with_context |]. split.
  - intros Hctx.
    assert (Hnone : titleCardCanvas b text aspectRatio = None)
      by (unfold titleCardCanvas; rewrite Hctx; reflexivity).
    unfold generateTitleCard. rewrite Hnone. repeat split; reflexivity.
  - intros b' Hctx Hmeasure. unfold titleCardCanvas, wrapLines.
    rewrite Hctx.
    rewrite (wrapWords_ext (measureText b (titleFont aspectRatio))
               (measureText b' (titleFont aspectRatio)))
      by (intros s; apply Hmeasure).
    reflexivity.
Qed.

Lemma generateTitleCard_result_witness :
  producesTitleCard sampleBrowser EmptyString "9:16" /\
  generateTitleCard browserWithoutContext "Hello" "16:9" = EmptyString.
Proof.
  split.
  - apply (generateTitleCard_result sampleBrowser EmptyString "9:16").
    reflexivity.
  - apply (generateTitleCard_result browserWithoutContext "Hello" "16:9").
    reflexivity.
Defined.


(** * Further properties *)

(** ** The frame loop *)

(** The events and the completion of the frame loop, in closed form. *)
Lemma animationLoop_eq (fs : FrameSetup) (hasTitleCard : bool)
    (imgs : list HTMLImageElement) (duration : Q) (hasVoice : bool)
    (samples : list Q) :
  animationLoop fs hasTitleCard imgs duration hasVoice samples =
  (map (fun t => Draw (drawFrame fs hasTitleCard imgs duration t))
       (framesBefore duration samples)
     ++ (if reaches duration samples
         then ClearInterval :: (if hasVoice then [VoiceStop] else [])
         else []),
   if reaches duration samples then Resolved else Pending).
Proof.
  induction samples as [| t rest IH];
    cbn [animationLoop framesBefore reaches existsb map app];
    [reflexivity |].
  destruct (JS.geb t duration); cbn [orb map app]; [reflexivity |].
  rewrite IH. reflexivity.
Qed.

Lemma reaches_iff (duration : Q) (samples : list Q) :
  reaches duration samples = true <->
  Exists (fun t => duration <= t) samples.
Proof.
  unfold reaches. rewrite existsb_exists, Exists_exists.
  split; intros (t & Hin & Ht); exists t; (split; [exact Hin |]);
    apply geb_ge; exact Ht.
Qed.

(** X1. The interval callback draws one frame for each sample that comes
    before the first sample reaching the duration, in order, and nothing
    else; it clears the timer (and stops the voice, if any) and resolves
    exactly when some sample reaches the duration, and is otherwise left
    pending without clearing the timer. *)
Theorem animationLoop_characterised (fs : FrameSetup) (hasTitleCard : bool)
    (imgs : list HTMLImageElement) (duration : Q) (hasVoice : bool)
    (samples : list Q) :
  animationLoop fs hasTitleCard imgs duration hasVoice samples =
  (map (fun t => Draw (drawFrame fs hasTitleCard imgs duration t))
       (framesBefore duration samples)
     ++ (if reaches duration samples
         then ClearInterval :: (if hasVoice then [VoiceStop] else [])
         else []),
   if reaches duration samples then Resolved else Pending) /\
  Forall (fun t => t < duration) (framesBefore duration samples) /\
  (reaches duration samples = true <->
   Exists (fun t => duration <= t) samples) /\
  (List.length (framesBefore duration samples) <= List.length samples)%nat.
Proof.
  split; [| split; [| split]].
  - apply animationLoop_eq.
  - induction samples as [| t rest IH]; cbn [framesBefore]; [constructor |].
    destruct (JS.geb t duration) eqn:Ht; [constructor |].
    constructor; [apply geb_lt; exact Ht | exact IH].
  - apply reaches_iff.
  - induction samples as [| t rest IH]; cbn [framesBefore List.length];
      [lia |].
    destruct (JS.geb t duration); cbn [List.length]; lia.
Qed.


(** ** Timing at a tick *)

Lemma Qdiv_le_compat_pos (x y c : Q) : 0 < c -> x <= y -> x / c <= y / c.
Proof.
  intros Hc Hxy. unfold Qdiv. apply Qmult_le_compat_r; [exact Hxy |].
  apply Qlt_le_weak. apply Qinv_lt_0_compat. exact Hc.
Qed.

(** In exact arithmetic the interval computed at a tick has a positive
    duration, contains the tick, and belongs to a loaded image. *)
Lemma imageTiming_tick (hasTitleCard : bool) (length : Z) (D t : Q) :
  (1 <= length)%Z -> 0 <= t -> t < D ->
  let tm := imageTiming hasTitleCard length D t in
  0 < currentImageDuration tm /\ within tm t /\
  (0 <= imgIndex tm < length)%Z.
Proof.
  intros Hlen Ht0 HtD tm. unfold tm.
  assert (HD : 0 < D) by lra.
  destruct hasTitleCard.
  - destruct (titleDuration_bounds D HD) as (Htd0 & _ & HtdD).
    destruct (Qlt_le_dec t (Qmin 4 (D * 0.5))) as [Hlt | Hge].
    + rewrite imageTiming_title_phase by exact Hlt.
      unfold within. cbn [currentImageDuration currentImageStartTime imgIndex].
      repeat split; try lra; lia.
    + destruct (Z.lt_ge_cases 1 length) as [Hmany | Hone].
      * rewrite imageTiming_content_phase by (try assumption; lra).
        cbv zeta.
        set (td := Qmin 4 (D * 0.5)) in *.
        set (per := (D - td) / inject_Z (length - 1)).
        assert (Hcq : 0 < inject_Z (length - 1)) by (apply inject_Z_pos; lia).
        assert (Hper : 0 < per)
          by (apply Qlt_shift_div_l; [exact Hcq | lra]).
        assert (Hsum : inject_Z (length - 1) * per == D - td)
          by (unfold per; field; lra).
        assert (Hx : 0 <= t - td) by lra.
        destruct (floor_slot (t - td) per Hper Hx) as (Hk0 & Hlo & Hhi).
        assert (HkC : (Qfloor ((t - td) / per) < length - 1)%Z).
        { apply floor_slot_lt; [exact Hper | exact Hx |]. rewrite Hsum. lra. }
        unfold within.
        cbn [currentImageDuration currentImageStartTime imgIndex].
        repeat split; try lra; lia.
      * rewrite imageTiming_title_only by (try assumption; right; lia).
        unfold within.
        cbn [currentImageDuration currentImageStartTime imgIndex].
        repeat split; try lra; lia.
  - rewrite imageTiming_no_title. cbv zeta.
    set (per := D / inject_Z length).
    assert (Hlq : 0 < inject_Z length) by (apply inject_Z_pos; lia).
    assert (Hper : 0 < per) by (apply Qlt_shift_div_l; [exact Hlq | lra]).
    assert (Hsum : inject_Z length * per == D) by (unfold per; field; lra).
    destruct (floor_slot t per Hper Ht0) as (Hk0 & Hlo & Hhi).
    assert (HkN : (Qfloor (t / per) < length)%Z).
    { apply floor_slot_lt; [exact Hper | exact Ht0 |]. rewrite Hsum. exact HtD. }
    unfold within.
    cbn [currentImageDuration currentImageStartTime imgIndex].
    repeat split; try lra; lia.
Qed.

(** In exact arithmetic the progress clamp is inactive at a tick. *)
Lemma imgProgress_at_tick (hasTitleCard : bool) (length : Z) (D t : Q) :
  (1 <= length)%Z -> 0 <= t -> t < D ->
  let tm := imageTiming hasTitleCard length D t in
  imgProgress tm t
    == (t - currentImageStartTime tm) / currentImageDuration tm /\
  0 <= imgProgress tm t /\ imgProgress tm t < 1.
Proof.
  intros Hlen Ht0 HtD tm.
  destruct (imageTiming_tick hasTitleCard length D t Hlen Ht0 HtD)
    as (Hdur & [Hlo Hhi] & Hidx).
  fold tm in Hdur, Hlo, Hhi, Hidx.
  set (x := (t - currentImageStartTime tm) / currentImageDuration tm).
  assert (Hx0 : 0 <= x) by (apply Qle_shift_div_l; lra).
  assert (Hx1 : x < 1) by (apply Qlt_shift_div_r; lra).
  assert (Hp : imgProgress tm t == x).
  { unfold imgProgress. fold x.
    rewrite (Q.max_r 0 x) by exact Hx0.
    apply Q.min_r. lra. }
  split; [exact Hp |]. rewrite Hp. split; assumption.
Qed.

(** X3. Images are shown in list order: along the ticks of a section the
    image index never decreases. *)
Theorem imgIndex_monotone (hasTitleCard : bool) (length : Z) (D t t' : Q) :
  (1 <= length)%Z -> 0 <= t -> t <= t' -> t' < D ->
  (imgIndex (imageTiming hasTitleCard length D t)
   <= imgIndex (imageTiming hasTitleCard length D t'))%Z.
Proof.
  intros Hlen Ht0 Htt HtD.
  assert (HD : 0 < D) by lra.
  destruct hasTitleCard.
  - destruct (titleDuration_bounds D HD) as (Htd0 & _ & HtdD).
    destruct (Qlt_le_dec t (Qmin 4 (D * 0.5))) as [Hlt | Hge].
    + rewrite (imageTiming_title_phase length D t) by exact Hlt.
      cbn [imgIndex]. apply imageTiming_index_nonneg; try assumption; lra.
    + assert (Hge' : Qmin 4 (D * 0.5) <= t') by lra.
      destruct (Z.lt_ge_cases 1 length) as [Hmany | Hone].
      * rewrite !imageTiming_content_phase by (try assumption; lra).
        cbv zeta. cbn [imgIndex].
        assert (Hper : 0 < (D - Qmin 4 (D * 0.5)) / inject_Z (length - 1)).
        { apply Qlt_shift_div_l; [apply inject_Z_pos; lia | lra]. }
        apply Zplus_le_compat_l. apply Qfloor_resp_le.
        apply Qdiv_le_compat_pos; [exact Hper | lra].
      * rewrite !imageTiming_title_only by (try assumption; right; lia).
        cbn [imgIndex]. lia.
  - rewrite !imageTiming_no_title. cbv zeta. cbn [imgIndex].
    assert (Hper : 0 < D / inject_Z length).
    { apply Qlt_shift_div_l; [apply inject_Z_pos; lia | lra]. }
    apply Qfloor_resp_le. apply Qdiv_le_compat_pos; assumption.
Qed.

Lemma imgIndex_monotone_witness :
  (imgIndex (imageTiming true 4 10 3) <= imgIndex (imageTiming true 4 10 7))%Z.
Proof.
  apply imgIndex_monotone; [lia | discriminate | discriminate | reflexivity].
Defined.

(** X4. In a section that shows only its title card the zoom does not run
    once over the section: before [titleDuration = min(4, D * 0.5)] the
    progress is [t / titleDuration], from [titleDuration] on it is [t / D],
    so at [titleDuration] it falls back to at most one half, below the
    progress of every earlier tick past half of the title duration. *)
Theorem title_only_zoom_restarts (D : Q) :
  0 < D ->
  let titleDuration := Qmin 4 (D * 0.5) in
  (forall t, 0 <= t -> t < titleDuration ->
     imgProgress (imageTiming true 1 D t) t == t / titleDuration) /\
  (forall t, titleDuration <= t -> t < D ->
     imgProgress (imageTiming true 1 D t) t == t / D) /\
  imgProgress (imageTiming true 1 D titleDuration) titleDuration <= 0.5 /\
  (forall t, titleDuration * 0.5 < t -> t < titleDuration ->
     imgProgress (imageTiming true 1 D titleDuration) titleDuration
     < imgProgress (imageTiming true 1 D t) t).
Proof.
  intros HD titleDuration.
  destruct (titleDuration_bounds D HD) as (Htd0 & Hhalf & HtdD).
  fold titleDuration in Htd0, Hhalf, HtdD.
  assert (Hbefore : forall t, 0 <= t -> t < titleDuration ->
            imgProgress (imageTiming true 1 D t) t == t / titleDuration).
  { intros t Ht0 Ht.
    destruct (imgProgress_at_tick true 1 D t
                ltac:(lia) Ht0 ltac:(lra)) as (Hp & _).
    rewrite Hp, imageTiming_title_phase by exact Ht.
    cbn [currentImageStartTime currentImageDuration]. fold titleDuration.
    apply Qdiv_comp; [ring | reflexivity]. }
  assert (Hafter : forall t, titleDuration <= t -> t < D ->
            imgProgress (imageTiming true 1 D t) t == t / D).
  { intros t Ht HtD'.
    destruct (imgProgress_at_tick true 1 D t
                ltac:(lia) ltac:(lra) HtD') as (Hp & _).
    rewrite Hp, imageTiming_title_only by (try assumption; right; lia).
    cbn [currentImageStartTime currentImageDuration].
    apply Qdiv_comp; [ring | reflexivity]. }
  assert (Hat : imgProgress (imageTiming true 1 D titleDuration) titleDuration
                <= 0.5).
  { rewrite Hafter by (try assumption; apply Qle_refl).
    apply Qle_shift_div_r; [exact HD | lra]. }
  split; [exact Hbefore |]. split; [exact Hafter |]. split; [exact Hat |].
  intros t Hlo Hhi.
  apply (Qle_lt_trans _ 0.5); [exact Hat |].
  rewrite Hbefore by lra.
  apply Qlt_shift_div_l; [exact Htd0 | lra].
Qed.

Lemma title_only_zoom_restarts_witness :
  imgProgress (imageTiming true 1 6 3) 3 <= 0.5 /\
  imgProgress (imageTiming true 1 6 3) 3 < imgProgress (imageTiming true 1 6 2) 2.
Proof.
  destruct (title_only_zoom_restarts 6 ltac:(reflexivity)) as (_ & _ & Hat & Hdrop).
  split; [exact Hat |].
  apply (Hdrop 2); reflexivity.
Defined.

(** ** Opacity and cover fit *)






(** ** The trace of a render *)

(** The events and the completion of one section, in closed form. *)
Lemma renderSection_eq (b : Browser) (fs : FrameSetup) (i : nat)
    (section : GeneratedSection) :
  renderSection b fs i section =
  match validSrcs section with
  | [] =>
    (OnProgress ("Rendering: " ++ sectionName section)
       :: fst (decodeVoice b section), Resolved)
  | _ :: _ =>
    (OnProgress ("Rendering: " ++ sectionName section)
       :: fst (decodeVoice b section)
       ++ match snd (decodeVoice b section) with
          | Some (src, _) => [VoiceStart src]
          | None => []
          end
       ++ SetInterval
       :: map (fun t => Draw (drawFrame fs (JS.truthy (titleCard section))
                                (map (preload b) (validSrcs section))
                                (durationIn b section) t))
              (framesBefore (durationIn b section) (timerSamples b i))
       ++ (if reaches (durationIn b section) (timerSamples b i)
           then ClearInterval
                :: match snd (decodeVoice b section) with
                   | Some _ => [VoiceStop]
                   | None => []
                   end
           else []),
     if reaches (durationIn b section) (timerSamples b i)
     then Resolved else Pending)
  end.
Proof.
  destruct (validSrcs section) as [| src srcs] eqn:Hsrcs.
  - apply empty_section_events. exact Hsrcs.
  - rewrite renderSection_with_images by (rewrite Hsrcs; discriminate).
    cbv zeta. rewrite animationLoop_eq, Hsrcs. cbn [fst snd].
    unfold durationIn.
    destruct (snd (decodeVoice b section)) as [[s d] |]; reflexivity.
Qed.

Lemma renderSections_cons (b : Browser) (fs : FrameSetup) (i : nat)
    (section : GeneratedSection) (rest : list GeneratedSection) :
  renderSections b fs i (section :: rest) =
  match snd (renderSection b fs i section) with
  | Pending => (fst (renderSection b fs i section), Pending)
  | Resolved =>
    (fst (renderSection b fs i section)
       ++ fst (renderSections b fs (S i) rest),
     snd (renderSections b fs (S i) rest))
  end.
Proof.
  cbn [renderSections].
  destruct (renderSection b fs i section) as [events [|]]; cbn [fst snd].
  - destruct (renderSections b fs (S i) rest); reflexivity.
  - reflexivity.
Qed.

(** The trace and the outcome of a render that has its context. *)
Lemma renderVideo_eq (b : Browser) (data : ProjectData) :
  getContext2d b = true ->
  let fs := frameSetup (config data) in
  let sections := renderSections b fs 0 (intro data :: parts data) in
  renderVideo b data =
  match snd sections with
  | Pending =>
    (Draw (clearCanvas fs) :: fst (setupBackgroundMusic b data)
       ++ RecorderStart :: fst sections, NeverResolves)
  | Resolved =>
    (Draw (clearCanvas fs) :: fst (setupBackgroundMusic b data)
       ++ RecorderStart :: fst sections
       ++ (if snd (setupBackgroundMusic b data) then [BgStop] else [])
       ++ [RecorderStop], ResolvesBlob)
  end.
Proof.
  intros Hctx fs sections. unfold renderVideo, renderVideoWith.
  rewrite Hctx. cbn [negb audioContext mediaRecorder workingMedia].
  fold fs. fold sections.
  destruct (setupBackgroundMusic b data) as [bgEvents bgSource].
  destruct sections as [events [|]]; reflexivity.
Qed.

Lemma decodeVoice_cases (b : Browser) (section : GeneratedSection) :
  decodeVoice b section = ([], None) \/
  (exists src d, decodeVoice b section = ([DecodeAudio src], Some (src, d))) \/
  (exists src, decodeVoice b section =
     ([DecodeAudio src; ConsoleWarn "Audio decode failed for section"], None)).
Proof.
  unfold decodeVoice.
  destruct (generatedAudio section) as [src |]; [| left; reflexivity].
  destruct (JS.nonEmpty src); [| left; reflexivity].
  destruct (decodeAudioData b src) as [d |].
  - right. left. exists src, d. reflexivity.
  - right. right. exists src. reflexivity.
Qed.

(** X7. Once a render has its canvas context, every drawing it makes (the
    initial fill and every frame of every section) begins by filling the
    whole canvas black, so nothing of an earlier frame shows through. *)
Theorem every_frame_clears (b : Browser) (data : ProjectData) :
  getContext2d b = true ->
  Forall (clearsFirst (frameSetup (config data))) (fst (renderVideo b data)).
Proof.
  intros Hctx.
  set (fs := frameSetup (config data)).
  assert (Hsec : forall i section,
            Forall (clearsFirst fs) (fst (renderSection b fs i section))).
  { intros i section. rewrite renderSection_eq.
    assert (Hdec : Forall (clearsFirst fs) (fst (decodeVoice b section))).
    { destruct (decodeVoice_cases b section)
        as [H | [(src & d & H) | (src & H)]];
        rewrite H; repeat constructor. }
    destruct (validSrcs section) as [| s0 srcs]; cbn [fst].
    - constructor; [exact I | exact Hdec].
    - constructor; [exact I |].
      apply Forall_app. split; [exact Hdec |].
      apply Forall_app. split.
      + destruct (snd (decodeVoice b section)) as [[s d] |];
          repeat constructor.
      + constructor; [exact I |].
        apply Forall_app. split.
        * apply Forall_forall. intros e He.
          apply in_map_iff in He. destruct He as (t & <- & _).
          reflexivity.
        * destruct (reaches _ _); [| constructor].
          destruct (snd (decodeVoice b section)); repeat constructor. }
  assert (Hall : forall sections i,
            Forall (clearsFirst fs) (fst (renderSections b fs i sections))).
  { induction sections as [| section rest IH]; intros i.
    - constructor.
    - rewrite renderSections_cons.
      destruct (snd (renderSection b fs i section)); cbn [fst].
      + apply Forall_app. split; [apply Hsec | apply IH].
      + apply Hsec. }
  rewrite (renderVideo_eq b data Hctx). cbv zeta. fold fs.
  assert (Hbg : Forall (clearsFirst fs) (fst (setupBackgroundMusic b data))).
  { unfold setupBackgroundMusic.
    destruct (bgMusicWanted data) as [[src volume] |]; [| constructor].
    destruct (decodeAudioData b src); repeat constructor. }
  destruct (snd (renderSections b fs 0 (intro data :: parts data)));
    cbn [fst]; (constructor; [reflexivity |]);
    (apply Forall_app; split; [exact Hbg |]);
    (constructor; [exact I |]).
  - apply Forall_app. split; [apply Hall |].
    apply Forall_app. split.
    + destruct (snd (setupBackgroundMusic b data)); repeat constructor.
    + repeat constructor.
  - apply Hall.
Qed.

Lemma every_frame_clears_witness :
  let section := mkSection None ["a.png"]%string
                           (Some "voice.wav"%string) None in
  let data := mkProjectData section [] None None in
  Forall (clearsFirst (frameSetup None)) (fst (renderVideo sampleBrowser data)).
Proof.
  intros section data.
  apply (every_frame_clears sampleBrowser data). reflexivity.
Defined.

Lemma progressMessages_app (l1 l2 : list Event) :
  progressMessages (l1 ++ l2) = progressMessages l1 ++ progressMessages l2.
Proof. unfold progressMessages. apply flat_map_app. Qed.

Lemma progressMessages_frames {A : Type} (f : A -> list CanvasOp)
    (l : list A) :
  progressMessages (map (fun t => Draw (f t)) l) = [].
Proof. induction l as [| a l IH]; [reflexivity | exact IH]. Qed.

(** A section reports its progress exactly once, before anything else. *)
Lemma renderSection_progress (b : Browser) (fs : FrameSetup) (i : nat)
    (section : GeneratedSection) :
  progressMessages (fst (renderSection b fs i section))
  = ["Rendering: " ++ sectionName section]%string.
Proof.
  rewrite renderSection_eq.
  assert (Hdec : progressMessages (fst (decodeVoice b section)) = []).
  { destruct (decodeVoice_cases b section)
      as [H | [(src & d & H) | (src & H)]]; rewrite H; reflexivity. }
  destruct (validSrcs section) as [| s0 srcs]; cbn [fst].
  - change (OnProgress ?m :: ?l) with ([OnProgress m] ++ l).
    rewrite progressMessages_app, Hdec. reflexivity.
  - change (OnProgress ?m :: ?l) with ([OnProgress m] ++ l).
    rewrite !progressMessages_app, Hdec.
    change (SetInterval :: ?l) with ([SetInterval] ++ l).
    rewrite !progressMessages_app, progressMessages_frames.
    destruct (snd (decodeVoice b section)) as [[s d] |];
      destruct (reaches _ _); reflexivity.
Qed.

(** X8. The progress callback is called once per section, in timeline
    order, with ["Rendering: "] followed by the section's title, or by
    ["Intro"] for a section without title: the messages of a run of
    sections are the labels of a prefix of the sections, and of all of them
    when every section finishes; sections without images are reported like
    the others. *)
Theorem progress_once_per_section (b : Browser) (fs : FrameSetup) (i : nat)
    (sections : list GeneratedSection) :
  exists k,
    (k <= List.length sections)%nat /\
    progressMessages (fst (renderSections b fs i sections))
    = map (fun section => ("Rendering: " ++ sectionName section)%string)
          (firstn k sections) /\
    (snd (renderSections b fs i sections) = Resolved ->
     k = List.length sections) /\
    (sections <> [] -> (0 < k)%nat).
Proof.
  revert i. induction sections as [| section rest IH]; intros i.
  - exists 0%nat. split; [cbn; lia |]. split; [reflexivity |].
    split; [reflexivity | congruence].
  - rewrite renderSections_cons.
    destruct (snd (renderSection b fs i section)) eqn:Hc; cbn [fst snd].
    + destruct (IH (S i)) as (k & Hk & Hmsgs & Hall & _).
      exists (S k). cbn [List.length firstn map].
      rewrite progressMessages_app, renderSection_progress, Hmsgs.
      split; [lia |]. split; [reflexivity |]. split; [| lia].
      intros Hres. rewrite (Hall Hres). reflexivity.
    + exists 1%nat. cbn [List.length firstn map].
      rewrite renderSection_progress.
      split; [lia |]. split; [reflexivity |]. split; [discriminate | lia].
Qed.

(** Whether a section finishes. *)
Lemma renderSection_resolved (b : Browser) (fs : FrameSetup) (i : nat)
    (section : GeneratedSection) :
  snd (renderSection b fs i section) = Resolved <->
  (validSrcs section <> [] ->
   reaches (durationIn b section) (timerSamples b i) = true).
Proof.
  rewrite renderSection_eq.
  destruct (validSrcs section) as [| s0 srcs]; cbn [snd].
  - split; [intros _ H; congruence | reflexivity].
  - destruct (reaches (durationIn b section) (timerSamples b i)).
    + split; [intros _ _; reflexivity | reflexivity].
    + split; [discriminate |]. intros H.
      specialize (H ltac:(discriminate)). discriminate H.
Qed.

Lemma renderSections_resolved (b : Browser) (fs : FrameSetup)
    (sections : list GeneratedSection) (i : nat) :
  snd (renderSections b fs i sections) = Resolved <->
  (forall k section,
     nth_error sections k = Some section -> validSrcs section <> [] ->
     reaches (durationIn b section) (timerSamples b (i + k)) = true).
Proof.
  revert i. induction sections as [| section rest IH]; intros i.
  - split; [| reflexivity]. intros _ k section Hk. destruct k; discriminate.
  - rewrite renderSections_cons.
    pose proof (renderSection_resolved b fs i section) as Hsec.
    destruct (snd (renderSection b fs i section)); cbn [snd].
    + rewrite IH. split.
      * intros Hrest k s Hk Hs. destruct k as [| k]; cbn [nth_error] in Hk.
        -- injection Hk as <-. rewrite Nat.add_0_r.
           apply Hsec; [reflexivity | exact Hs].
        -- replace (i + S k)%nat with (S i + k)%nat by lia.
           apply (Hrest k s Hk Hs).
      * intros Hall k s Hk Hs.
        replace (S i + k)%nat with (i + S k)%nat by lia.
        apply (Hall (S k) s Hk Hs).
    + split; [discriminate |]. intros Hall. apply Hsec.
      intros Hs. specialize (Hall 0%nat section eq_refl Hs).
      rewrite Nat.add_0_r in Hall. exact Hall.
Qed.

(** The trace and the outcome of a render that has its context, in any
    browser. *)
Lemma renderVideoWith_eq (m : MediaStack) (b : Browser)
    (data : ProjectData) :
  getContext2d b = true ->
  renderVideoWith m b data =
  match audioContext m with
  | Some msg => ([Draw (clearCanvas (frameSetup (config data)))], Throws msg)
  | None =>
    match mediaRecorder m with
    | Some msg =>
      (Draw (clearCanvas (frameSetup (config data)))
         :: fst (setupBackgroundMusic b data), Throws msg)
    | None => renderVideo b data
    end
  end.
Proof.
  intros Hctx. unfold renderVideo, renderVideoWith. rewrite Hctx.
  cbn [negb audioContext mediaRecorder workingMedia].
  destruct (audioContext m) as [msg |]; [reflexivity |].
  destruct (setupBackgroundMusic b data) as [bgEvents bgSource].
  destruct (mediaRecorder m) as [msg |]; reflexivity.
Qed.

(** X9. How a render ends.  It rejects with ["Could not create canvas
    context"] without a 2D context, and with the error of the audio context
    or of the recorder when one of them cannot be built; the recorder's
    error comes after the background-music block, so that a track already
    started is left playing.  When context, audio context and recorder are
    there, the render resolves with a blob exactly when, for every section
    that has an image to show, the timer reaches the section's duration,
    and otherwise it never resolves.  Sections without images need no timer
    sample at all. *)
Theorem render_resolves_iff (m : MediaStack) (b : Browser)
    (data : ProjectData) :
  (getContext2d b = false ->
   renderVideoWith m b data = ([], Throws "Could not create canvas context")) /\
  (forall msg, getContext2d b = true -> audioContext m = Some msg ->
   renderVideoWith m b data =
   ([Draw (clearCanvas (frameSetup (config data)))], Throws msg)) /\
  (forall msg, getContext2d b = true -> audioContext m = None ->
   mediaRecorder m = Some msg ->
   renderVideoWith m b data =
   (Draw (clearCanvas (frameSetup (config data)))
      :: fst (setupBackgroundMusic b data), Throws msg)) /\
  (getContext2d b = true -> audioContext m = None ->
   mediaRecorder m = None ->
   (snd (renderVideoWith m b data) = ResolvesBlob <->
    forall k section,
      nth_error (intro data :: parts data) k = Some section ->
      validSrcs section <> [] ->
      Exists (fun t => durationIn b section <= t) (timerSamples b k)) /\
   (snd (renderVideoWith m b data) <> ResolvesBlob ->
    snd (renderVideoWith m b data) = NeverResolves)).
Proof.
  split; [| split; [| split]].
  - intros Hctx. unfold renderVideoWith. rewrite Hctx. reflexivity.
  - intros msg Hctx Haudio.
    rewrite (renderVideoWith_eq m b data Hctx), Haudio. reflexivity.
  - intros msg Hctx Haudio Hrec.
    rewrite (renderVideoWith_eq m b data Hctx), Haudio, Hrec. reflexivity.
  - intros Hctx Haudio Hrec.
    rewrite (renderVideoWith_available m b data Haudio Hrec).
    pose proof (renderSections_resolved b (frameSetup (config data))
                  (intro data :: parts data) 0) as Hiff.
    rewrite (renderVideo_outcome b data Hctx).
    destruct (snd (renderSections b (frameSetup (config data)) 0
                                  (intro data :: parts data))).
    + split; [| congruence]. split; [| reflexivity].
      intros _ k section Hk Hs. apply reaches_iff.
      apply (proj1 Hiff eq_refl k section Hk Hs).
    + split; [| reflexivity]. split; [discriminate |].
      intros Hall. exfalso.
      assert (H : Pending = Resolved); [| discriminate H].
      apply Hiff. intros k section Hk Hs. apply reaches_iff.
      apply (Hall k section Hk Hs).
Qed.

Lemma render_resolves_iff_witness :
  let section := mkSection None ["a.png"]%string
                           (Some "voice.wav"%string) None in
  let silent := mkSection None ["a.png"]%string None None in
  let data := mkProjectData section []
                (Some (mkVideoConfig "16:9" Slow NoTransition 0.2))
                (Some "music.mp3"%string) in
  snd (renderVideoWith workingMedia sampleBrowser
         (mkProjectData section [] None None))
    = ResolvesBlob /\
  snd (renderVideoWith workingMedia sampleBrowser
         (mkProjectData silent [] None None))
    = NeverResolves /\
  renderVideoWith mediaWithoutRecorder sampleBrowser data
    = ([Draw (clearCanvas (frameSetup (config data)));
        DecodeAudio "music.mp3"; BgStart "music.mp3" true (0.2 * 0.5)],
       Throws "NotSupportedError") /\
  renderVideoWith workingMedia browserWithoutContext data
    = ([], Throws "Could not create canvas context").
Proof.
  intros section silent data. split; [| split; [| split]].
  - apply (render_resolves_iff workingMedia sampleBrowser
             (mkProjectData section [] None None)); try reflexivity.
    intros k s Hk Hs. destruct k as [| [| k]]; cbn in Hk; try discriminate.
    injection Hk as <-.
    apply Exists_cons_tl, Exists_cons_tl, Exists_cons_tl, Exists_cons_hd.
    discriminate.
  - apply (render_resolves_iff workingMedia sampleBrowser
             (mkProjectData silent [] None None)); try reflexivity.
    vm_compute. discriminate.
  - apply (render_resolves_iff mediaWithoutRecorder sampleBrowser data);
      reflexivity.
  - apply (render_resolves_iff workingMedia browserWithoutContext data).
    reflexivity.
Defined.

(** ** Balance of starts and stops *)

Lemma countEvents_app (p : Event -> bool) (l1 l2 : list Event) :
  countEvents p (l1 ++ l2) = (countEvents p l1 + countEvents p l2)%nat.
Proof. unfold countEvents. rewrite filter_app, length_app. reflexivity. Qed.

Lemma countEvents_cons (p : Event -> bool) (e : Event) (l : list Event) :
  countEvents p (e :: l)
  = ((if p e then 1 else 0) + countEvents p l)%nat.
Proof. unfold countEvents. cbn [filter]. destruct (p e); reflexivity. Qed.

Lemma countEvents_frames {A : Type} (p : Event -> bool)
    (f : A -> list CanvasOp) (l : list A) :
  (forall ops, p (Draw ops) = false) ->
  countEvents p (map (fun t => Draw (f t)) l) = 0%nat.
Proof.
  intros Hp. induction l as [| a l IH]; [reflexivity |].
  cbn [map]. rewrite countEvents_cons, Hp, IH. reflexivity.
Qed.

(** The counts of a section: what it starts it stops when it finishes;
    when it does not finish its timer is left running. *)
Lemma renderSection_counts (b : Browser) (fs : FrameSetup) (i : nat)
    (section : GeneratedSection) :
  let events := fst (renderSection b fs i section) in
  countEvents isBgStart events = 0%nat /\
  countEvents isBgStop events = 0%nat /\
  countEvents isRecorderStart events = 0%nat /\
  countEvents isRecorderStop events = 0%nat /\
  (countEvents isVoiceStart events <= 1)%nat /\
  match snd (renderSection b fs i section) with
  | Resolved =>
    countEvents isVoiceStop events = countEvents isVoiceStart events /\
    countEvents isClearInterval events = countEvents isSetInterval events
  | Pending =>
    countEvents isVoiceStop events = 0%nat /\
    countEvents isClearInterval events = 0%nat /\
    countEvents isSetInterval events = 1%nat
  end.
Proof.
  cbv zeta. rewrite renderSection_eq.
  destruct (validSrcs section) as [| s0 srcs]; cbn [fst snd];
    destruct (decodeVoice_cases b section)
      as [H | [(src & d & H) | (src & H)]];
    rewrite H; cbn [fst snd];
    try destruct (reaches (durationIn b section) (timerSamples b i));
    repeat rewrite ?countEvents_cons, ?countEvents_app, ?countEvents_frames
      by (intros; reflexivity);
    cbn; repeat split; lia.
Qed.

Lemma renderSections_counts (b : Browser) (fs : FrameSetup)
    (sections : list GeneratedSection) (i : nat) :
  let events := fst (renderSections b fs i sections) in
  countEvents isBgStart events = 0%nat /\
  countEvents isBgStop events = 0%nat /\
  countEvents isRecorderStart events = 0%nat /\
  countEvents isRecorderStop events = 0%nat /\
  match snd (renderSections b fs i sections) with
  | Resolved =>
    countEvents isVoiceStop events = countEvents isVoiceStart events /\
    countEvents isClearInterval events = countEvents isSetInterval events
  | Pending =>
    (countEvents isVoiceStop events <= countEvents isVoiceStart events)%nat /\
    countEvents isSetInterval events
    = S (countEvents isClearInterval events)
  end.
Proof.
  revert i. induction sections as [| section rest IH]; intros i.
  - cbn. repeat split; reflexivity.
  - cbv zeta. rewrite renderSections_cons.
    pose proof (renderSection_counts b fs i section) as Hsec.
    cbv zeta in Hsec.
    destruct Hsec as (H1 & H2 & H3 & H4 & H5 & Hsec).
    destruct (snd (renderSection b fs i section)); cbn [fst snd].
    + specialize (IH (S i)). cbv zeta in IH.
      destruct IH as (I1 & I2 & I3 & I4 & IH).
      rewrite !countEvents_app.
      destruct (snd (renderSections b fs (S i) rest));
        repeat split; lia.
    + repeat split; lia.
Qed.

Lemma setupBackgroundMusic_counts (b : Browser) (data : ProjectData) :
  let events := fst (setupBackgroundMusic b data) in
  let stop := if snd (setupBackgroundMusic b data) then [BgStop] else [] in
  (countEvents isBgStart events <= 1)%nat /\
  countEvents isBgStop stop = countEvents isBgStart events /\
  countEvents isBgStop events = 0%nat /\
  countEvents isBgStart stop = 0%nat /\
  Forall (fun p => countEvents p events = 0%nat /\ countEvents p stop = 0%nat)
         [isRecorderStart; isRecorderStop; isVoiceStart; isVoiceStop;
          isSetInterval; isClearInterval].
Proof.
  cbv zeta. unfold setupBackgroundMusic.
  destruct (bgMusicWanted data) as [[src volume] |];
    [destruct (decodeAudioData b src) |];
    cbn [fst snd]; unfold countEvents; cbn;
    (split; [lia |]); repeat split; repeat constructor.
Qed.

(** X10. Starts and stops of a render that has its canvas context.  The
    background track is started at most once.  In a render that resolves,
    everything started is stopped: as many voices are stopped as were
    started, as many timers cleared as were set, the background track is
    stopped once if it was started, and the recorder is started and stopped
    exactly once.  In a render that never resolves the recorder was started
    once, exactly one timer is left running, and neither the recorder nor
    the background track is ever stopped.  In a render that rejects because
    the audio context or the recorder cannot be built, the recorder is
    never started, no voice and no timer is started, and a background track
    that was started is never stopped. *)
Theorem render_starts_and_stops (m : MediaStack) (b : Browser)
    (data : ProjectData) :
  getContext2d b = true ->
  let events := fst (renderVideoWith m b data) in
  (countEvents isBgStart events <= 1)%nat /\
  match snd (renderVideoWith m b data) with
  | ResolvesBlob =>
    countEvents isRecorderStart events = 1%nat /\
    countEvents isVoiceStop events = countEvents isVoiceStart events /\
    countEvents isClearInterval events = countEvents isSetInterval events /\
    countEvents isBgStop events = countEvents isBgStart events /\
    countEvents isRecorderStop events = 1%nat
  | NeverResolves =>
    countEvents isRecorderStart events = 1%nat /\
    countEvents isSetInterval events = S (countEvents isClearInterval events) /\
    countEvents isBgStop events = 0%nat /\
    countEvents isRecorderStop events = 0%nat
  | Throws msg =>
    (audioContext m = Some msg \/
     audioContext m = None /\ mediaRecorder m = Some msg) /\
    countEvents isRecorderStart events = 0%nat /\
    countEvents isRecorderStop events = 0%nat /\
    countEvents isVoiceStart events = 0%nat /\
    countEvents isSetInterval events = 0%nat /\
    countEvents isBgStop events = 0%nat /\
    (audioContext m = Some msg -> countEvents isBgStart events = 0%nat)
  end.
Proof.
  intros Hctx. cbv zeta.
  rewrite (renderVideoWith_eq m b data Hctx).
  pose proof (setupBackgroundMusic_counts b data) as Hbg.
  cbv zeta in Hbg. destruct Hbg as (B1 & B2 & B3 & B4 & Hother).
  repeat match type of Hother with
         | Forall _ (_ :: _) =>
           let Hp := fresh "Hp" in
           apply Forall_cons_iff in Hother;
           destruct Hother as [[? ?] Hother]
         end.
  destruct (audioContext m) as [msg |].
  { cbn [fst snd]. split; [cbn; lia |].
    split; [left; reflexivity |]. repeat split; reflexivity. }
  destruct (mediaRecorder m) as [msg |].
  { cbn [fst snd]. rewrite !countEvents_cons.
    cbn [isRecorderStart isRecorderStop isBgStart isBgStop isVoiceStart
         isVoiceStop isSetInterval isClearInterval].
    split; [lia |]. split; [right; split; reflexivity |].
    repeat split; try lia. discriminate. }
  rewrite (renderVideo_eq b data Hctx). cbv zeta.
  pose proof (renderSections_counts b (frameSetup (config data))
                (intro data :: parts data) 0) as Hsec.
  cbv zeta in Hsec. destruct Hsec as (S1 & S2 & S3 & S4 & Hsec).
  destruct (snd (renderSections b (frameSetup (config data)) 0
                                (intro data :: parts data)));
    cbn [fst snd];
    repeat rewrite ?countEvents_cons, ?countEvents_app;
    cbn [isRecorderStart isRecorderStop isBgStart isBgStop isVoiceStart
         isVoiceStop isSetInterval isClearInterval];
    change (countEvents isRecorderStart []) with 0%nat;
    change (countEvents isRecorderStop []) with 0%nat;
    change (countEvents isBgStart []) with 0%nat;
    change (countEvents isBgStop []) with 0%nat;
    change (countEvents isVoiceStart []) with 0%nat;
    change (countEvents isVoiceStop []) with 0%nat;
    change (countEvents isSetInterval []) with 0%nat;
    change (countEvents isClearInterval []) with 0%nat;
    repeat split; lia.
Qed.

Lemma render_starts_and_stops_witness :
  let section := mkSection None ["a.png"]%string
                           (Some "voice.wav"%string) None in
  let data := mkProjectData section []
                (Some (mkVideoConfig "16:9" Slow NoTransition 0.2))
                (Some "music.mp3"%string) in
  (countEvents isBgStop (fst (renderVideoWith workingMedia sampleBrowser data))
   = 1%nat /\
   countEvents isVoiceStop
     (fst (renderVideoWith workingMedia sampleBrowser data)) = 1%nat) /\
  countEvents isBgStop
    (fst (renderVideoWith mediaWithoutRecorder sampleBrowser data)) = 0%nat.
Proof.
  intros section data. split.
  - pose proof (render_starts_and_stops workingMedia sampleBrowser data
                  eq_refl) as H.
    cbv zeta in H. destruct H as (_ & H).
    change (snd (renderVideoWith workingMedia sampleBrowser data))
      with ResolvesBlob in H.
    destruct H as (_ & Hvoice & _ & Hbg & _).
    rewrite Hvoice, Hbg. split; reflexivity.
  - pose proof (render_starts_and_stops mediaWithoutRecorder sampleBrowser
                  data eq_refl) as H.
    cbv zeta in H. destruct H as (_ & H).
    change (snd (renderVideoWith mediaWithoutRecorder sampleBrowser data))
      with (Throws "NotSupportedError") in H.
    destruct H as (_ & _ & _ & _ & _ & Hstop & _). exact Hstop.
Defined.

(** ** Splitting and wrapping a title *)

Lemma hasSpace_split (text : string) :
  hasSpace text = false -> split text = [text].
Proof.
  induction text as [| c text IH]; cbn [hasSpace split]; [reflexivity |].
  destruct (Ascii.eqb c " "); cbn [orb]; [discriminate |].
  intros H. rewrite (IH H). reflexivity.
Qed.

(** X11. [split] cuts a text at its spaces and loses nothing: joining the
    words with single spaces gives the text back, no word contains a
    space, and there is one more word than the text has spaces (so the
    empty text has the single word [""], and consecutive spaces give empty
    words). *)
Theorem split_join_roundtrip (text : string) :
  String.concat " " (split text) = text /\
  Forall (fun word => hasSpace word = false) (split text) /\
  List.length (split text) = S (countSpaces text).
Proof.
  induction text as [| c text (IHjoin & IHwords & IHlen)];
    cbn [split countSpaces].
  - repeat split. repeat constructor.
  - destruct (Ascii.eqb c " ") eqn:Hc.
    + apply Ascii.eqb_eq in Hc. subst c.
      pose proof (split_nonempty text) as Hne.
      split; [| split].
      * cbn [String.concat]. destruct (split text) as [| w ws];
          [congruence |].
        rewrite IHjoin. reflexivity.
      * constructor; [reflexivity | exact IHwords].
      * cbn [List.length]. rewrite IHlen. reflexivity.
    + pose proof (split_nonempty text) as Hne.
      destruct (split text) as [| w ws]; [congruence |].
      split; [| split].
      * rewrite <- IHjoin. cbn [String.concat].
        destruct ws; reflexivity.
      * inversion IHwords as [| ? ? Hw Hws]; subst.
        constructor; [| exact Hws].
        cbn [hasSpace]. rewrite Hc, Hw. reflexivity.
      * cbn [List.length] in *. rewrite IHlen. reflexivity.
Qed.

(** X12. A text without spaces (a single word, or the empty text) is never
    wrapped, however wide it is measured: it is drawn as one line, the
    text followed by a space. *)
Theorem single_word_never_wrapped (measure : string -> Q) (maxWidth : Q)
    (text : string) :
  hasSpace text = false ->
  wrapLines measure maxWidth text = [(text ++ " ")%string].
Proof.
  intros Hword. unfold wrapLines. rewrite (hasSpace_split text Hword).
  cbn [wrapWords Nat.ltb Nat.leb]. rewrite andb_false_r. reflexivity.
Qed.

Lemma single_word_never_wrapped_witness :
  wrapLines (fun s => inject_Z (40 * Z.of_nat (String.length s))) 100
            "Supercalifragilistic"
  = ["Supercalifragilistic "%string].
Proof.
  apply single_word_never_wrapped. reflexivity.
Defined.

(** The loop keeps the words in order, in groups. *)
Lemma wrapWords_groups (measure : string -> Q) (maxWidth : Q)
    (words : list string) (n : nat) (cur : list string)
    (groups : list (list string)) :
  Forall (fun g => g <> []) groups ->
  ((0 < n)%nat -> cur <> []) ->
  (n = 0%nat -> cur = []) ->
  exists groups' cur',
    wrapWords measure maxWidth words n (joinWords cur) (map joinWords groups)
    = (joinWords cur', map joinWords groups') /\
    List.concat groups' ++ cur' = List.concat groups ++ cur ++ words /\
    Forall (fun g => g <> []) groups' /\
    (cur <> [] \/ words <> [] -> cur' <> []).
Proof.
  revert n cur groups.
  induction words as [| word rest IH]; intros n cur groups Hgroups Hpos Hzero.
  - exists groups, cur. cbn [wrapWords]. rewrite app_nil_r.
    repeat split; [exact Hgroups |]. intros [H | H]; congruence.
  - cbn [wrapWords].
    assert (Hext : (joinWords cur ++ word ++ " ")%string
                   = joinWords (cur ++ [word])).
    { unfold joinWords. rewrite map_app, joinStrings_app.
      cbn [map joinStrings fold_right]. rewrite append_empty_r. reflexivity. }
    assert (Hnew : (word ++ " ")%string = joinWords [word]).
    { unfold joinWords. cbn [map joinStrings fold_right].
      rewrite append_empty_r. reflexivity. }
    destruct (JS.ltb maxWidth (measure (joinWords cur ++ word ++ " ")%string)
              && (0 <? n)%nat) eqn:Hbreak.
    + apply andb_true_iff in Hbreak. destruct Hbreak as [_ Hn].
      apply Nat.ltb_lt in Hn.
      rewrite Hnew.
      change (map joinWords groups ++ [joinWords cur])
        with (map joinWords groups ++ map joinWords [cur]).
      rewrite <- map_app.
      destruct (IH (S n) [word] (groups ++ [cur])) as
          (groups' & cur' & Heq & Hconcat & Hne & Hcur).
      * apply Forall_app. split; [exact Hgroups |].
        constructor; [apply Hpos; exact Hn | constructor].
      * intros _. discriminate.
      * intros H. discriminate H.
      * exists groups', cur'. split; [exact Heq |].
        split; [| split; [exact Hne |]].
        -- rewrite Hconcat, concat_app. cbn [List.concat].
           rewrite app_nil_r, <- !app_assoc. reflexivity.
        -- intros _. apply Hcur. left. discriminate.
    + rewrite Hext.
      destruct (IH (S n) (cur ++ [word]) groups) as
          (groups' & cur' & Heq & Hconcat & Hne & Hcur).
      * exact Hgroups.
      * intros _. destruct cur; discriminate.
      * intros H. discriminate H.
      * exists groups', cur'. split; [exact Heq |].
        split; [| split; [exact Hne |]].
        -- rewrite Hconcat, <- !app_assoc. reflexivity.
        -- intros _. apply Hcur. left. destruct cur; discriminate.
Qed.

Lemma length_concat_nonempty {A : Type} (groups : list (list A)) :
  Forall (fun g => g <> []) groups ->
  (List.length groups <= List.length (List.concat groups))%nat.
Proof.
  induction 1 as [| g groups Hg _ IH]; cbn [List.concat List.length];
    [lia |].
  rewrite length_app. destruct g; [congruence | cbn [List.length]; lia].
Qed.

(** X13. Word wrapping only breaks between words: the lines drawn are the
    words of the text, in order, cut into consecutive non-empty groups, one
    group per line, each word followed by a space.  There is at least one
    line and never more lines than words. *)
Theorem wrap_breaks_between_words (measure : string -> Q) (maxWidth : Q)
    (text : string) :
  exists groups,
    List.concat groups = split text /\
    Forall (fun g => g <> []) groups /\
    wrapLines measure maxWidth text = map joinWords groups /\
    (1 <= List.length (wrapLines measure maxWidth text)
     <= List.length (split text))%nat.
Proof.
  destruct (wrapWords_groups measure maxWidth (split text) 0 [] []
              (Forall_nil _) ltac:(lia) ltac:(reflexivity))
    as (groups & cur & Heq & Hconcat & Hne & Hcur).
  cbn [List.concat app map] in Hconcat, Heq.
  change (joinWords []) with EmptyString in Heq.
  assert (Hcur' : cur <> [])
    by (apply Hcur; right; apply split_nonempty).
  assert (Hall : Forall (fun g => g <> []) (groups ++ [cur]))
    by (apply Forall_app; split; [exact Hne | repeat constructor; exact Hcur']).
  assert (Hlines : wrapLines measure maxWidth text
                   = map joinWords (groups ++ [cur])).
  { unfold wrapLines. rewrite Heq, map_app. reflexivity. }
  exists (groups ++ [cur]).
  split; [rewrite concat_app; cbn [List.concat]; rewrite app_nil_r;
          exact Hconcat |].
  split; [exact Hall |]. split; [exact Hlines |].
  rewrite Hlines, length_map.
  pose proof (length_concat_nonempty _ Hall) as Hle.
  rewrite concat_app in Hle. cbn [List.concat] in Hle.
  rewrite app_nil_r, Hconcat in Hle.
  rewrite length_app in *. cbn [List.length] in *. lia.
Qed.

(** ** The project archive *)

Lemma safe_char (c : ascii) :
  isSafeChar (lowerChar (if isAlnum c then c else "_"%char)) = true.
Proof. destruct c as [[] [] [] [] [] [] [] []]; vm_compute; reflexivity. Qed.

Lemma safe_char_fixed (c : ascii) :
  isSafeChar c = true -> lowerChar (if isAlnum c then c else "_"%char) = c.
Proof.
  destruct c as [[] [] [] [] [] [] [] []]; vm_compute;
    intros H; try reflexivity; discriminate H.
Qed.

(** X14. The archive name made from a project name has as many characters
    as the project name and consists of lower-case letters, digits and
    underscores only; a name that already does is kept as it is, so
    sanitising twice changes nothing more. *)
Theorem safeName_safe (projectName : string) :
  String.length (safeName projectName) = String.length projectName /\
  allChars isSafeChar (safeName projectName) = true /\
  (allChars isSafeChar projectName = true ->
   safeName projectName = projectName) /\
  safeName (safeName projectName) = safeName projectName.
Proof.
  assert (Hlen : String.length (safeName projectName)
                 = String.length projectName).
  { unfold safeName, toLowerCase, replaceNonAlnum.
    induction projectName as [| c s IH]; cbn [mapString String.length];
      [reflexivity | rewrite IH; reflexivity]. }
  assert (Hsafe : forall s, allChars isSafeChar (safeName s) = true).
  { unfold safeName, toLowerCase, replaceNonAlnum.
    induction s as [| c s IH]; cbn [mapString allChars]; [reflexivity |].
    rewrite safe_char, IH. reflexivity. }
  assert (Hfixed : forall s, allChars isSafeChar s = true -> safeName s = s).
  { unfold safeName, toLowerCase, replaceNonAlnum.
    induction s as [| c s IH]; cbn [mapString allChars]; [reflexivity |].
    intros H. apply andb_true_iff in H. destruct H as [Hc Hs].
    rewrite (safe_char_fixed c Hc), (IH Hs). reflexivity. }
  split; [exact Hlen |]. split; [apply Hsafe |]. split; [apply Hfixed |].
  apply Hfixed. apply Hsafe.
Qed.

Lemma safeName_safe_witness :
  safeName "tube_automator_7" = "tube_automator_7"%string /\
  safeName "TubeAutomator Project!" = "tubeautomator_project_"%string.
Proof.
  split.
  - destruct (safeName_safe "tube_automator_7") as (_ & _ & Hkept & _).
    apply Hkept. reflexivity.
  - reflexivity.
Defined.

Lemma splitOn_without (sep : ascii) (text : string) :
  includesChar sep text = false -> splitOn sep text = [text].
Proof.
  induction text as [| c text IH]; cbn [includesChar splitOn];
    [reflexivity |].
  destruct (Ascii.eqb c sep); cbn [orb]; [discriminate |].
  intros H. rewrite (IH H). reflexivity.
Qed.

Lemma splitOn_nonempty (sep : ascii) (text : string) : splitOn sep text <> [].
Proof.
  destruct text as [| c text]; cbn [splitOn]; [discriminate |].
  destruct (Ascii.eqb c sep); [discriminate |].
  destruct (splitOn sep text); discriminate.
Qed.

Lemma splitOn_at (sep : ascii) (before after : string) :
  includesChar sep before = false ->
  splitOn sep (before ++ String sep after) = before :: splitOn sep after.
Proof.
  induction before as [| c before IH]; cbn [includesChar append splitOn].
  - intros _. rewrite Ascii.eqb_refl. reflexivity.
  - destruct (Ascii.eqb c sep); cbn [orb]; [discriminate |].
    intros H. rewrite (IH H). reflexivity.
Qed.

Lemma splitOn_with (sep : ascii) (text : string) :
  includesChar sep text = true ->
  exists w1 w2 ws, splitOn sep text = w1 :: w2 :: ws.
Proof.
  induction text as [| c text IH]; cbn [includesChar splitOn];
    [discriminate |].
  destruct (Ascii.eqb c sep); cbn [orb].
  - intros _. pose proof (splitOn_nonempty sep text) as Hne.
    destruct (splitOn sep text) as [| w ws]; [congruence |].
    exists EmptyString, w, ws. reflexivity.
  - intros H. destruct (IH H) as (w1 & w2 & ws & Heq).
    rewrite Heq. exists (String c w1), w2, ws. reflexivity.
Qed.

(** X15. The payload taken from a data URI for the archive is the text
    between the first and the second comma: for
    [prefix,payload] with no comma in the prefix nor in the payload it is
    the payload, and it is [undefined] exactly when the string has no
    comma at all. *)
Theorem dataAfterComma_payload (uri : string) :
  (dataAfterComma uri = None <-> includesChar ","%char uri = false) /\
  (forall prefix payload,
     includesChar ","%char prefix = false ->
     includesChar ","%char payload = false ->
     dataAfterComma (prefix ++ String ","%char payload) = Some payload).
Proof.
  split.
  - unfold dataAfterComma.
    destruct (includesChar "," uri) eqn:Hc.
    + destruct (splitOn_with _ _ Hc) as (w1 & w2 & ws & Heq).
      rewrite Heq. cbn [nth_error]. split; discriminate.
    + rewrite (splitOn_without _ _ Hc). cbn [nth_error].
      split; reflexivity.
  - intros prefix payload Hprefix Hpayload. unfold dataAfterComma.
    rewrite (splitOn_at _ _ _ Hprefix), (splitOn_without _ _ Hpayload).
    reflexivity.
Qed.

Lemma dataAfterComma_payload_witness :
  dataAfterComma "data:image/png;base64,iVBORw0KGgo=" = Some "iVBORw0KGgo="%string.
Proof.
  destruct (dataAfterComma_payload EmptyString) as [_ Hpayload].
  apply (Hpayload "data:image/png;base64"%string "iVBORw0KGgo="%string);
    reflexivity.
Defined.

Lemma foldersOf_app (l1 l2 : list ZipCall) :
  foldersOf (l1 ++ l2) = foldersOf l1 ++ foldersOf l2.
Proof. unfold foldersOf. apply flat_map_app. Qed.

Lemma filesIn_app (folder : string) (l1 l2 : list ZipCall) :
  filesIn folder (l1 ++ l2) = filesIn folder l1 ++ filesIn folder l2.
Proof. unfold filesIn. apply flat_map_app. Qed.

Lemma imageFiles_pictures (folder : string) (images : list string)
    (idx : nat) :
  filter isPicture (imageFiles folder images idx)
    = imageFiles folder images idx /\
  List.length (imageFiles folder images idx)
    = List.length (filter JS.nonEmpty images) /\
  foldersOf (imageFiles folder images idx) = [] /\
  ~ In "title_card_overlay.png"%string
       (filesIn folder (imageFiles folder images idx)).
Proof.
  revert idx. induction images as [| img rest IH]; intros idx.
  - cbn. repeat split; try reflexivity. intros H. exact H.
  - destruct (IH (S idx)) as (Hpic & Hlen & Hfold & Hcard).
    cbn [imageFiles filter].
    destruct (JS.nonEmpty img); cbn [app].
    + split; [| split; [| split]].
      * cbn [filter isPicture String.eqb Ascii.eqb Bool.eqb negb append].
        rewrite Hpic. reflexivity.
      * cbn [List.length]. rewrite Hlen. reflexivity.
      * exact Hfold.
      * cbn [filesIn flat_map]. rewrite String.eqb_refl.
        cbn [app In]. intros [H | H]; [discriminate H |].
        apply Hcard. exact H.
    + repeat split; assumption.
Qed.

Lemma imageFiles_numbered (folder : string) (images : list string)
    (idx k : nat) (img : string) :
  nth_error images k = Some img -> JS.nonEmpty img = true ->
  In (AddFile (Some folder) ("image_" ++ decimal (idx + k + 1) ++ ".png")
              (dataAfterComma img) true)
     (imageFiles folder images idx).
Proof.
  revert idx k. induction images as [| i0 rest IH]; intros idx k Hk Himg.
  - destruct k; discriminate Hk.
  - cbn [imageFiles]. apply in_or_app.
    destruct k as [| k]; cbn [nth_error] in Hk.
    + injection Hk as ->. rewrite Himg. left. left.
      rewrite Nat.add_0_r. reflexivity.
    + right. replace (idx + S k + 1)%nat with (S idx + k + 1)%nat by lia.
      apply IH; assumption.
Qed.

Lemma validSrcs_length (section : GeneratedSection) :
  List.length (validSrcs section)
  = ((if JS.truthy (titleCard section) then 1 else 0)
     + List.length (filter JS.nonEmpty (generatedImages section)))%nat.
Proof.
  unfold validSrcs. rewrite filter_app, length_app.
  destruct (titleCard section) as [[| c card] |]; reflexivity.
Qed.

(** X16. What [addSectionToZip] puts into a section's folder: one folder;
    the script; each non-empty generated image under its position in the
    list, counted from 1 (empty entries leave gaps in the numbering); and,
    when title cards are included, exactly as many pictures as
    [renderVideo] shows for the section.  When title cards are not
    included (the intro) the pictures are the non-empty generated images
    and no title card file is written, even if the section has one. *)
Theorem zip_section_pictures (folderName : string) (section : ScriptSection)
    (includeTitleCard : bool) :
  let calls := addSectionToZip folderName section includeTitleCard in
  foldersOf calls = [folderName] /\
  In (AddFile (Some folderName) "script.txt" (Some (content section)) false)
     calls /\
  (forall idx img,
     nth_error (generatedImages (assets section)) idx = Some img ->
     JS.nonEmpty img = true ->
     In (AddFile (Some folderName) ("image_" ++ decimal (idx + 1) ++ ".png")
                 (dataAfterComma img) true) calls) /\
  (includeTitleCard = true ->
     List.length (filter isPicture calls)
     = List.length (validSrcs (assets section))) /\
  (includeTitleCard = false ->
     List.length (filter isPicture calls)
     = List.length (filter JS.nonEmpty (generatedImages (assets section))) /\
     ~ In "title_card_overlay.png"%string (filesIn folderName calls)).
Proof.
  cbv zeta. unfold addSectionToZip.
  destruct (imageFiles_pictures folderName
              (generatedImages (assets section)) 0)
    as (Hpic & Hlen & Hfold & Hcard).
  set (audio := match generatedAudio (assets section) with
                | Some a => if JS.nonEmpty a then _ else []
                | None => []
                end).
  assert (Haudio : filter isPicture audio = [] /\ foldersOf audio = [] /\
                   ~ In "title_card_overlay.png"%string
                        (filesIn folderName audio)).
  { unfold audio. destruct (generatedAudio (assets section)) as [a |];
      [destruct (JS.nonEmpty a) |]; cbn; rewrite ?String.eqb_refl;
      repeat split; try reflexivity; cbn; intuition discriminate. }
  destruct Haudio as (Ha1 & Ha2 & Ha3).
  split; [| split; [| split; [| split]]].
  - rewrite !foldersOf_app, Ha2, Hfold.
    destruct (titleCard (assets section)) as [card |];
      [destruct (includeTitleCard && JS.nonEmpty card) |]; reflexivity.
  - cbn [app]. right. left. reflexivity.
  - intros idx img Hnth Himg. apply in_or_app. right.
    apply in_or_app. right. apply in_or_app. right.
    apply (imageFiles_numbered folderName _ 0 idx img Hnth Himg).
  - intros ->. cbn [app filter isPicture].
    rewrite !filter_app, !length_app, Ha1, Hpic, Hlen, validSrcs_length.
    destruct (titleCard (assets section)) as [[| c card] |]; reflexivity.
  - intros ->. cbn [andb]. split.
    + cbn [app filter isPicture].
      rewrite !filter_app, !length_app, Ha1, Hpic, Hlen.
      destruct (titleCard (assets section)); reflexivity.
    + rewrite !filesIn_app. intros Hin.
      apply in_app_or in Hin. destruct Hin as [Hin | Hin].
      { cbn [filesIn flat_map] in Hin. rewrite String.eqb_refl in Hin.
        cbn [app In] in Hin. destruct Hin as [H | H]; [discriminate H | exact H]. }
      apply in_app_or in Hin. destruct Hin as [Hin | Hin];
        [apply Ha3; exact Hin |].
      apply in_app_or in Hin. destruct Hin as [Hin | Hin];
        [| apply Hcard; exact Hin].
      destruct (titleCard (assets section)); exact Hin.
Qed.

Lemma zip_section_pictures_witness :
  let section :=
    mkScriptSection
      (mkSection (Some "One"%string)
                 ["data:image/png;base64,AAAA"; EmptyString;
                  "data:image/png;base64,BBBB"]%string
                 None (Some "data:image/png;base64,CCCC"%string))
      "Script" [] in
  List.length (filter isPicture (addSectionToZip "02_Part1_One" section true))
    = 3%nat /\
  List.length (filter isPicture (addSectionToZip "01_Intro" section false))
    = 2%nat /\
  In (AddFile (Some "02_Part1_One"%string) "image_3.png"
              (Some "BBBB"%string) true)
     (addSectionToZip "02_Part1_One" section true).
Proof.
  intros section.
  destruct (zip_section_pictures "02_Part1_One" section true)
    as (_ & _ & Himg & Hpart & _).
  destruct (zip_section_pictures "01_Intro" section false)
    as (_ & _ & _ & _ & Hintro).
  split; [rewrite (Hpart eq_refl); reflexivity |].
  split; [rewrite (proj1 (Hintro eq_refl)); reflexivity |].
  apply (Himg 2%nat "data:image/png;base64,BBBB"%string); reflexivity.
Defined.

Lemma zip_section_folder (folderName : string) (section : ScriptSection)
    (includeTitleCard : bool) :
  foldersOf (addSectionToZip folderName section includeTitleCard)
    = [folderName] /\
  hd_error (addSectionToZip folderName section includeTitleCard)
    = Some (MkFolder folderName).
Proof.
  split; [| reflexivity].
  unfold addSectionToZip. rewrite !foldersOf_app.
  destruct (imageFiles_pictures folderName
              (generatedImages (assets section)) 0) as (_ & _ & -> & _).
  destruct (generatedAudio (assets section)) as [a |];
    [destruct (JS.nonEmpty a) |];
    (destruct (titleCard (assets section)) as [card |];
     [destruct (includeTitleCard && JS.nonEmpty card) |]); reflexivity.
Qed.

Lemma string_of_uint_digits (d : Decimal.uint) :
  allChars isDigit (NilEmpty.string_of_uint d) = true.
Proof. induction d; cbn [NilEmpty.string_of_uint allChars]; auto. Qed.

Lemma decimal_inj (a b : nat) : decimal a = decimal b -> a = b.
Proof.
  unfold decimal. intros H.
  assert (Hu : Some (Nat.to_uint a) = Some (Nat.to_uint b)).
  { rewrite <- !NilEmpty.usu. rewrite H. reflexivity. }
  injection Hu as Hu.
  rewrite <- (DecimalNat.Unsigned.of_to a), <- (DecimalNat.Unsigned.of_to b).
  rewrite Hu. reflexivity.
Qed.

(** Digits followed by an underscore determine the digits. *)
Lemma digits_prefix (d1 d2 r1 r2 : string) :
  allChars isDigit d1 = true -> allChars isDigit d2 = true ->
  (d1 ++ String "_" r1)%string = (d2 ++ String "_" r2)%string -> d1 = d2.
Proof.
  revert d2. induction d1 as [| c1 d1 IH]; intros d2 H1 H2 Heq;
    destruct d2 as [| c2 d2]; cbn [append allChars] in *.
  - reflexivity.
  - injection Heq as Hc _. subst c2. discriminate H2.
  - injection Heq as Hc _. subst c1. discriminate H1.
  - injection Heq as Hc Heq. subst c2.
    apply andb_true_iff in H1. apply andb_true_iff in H2.
    f_equal. apply (IH d2); tauto.
Qed.

Lemma partFolderName_index (i j : nat) (t t' : string) :
  partFolderName i t = partFolderName j t' -> i = j.
Proof.
  unfold partFolderName. cbn [append]. intros H. injection H as H.
  assert (Hd : decimal (i + 2) = decimal (j + 2)).
  { apply (digits_prefix _ _ _ _ (string_of_uint_digits _)
             (string_of_uint_digits _) H). }
  apply decimal_inj in Hd. lia.
Qed.

Lemma partFolderName_not_intro (i : nat) (t : string) :
  partFolderName i t <> "01_Intro"%string.
Proof.
  unfold partFolderName. cbn [append]. intros H. injection H as H.
  assert (Hd : decimal (i + 2) = decimal 1).
  { eapply (digits_prefix (decimal (i + 2)) (decimal 1));
      [apply string_of_uint_digits | reflexivity | exact H]. }
  apply decimal_inj in Hd. lia.
Qed.

Lemma addPartsToZip_folders (parts : list ScriptSection) (index : nat) :
  NoDup (foldersOf (fst (addPartsToZip parts index))) /\
  forall f, In f (foldersOf (fst (addPartsToZip parts index))) ->
    exists k t, (index <= k)%nat /\ f = partFolderName k t.
Proof.
  revert index. induction parts as [| part rest IH]; intros index.
  - cbn. split; [constructor | intros f []].
  - cbn [addPartsToZip].
    destruct (title (assets part)) as [t |];
      [| cbn; split; [constructor | intros f []]].
    destruct (IH (S index)) as (Hnodup & Hnames).
    destruct (addPartsToZip rest (S index)) as [calls completed].
    cbn [fst] in *. rewrite foldersOf_app.
    destruct (zip_section_folder (partFolderName index t) part true) as [-> _].
    cbn [app]. split.
    + constructor; [| exact Hnodup].
      intros Hin. destruct (Hnames _ Hin) as (k & t' & Hk & Heq).
      apply partFolderName_index in Heq. lia.
    + intros f [<- | Hin].
      * exists index, t. split; [lia | reflexivity].
      * destruct (Hnames f Hin) as (k & t' & Hk & Heq).
        exists k, t'. split; [lia | exact Heq].
Qed.

(** X17. The folders [downloadProjectZip] makes all have different names:
    the intro folder and one folder per part, numbered by the position of
    the part, whatever the titles (also equal or empty ones); so no
    section's files overwrite another's. *)
Theorem zip_folders_distinct (data : Project) (projectName : string) :
  NoDup (foldersOf (fst (downloadProjectZip data projectName))) /\
  hd_error (foldersOf (fst (downloadProjectZip data projectName)))
    = Some "01_Intro"%string /\
  (forall index part partTitle,
     nth_error (projectParts data) index = Some part ->
     title (assets part) = Some partTitle ->
     snd (downloadProjectZip data projectName) <> None ->
     In (partFolderName index partTitle)
        (foldersOf (fst (downloadProjectZip data projectName)))).
Proof.
  unfold downloadProjectZip.
  destruct (addPartsToZip_folders (projectParts data) 0) as (Hnodup & Hnames).
  assert (Hin : forall parts index k part partTitle,
            nth_error parts k = Some part ->
            title (assets part) = Some partTitle ->
            snd (addPartsToZip parts index) = true ->
            In (partFolderName (index + k) partTitle)
               (foldersOf (fst (addPartsToZip parts index)))).
  { intros ps. induction ps as [| p rest IH];
      intros index k part partTitle Hk Ht Hc.
    - destruct k; discriminate Hk.
    - cbn [addPartsToZip] in *.
      destruct (title (assets p)) as [t |] eqn:Hp; [| discriminate Hc].
      specialize (IH (S index)).
      destruct (addPartsToZip rest (S index)) as [calls completed].
      cbn [fst snd] in *. rewrite foldersOf_app.
      destruct (zip_section_folder (partFolderName index t) p true)
        as [-> _].
      destruct k as [| k]; cbn [nth_error] in Hk.
      + injection Hk as ->. rewrite Hp in Ht. injection Ht as ->.
        rewrite Nat.add_0_r. left. reflexivity.
      + right. replace (index + S k)%nat with (S index + k)%nat by lia.
        apply (IH k part partTitle Hk Ht Hc). }
  specialize (Hin (projectParts data) 0%nat).
  destruct (addPartsToZip (projectParts data) 0) as [partCalls completed].
  cbn [fst snd] in *.
  assert (Hfolders :
            foldersOf
              ([AddFile None "project_details.txt"
                        (Some (metaContent data projectName)) false]
               ++ match thumbnailImage data with
                  | Some image =>
                    if JS.nonEmpty image
                    then [AddFile None "thumbnail.png" (dataAfterComma image)
                                  true]
                    else []
                  | None => []
                  end
               ++ addSectionToZip "01_Intro" (projectIntro data) false
               ++ partCalls)
            = "01_Intro"%string :: foldersOf partCalls).
  { rewrite !foldersOf_app.
    destruct (zip_section_folder "01_Intro" (projectIntro data) false)
      as [-> _].
    destruct (thumbnailImage data) as [image |];
      [destruct (JS.nonEmpty image) |]; reflexivity. }
  rewrite Hfolders. split; [| split].
  - constructor; [| exact Hnodup].
    intros Hintro. destruct (Hnames _ Hintro) as (k & t & _ & Heq).
    symmetry in Heq. apply partFolderName_not_intro in Heq. exact Heq.
  - reflexivity.
  - intros index part partTitle Hk Ht Hsaved. right.
    apply (Hin index part partTitle Hk Ht).
    destruct completed; [reflexivity | congruence].
Qed.

(** [downloadProjectZip] reaches [zip.generateAsync] exactly when every
    part has a title; the project details are the first file added. *)
Lemma downloadProjectZip_completed (data : Project) (projectName : string) :
  (snd (downloadProjectZip data projectName)
     = Some (safeName projectName ++ "_package.zip")%string <->
   Forall (fun part => title (assets part) <> None) (projectParts data)) /\
  (snd (downloadProjectZip data projectName) = None <->
   Exists (fun part => title (assets part) = None) (projectParts data)) /\
  hd_error (fst (downloadProjectZip data projectName))
    = Some (AddFile None "project_details.txt"
                    (Some (metaContent data projectName)) false).
Proof.
  assert (Hparts : forall parts index,
            (snd (addPartsToZip parts index) = true <->
             Forall (fun part => title (assets part) <> None) parts) /\
            (snd (addPartsToZip parts index) = false <->
             Exists (fun part => title (assets part) = None) parts)).
  { intros ps. induction ps as [| p rest IH]; intros index.
    - cbn. split; split; try discriminate; intros H;
        [constructor | reflexivity | inversion H].
    - cbn [addPartsToZip].
      destruct (title (assets p)) as [t |] eqn:Hp.
      + destruct (IH (S index)) as [IHall IHsome].
        destruct (addPartsToZip rest (S index)) as [calls completed].
        cbn [snd] in *. split.
        * rewrite IHall. split; intros H.
          -- constructor; [congruence | exact H].
          -- inversion H. assumption.
        * rewrite IHsome. split; intros H.
          -- apply Exists_cons_tl. exact H.
          -- inversion H as [? ? Hhd | ? ? Htl]; [congruence | exact Htl].
      + cbn [snd]. split.
        * split; [discriminate |]. intros H. inversion H. congruence.
        * split; [| reflexivity]. intros _. apply Exists_cons_hd. exact Hp. }
  destruct (Hparts (projectParts data) 0%nat) as [Hall Hsome].
  unfold downloadProjectZip.
  destruct (addPartsToZip (projectParts data) 0) as [calls completed].
  cbn [fst snd] in *.
  split; [| split; [| reflexivity]].
  - rewrite <- Hall. destruct completed; split; congruence.
  - rewrite <- Hsome. destruct completed; split; congruence.
Qed.

(** X18. [downloadProjectZip] saves the archive, under the sanitised
    project name followed by [_package.zip], exactly when every part has a
    title (possibly empty) and the promise of [zip.generateAsync] resolves
    for the archive that was built.  A part whose title is [undefined]
    makes the function throw before [generateAsync] is called, and a
    rejected promise (as for a payload that is not base64) leaves the
    archive built and nothing saved.  The calls made on the archive do not
    depend on the promise, and the project details are the first file
    added. *)
Theorem zip_saved_iff_titles (generateAsync : list ZipCall -> bool)
    (data : Project) (projectName : string) :
  let result := downloadProjectZipWith generateAsync data projectName in
  fst result = fst (downloadProjectZip data projectName) /\
  (snd result = Some (safeName projectName ++ "_package.zip")%string <->
   Forall (fun part => title (assets part) <> None) (projectParts data) /\
   generateAsync (fst result) = true) /\
  (snd result = None <->
   Exists (fun part => title (assets part) = None) (projectParts data) \/
   generateAsync (fst result) = false) /\
  (forall name, snd result = Some name ->
     name = (safeName projectName ++ "_package.zip")%string) /\
  hd_error (fst result)
    = Some (AddFile None "project_details.txt"
                    (Some (metaContent data projectName)) false).
Proof.
  destruct (downloadProjectZip_completed data projectName)
    as (Hall & Hsome & Hhead).
  assert (Hname : forall name,
            snd (downloadProjectZip data projectName) = Some name ->
            name = (safeName projectName ++ "_package.zip")%string).
  { intros name. unfold downloadProjectZip.
    destruct (addPartsToZip (projectParts data) 0) as [calls [|]];
      cbn [snd]; congruence. }
  unfold downloadProjectZipWith.
  destruct (downloadProjectZip data projectName) as [calls archiveName].
  cbn [fst snd] in *.
  split; [reflexivity |].
  destruct archiveName as [name |].
  - pose proof (Hname name eq_refl) as ->.
    assert (Htitled : Forall (fun part => title (assets part) <> None)
                             (projectParts data))
      by (apply Hall; reflexivity).
    assert (Hnone : ~ Exists (fun part => title (assets part) = None)
                             (projectParts data))
      by (intros H; apply Hsome in H; discriminate H).
    destruct (generateAsync calls).
    + split; [split; [intros _; split; [exact Htitled | reflexivity]
                     | reflexivity] |].
      split.
      * split; [discriminate |]. intros [H | H]; [contradiction | discriminate].
      * split; [intros n Hn; congruence | exact Hhead].
    + split; [split; [discriminate | intros [_ H]; discriminate H] |].
      split.
      * split; [intros _; right; reflexivity | reflexivity].
      * split; [discriminate | exact Hhead].
  - split.
    + split; [discriminate |]. intros [Htitled _].
      apply Hall in Htitled. discriminate Htitled.
    + split.
      * split; [| reflexivity]. intros _. left. apply Hsome. reflexivity.
      * split; [discriminate | exact Hhead].
Qed.

Lemma zip_saved_iff_titles_witness :
  let section := mkScriptSection (mkSection (Some "One"%string) [] None None)
                                 "text" [] in
  let data := mkProject section [section] [] "prompt" None None None None in
  snd (downloadProjectZipWith (fun _ => true) data "My Project")
    = Some "my_project_package.zip"%string /\
  snd (downloadProjectZipWith (fun _ => false) data "My Project") = None.
Proof.
  intros section data. split.
  - apply (zip_saved_iff_titles (fun _ => true) data "My Project").
    split; [| reflexivity]. repeat constructor; discriminate.
  - apply (zip_saved_iff_titles (fun _ => false) data "My Project").
    right. reflexivity.
Defined.

(** ** The WAV header *)

Lemma uintLE_le32 (value : Z) :
  uintLE (le32 value) = (value mod 4294967296)%Z.
Proof.
  unfold le32. cbn [uintLE].
  pose proof (Z.div_mod value 256 ltac:(lia)) as H0.
  pose proof (Z.div_mod (value / 256) 256 ltac:(lia)) as H1.
  pose proof (Z.div_mod (value / 65536) 256 ltac:(lia)) as H2.
  pose proof (Z.div_mod value 4294967296 ltac:(lia)) as H4.
  pose proof (Z.mod_pos_bound value 256 ltac:(lia)) as B0.
  pose proof (Z.mod_pos_bound (value / 256) 256 ltac:(lia)) as B1.
  pose proof (Z.mod_pos_bound (value / 65536) 256 ltac:(lia)) as B2.
  pose proof (Z.mod_pos_bound (value / 16777216) 256 ltac:(lia)) as B3.
  replace (value / 65536)%Z with (value / 256 / 256)%Z in *
    by (rewrite Z.div_div by lia; reflexivity).
  replace (value / 16777216)%Z with (value / 256 / 256 / 256)%Z in *
    by (rewrite !Z.div_div by lia; reflexivity).
  pose proof (Z.div_mod (value / 256 / 256 / 256) 256 ltac:(lia)) as H3.
  apply (Z.mod_unique_pos value 4294967296
           (value / 256 / 256 / 256 / 256)); lia.
Qed.

(** The header, byte for byte. *)
Lemma wavHeader_bytes (n : Z) :
  wavHeader n =
  Some (charCodes "RIFF" ++ le32 (n + 36) ++ charCodes "WAVE"
        ++ charCodes "fmt " ++ le32 16 ++ le16 1 ++ le16 1
        ++ le32 24000 ++ le32 48000 ++ le16 2 ++ le16 16
        ++ charCodes "data" ++ le32 n).
Proof.
  unfold wavHeader. cbv zeta.
  replace (Z.of_nat 44 + n - 8)%Z with (n + 36)%Z by lia.
  reflexivity.
Qed.

Lemma wav_header_built (n : Z) :
  exists header, wavHeader n = Some header /\ List.length header = 44%nat.
Proof. eexists. split; [apply wavHeader_bytes | reflexivity]. Qed.

(** X19. The header written by [addWavHeader] for [n] bytes of samples is
    always built (no write falls outside the buffer) and has 44 bytes, each
    in [[0, 256)]: ["RIFF"], the little-endian size [n + 36], ["WAVE"],
    ["fmt "], chunk size 16, PCM format 1, 1 channel, 24000 samples per
    second, 48000 bytes per second, block alignment 2, 16 bits per sample,
    ["data"] and the little-endian data size [n]; both sizes are stored
    modulo 2^32 and are exact for every [n] below 2^32 - 36. *)
Theorem wav_header_layout (n : Z) :
  exists header,
    wavHeader n = Some header /\
    List.length header = 44%nat /\
    Forall (fun byte => (0 <= byte < 256)%Z) header /\
    fromCharCodes (firstn 4 header) = "RIFF"%string /\
    uintLE (firstn 4 (skipn 4 header)) = ((n + 36) mod 4294967296)%Z /\
    fromCharCodes (firstn 8 (skipn 8 header)) = "WAVEfmt "%string /\
    uintLE (firstn 4 (skipn 16 header)) = 16%Z /\
    uintLE (firstn 2 (skipn 20 header)) = 1%Z /\
    uintLE (firstn 2 (skipn 22 header)) = 1%Z /\
    uintLE (firstn 4 (skipn 24 header)) = 24000%Z /\
    uintLE (firstn 4 (skipn 28 header)) = 48000%Z /\
    uintLE (firstn 2 (skipn 32 header)) = 2%Z /\
    uintLE (firstn 2 (skipn 34 header)) = 16%Z /\
    fromCharCodes (firstn 4 (skipn 36 header)) = "data"%string /\
    uintLE (skipn 40 header) = (n mod 4294967296)%Z /\
    ((0 <= n < 4294967296 - 36)%Z ->
     uintLE (firstn 4 (skipn 4 header)) = (n + 36)%Z /\
     uintLE (skipn 40 header) = n).
Proof.
  eexists. split; [apply wavHeader_bytes |].
  assert (Hriff : uintLE (le32 (n + 36)) = ((n + 36) mod 4294967296)%Z)
    by apply uintLE_le32.
  assert (Hdata : uintLE (le32 n) = (n mod 4294967296)%Z)
    by apply uintLE_le32.
  split; [reflexivity |].
  split.
  { unfold le32, le16. cbn [charCodes app].
    repeat (constructor; [first [apply Z.mod_pos_bound; lia
                               | vm_compute; split; [discriminate | reflexivity]] |]).
    constructor. }
  split; [reflexivity |]. split; [exact Hriff |].
  split; [reflexivity |]. split; [reflexivity |]. split; [reflexivity |].
  split; [reflexivity |]. split; [reflexivity |]. split; [reflexivity |].
  split; [reflexivity |]. split; [reflexivity |]. split; [reflexivity |].
  split; [exact Hdata |].
  intros Hn. split.
  - change (uintLE (firstn 4 (skipn 4 _))) with (uintLE (le32 (n + 36))).
    rewrite Hriff. apply Z.mod_small. lia.
  - change (uintLE (skipn 40 _)) with (uintLE (le32 n)).
    rewrite Hdata. apply Z.mod_small. lia.
Qed.

Lemma wav_header_layout_witness :
  exists header,
    wavHeader 48000 = Some header /\
    uintLE (firstn 4 (skipn 4 header)) = 48036%Z /\
    uintLE (skipn 40 header) = 48000%Z.
Proof.
  destruct (wav_header_layout 48000)
    as (header & Heq & _ & _ & _ & _ & _ & _ & _ & _ & _ & _ & _ & _ & _ & _
        & Hexact).
  exists header. split; [exact Heq |].
  apply Hexact. lia.
Defined.

(** ** Chunked conversion *)

Lemma fromCharCodes_app (l1 l2 : list Z) :
  fromCharCodes (l1 ++ l2) = (fromCharCodes l1 ++ fromCharCodes l2)%string.
Proof.
  induction l1 as [| b l1 IH]; cbn [app fromCharCodes append];
    [| rewrite IH]; reflexivity.
Qed.

Lemma fromCharCodes_charCodes (s : string) : fromCharCodes (charCodes s) = s.
Proof.
  induction s as [| c s IH]; cbn [charCodes fromCharCodes]; [reflexivity |].
  rewrite Nat2Z.id, ascii_nat_embedding, IH. reflexivity.
Qed.

Lemma charCodes_length (s : string) :
  List.length (charCodes s) = String.length s.
Proof.
  induction s as [| c s IH]; cbn [charCodes List.length String.length];
    [| rewrite IH]; reflexivity.
Qed.

Lemma fromCharCodes_length (l : list Z) :
  String.length (fromCharCodes l) = List.length l.
Proof.
  induction l as [| b l IH]; cbn [fromCharCodes List.length String.length];
    [| rewrite IH]; reflexivity.
Qed.

Lemma append_length (s1 s2 : string) :
  String.length (s1 ++ s2) = (String.length s1 + String.length s2)%nat.
Proof.
  induction s1 as [| c s1 IH]; cbn [append String.length Nat.add];
    [| rewrite IH]; reflexivity.
Qed.

(** A chunk and what follows it are what was left. *)
Lemma subarray_skipn (l : list Z) (i c : nat) :
  subarray l i (Nat.min (i + c) (List.length l)) ++ skipn (i + c) l
  = skipn i l.
Proof.
  unfold subarray.
  rewrite (Nat.add_comm i c), <- skipn_skipn.
  set (s := skipn i l).
  assert (Hlen : List.length s = (List.length l - i)%nat)
    by (unfold s; apply length_skipn).
  destruct (Nat.le_gt_cases c (List.length s)) as [Hle | Hgt].
  - replace (Nat.min (c + i) (List.length l) - i)%nat with c by lia.
    apply firstn_skipn.
  - replace (Nat.min (c + i) (List.length l) - i)%nat
      with (List.length s) by lia.
    rewrite firstn_all, skipn_all2 by lia. apply app_nil_r.
Qed.

(** With enough iterations the loop converts everything from [i] on. *)
Lemma chunkLoop_all (fuel : nat) (l : list Z) (i : nat) (binary : string) :
  (List.length l - i <= fuel)%nat ->
  chunkLoop fuel l i binary = (binary ++ fromCharCodes (skipn i l))%string.
Proof.
  revert i binary. induction fuel as [| fuel IH]; intros i binary Hfuel.
  - cbn [chunkLoop]. rewrite skipn_all2 by lia.
    cbn [fromCharCodes]. rewrite append_empty_r. reflexivity.
  - cbn [chunkLoop]. destruct (i <? List.length l)%nat eqn:Hi.
    + apply Nat.ltb_lt in Hi. cbv zeta.
      assert (Hc : (1 <= chunkSize)%nat) by (unfold chunkSize; lia).
      rewrite IH by lia.
      rewrite append_assoc, <- fromCharCodes_app, subarray_skipn.
      reflexivity.
    + apply Nat.ltb_ge in Hi. rewrite skipn_all2 by lia.
      cbn [fromCharCodes]. rewrite append_empty_r. reflexivity.
Qed.

Lemma addWavHeader_result_eq (atob : string -> option string)
    (btoa : string -> string) (base64Pcm : string) :
  (atob base64Pcm = None -> addWavHeader atob btoa base64Pcm = None) /\
  (forall binaryString,
     atob base64Pcm = Some binaryString ->
     exists header,
       wavHeader (Z.of_nat (String.length binaryString)) = Some header /\
       addWavHeader atob btoa base64Pcm
       = Some (btoa (fromCharCodes header ++ binaryString)%string)).
Proof.
  split.
  - intros Hatob. unfold addWavHeader. rewrite Hatob. reflexivity.
  - intros binaryString Hatob.
    destruct (wav_header_built (Z.of_nat (String.length binaryString)))
      as (header & Hheader & Hlen).
    exists header. split; [exact Hheader |].
    unfold addWavHeader. rewrite Hatob, charCodes_length, Hheader.
    cbv zeta. rewrite chunkLoop_all by lia.
    cbn [skipn append].
    rewrite fromCharCodes_app, fromCharCodes_charCodes. reflexivity.
Qed.

(** X20. [addWavHeader] throws only when [atob] rejects its input.
    Otherwise its result is the base64 encoding of the 44-byte header for
    the decoded length followed by the decoded samples, byte for byte: the
    conversion in chunks of 8192 bytes loses, repeats and reorders
    nothing, whatever the length. *)
Theorem addWavHeader_result (atob : string -> option string)
    (btoa : string -> string) (base64Pcm : string) :
  (atob base64Pcm = None -> addWavHeader atob btoa base64Pcm = None) /\
  (forall binaryString,
     atob base64Pcm = Some binaryString ->
     exists header,
       wavHeader (Z.of_nat (String.length binaryString)) = Some header /\
       addWavHeader atob btoa base64Pcm
       = Some (btoa (fromCharCodes header ++ binaryString)%string) /\
       String.length (fromCharCodes header ++ binaryString)
       = (44 + String.length binaryString)%nat).
Proof.
  destruct (addWavHeader_result_eq atob btoa base64Pcm) as [Hfail Hok].
  split; [exact Hfail |].
  intros binaryString Hatob.
  destruct (Hok binaryString Hatob) as (header & Hheader & Heq).
  exists header. split; [exact Hheader |]. split; [exact Heq |].
  destruct (wav_header_built (Z.of_nat (String.length binaryString)))
    as (header' & Hheader' & Hlen).
  rewrite Hheader in Hheader'. injection Hheader' as <-.
  rewrite append_length, fromCharCodes_length, Hlen. reflexivity.
Qed.

Lemma addWavHeader_result_witness :
  exists header,
    wavHeader 2 = Some header /\
    addWavHeader (fun _ => Some "ab"%string) (fun s => s) "YWI="
    = Some (fromCharCodes header ++ "ab")%string.
Proof.
  destruct (addWavHeader_result (fun _ => Some "ab"%string) (fun s => s)
                                "YWI=") as [_ H].
  destruct (H "ab"%string eq_refl) as (header & Hheader & Heq & _).
  exists header. split; [exact Hheader | exact Heq].
Defined.

(** ** Generated assets *)

Lemma includesChar_app (c : ascii) (s1 s2 : string) :
  includesChar c (s1 ++ s2) = includesChar c s1 || includesChar c s2.
Proof.
  induction s1 as [| c1 s1 IH]; cbn [append includesChar orb];
    [reflexivity |].
  rewrite IH, orb_assoc. reflexivity.
Qed.

(** The payload of [prefix,payload] when only [payload] is unknown. *)
Lemma dataAfterComma_prefixed (prefix payload : string) :
  includesChar ","%char prefix = false ->
  includesChar ","%char payload = false ->
  dataAfterComma (prefix ++ String ","%char payload) = Some payload.
Proof.
  intros Hprefix Hpayload. unfold dataAfterComma.
  rewrite (splitOn_at _ _ _ Hprefix), (splitOn_without _ _ Hpayload).
  reflexivity.
Qed.

Lemma firstInlineImage_cases (parts : list (option InlineData)) :
  match firstInlineImage parts with
  | None => Forall (fun part => carriesData part = false) parts
  | Some uri =>
    exists before inline rest,
      parts = before ++ Some inline :: rest /\
      Forall (fun part => carriesData part = false) before /\
      JS.truthy (data inline) = true /\
      uri = ("data:" ++ interpolate (mimeType inline) ++ ";base64,"
             ++ interpolate (data inline))%string
  end.
Proof.
  induction parts as [| part rest IH]; cbn [firstInlineImage];
    [constructor |].
  destruct part as [inline |].
  - destruct (JS.truthy (data inline)) eqn:Hdata.
    + exists [], inline, rest. repeat split; [constructor | exact Hdata].
    + destruct (firstInlineImage rest) as [uri |].
      * destruct IH as (before & inline' & rest' & -> & Hbefore & Hd & Huri).
        exists (Some inline :: before), inline', rest'.
        repeat split; [constructor; [exact Hdata | exact Hbefore]
                      | exact Hd | exact Huri].
      * constructor; [exact Hdata | exact IH].
  - destruct (firstInlineImage rest) as [uri |].
    + destruct IH as (before & inline' & rest' & -> & Hbefore & Hd & Huri).
      exists (None :: before), inline', rest'.
      repeat split; [constructor; [reflexivity | exact Hbefore]
                    | exact Hd | exact Huri].
    + constructor; [reflexivity | exact IH].
Qed.

(** X21. [generateImage] throws exactly when there is no API key.
    Otherwise it returns the data URL [data:<mime>;base64,<data>] of the
    first part of the reply that carries data, and [null] when no part
    does or the request fails.  A returned URL is never empty (so the
    caller's [if (img)] keeps it, and [renderVideo] shows it), and when
    neither the mime type nor the data contains a comma,
    [downloadProjectZip] stores exactly the data of the reply. *)
Theorem generateImage_result (g : Gemini) (k : nat) :
  (JS.truthy (apiKey g) = false ->
   generateImage g k = Throw "API_KEY not found in environment") /\
  (JS.truthy (apiKey g) = true ->
   exists result,
     generateImage g k = Return result /\
     match result with
     | None =>
       imageReply g k = None \/
       exists parts,
         imageReply g k = Some parts /\
         Forall (fun part => carriesData part = false) parts
     | Some uri =>
       JS.nonEmpty uri = true /\
       exists before inline rest,
         imageReply g k = Some (before ++ Some inline :: rest) /\
         Forall (fun part => carriesData part = false) before /\
         JS.truthy (data inline) = true /\
         uri = ("data:" ++ interpolate (mimeType inline) ++ ";base64,"
                ++ interpolate (data inline))%string /\
         (includesChar ","%char (interpolate (mimeType inline)) = false ->
          includesChar ","%char (interpolate (data inline)) = false ->
          dataAfterComma uri = Some (interpolate (data inline)))
     end).
Proof.
  unfold generateImage, getClient. split.
  - intros Hkey. rewrite Hkey. reflexivity.
  - intros Hkey. rewrite Hkey.
    destruct (imageReply g k) as [parts |];
      [| exists None; split; [reflexivity | left; reflexivity]].
    exists (firstInlineImage parts). split; [reflexivity |].
    pose proof (firstInlineImage_cases parts) as Hcases.
    destruct (firstInlineImage parts) as [uri |].
    + destruct Hcases as (before & inline & rest & Hparts & Hbefore & Hd & Huri).
      split; [rewrite Huri; reflexivity |].
      exists before, inline, rest.
      split; [rewrite Hparts; reflexivity |].
      split; [exact Hbefore |]. split; [exact Hd |]. split; [exact Huri |].
      intros Hmime Hdata. rewrite Huri.
      replace ("data:" ++ interpolate (mimeType inline) ++ ";base64,"
               ++ interpolate (data inline))%string
        with (("data:" ++ interpolate (mimeType inline) ++ ";base64")
              ++ String "," (interpolate (data inline)))%string
        by (rewrite !append_assoc; reflexivity).
      apply dataAfterComma_prefixed; [| exact Hdata].
      rewrite !includesChar_app, Hmime. reflexivity.
    + right. exists parts. split; [reflexivity | exact Hcases].
Qed.

Lemma generateImage_result_witness :
  let g := mkGemini (Some "key"%string)
             (fun _ => Some [None;
                             Some (mkInlineData (Some "image/png"%string)
                                                (Some "iVBORw0KGgo="%string))])
             (fun _ => None) (fun _ => None) (fun s => s) in
  (exists result, generateImage g 0 = Return result)
  /\ generateImage (mkGemini None (imageReply g) (speechReply g) (atob g)
                             (btoa g)) 0
     = Throw "API_KEY not found in environment".
Proof.
  intros g. split.
  - destruct (generateImage_result g 0) as [_ H].
    destruct (H eq_refl) as (result & Heq & _). exists result. exact Heq.
  - apply generateImage_result. reflexivity.
Defined.

(** X22. [generateSpeech] throws exactly when there is no API key.
    Otherwise it returns [null] (no audio in the reply, a failed request,
    or data that is not base64) or the data URL
    [data:audio/wav;base64,<wav>], where [<wav>] is the base64 encoding of
    the 44-byte header followed by the decoded samples.  A returned URL is
    never empty, so [renderVideo] takes the section to have narration, and
    when the encoding contains no comma [downloadProjectZip] stores
    exactly [<wav>] as the voice-over. *)
Theorem generateSpeech_result (g : Gemini) (k : nat) :
  (JS.truthy (apiKey g) = false ->
   generateSpeech g k = Throw "API_KEY not found in environment") /\
  (JS.truthy (apiKey g) = true ->
   exists result,
     generateSpeech g k = Return result /\
     match result with
     | None =>
       speechReply g k = None \/ speechReply g k = Some None \/
       exists audioData,
         speechReply g k = Some (Some audioData) /\
         (audioData = EmptyString \/ atob g audioData = None)
     | Some uri =>
       JS.truthy (Some uri) = true /\
       exists audioData samples header,
         speechReply g k = Some (Some audioData) /\
         atob g audioData = Some samples /\
         wavHeader (Z.of_nat (String.length samples)) = Some header /\
         uri = ("data:audio/wav;base64,"
                ++ btoa g (fromCharCodes header ++ samples))%string /\
         (includesChar ","%char (btoa g (fromCharCodes header ++ samples))
            = false ->
          forall folderName section includeTitleCard,
            generatedAudio (assets section) = Some uri ->
            In (AddFile (Some folderName) "voiceover.wav"
                        (Some (btoa g (fromCharCodes header ++ samples)%string))
                        true)
               (addSectionToZip folderName section includeTitleCard))
     end).
Proof.
  unfold generateSpeech, getClient. split.
  - intros Hkey. rewrite Hkey. reflexivity.
  - intros Hkey. rewrite Hkey.
    destruct (speechReply g k) as [[audioData |] |];
      [| exists None; split; [reflexivity | right; left; reflexivity]
       | exists None; split; [reflexivity | left; reflexivity]].
    destruct audioData as [| c audioData]; cbn [JS.nonEmpty].
    { exists None. split; [reflexivity |]. right. right.
      exists EmptyString. split; [reflexivity | left; reflexivity]. }
    set (audio := String c audioData).
    destruct (addWavHeader_result_eq (atob g) (btoa g) audio)
      as [Hfail Hok].
    destruct (atob g audio) as [samples |] eqn:Hatob.
    + destruct (Hok samples eq_refl) as (header & Hheader & Heq).
      rewrite Heq.
      exists (Some ("data:audio/wav;base64,"
                    ++ btoa g (fromCharCodes header ++ samples))%string).
      split; [reflexivity |]. split; [reflexivity |].
      exists audio, samples, header.
      split; [reflexivity |]. split; [exact Hatob |].
      split; [exact Hheader |]. split; [reflexivity |].
      intros Hcomma folderName section includeTitleCard Haudio.
      assert (Hdata : voiceoverData
                        ("data:audio/wav;base64,"
                         ++ btoa g (fromCharCodes header ++ samples))%string
                      = Some (btoa g (fromCharCodes header ++ samples)%string)).
      { unfold voiceoverData.
        change ("data:audio/wav;base64," ++ ?w)%string
          with ("data:audio/wav;base64" ++ String "," w)%string.
        rewrite includesChar_app. cbn [includesChar Ascii.eqb Bool.eqb orb].
        apply dataAfterComma_prefixed; [reflexivity | exact Hcomma]. }
      unfold addSectionToZip. rewrite Haudio.
      apply in_or_app. right. apply in_or_app. left.
      unfold voiceoverData in Hdata. rewrite Hdata.
      left. reflexivity.
    + rewrite (Hfail eq_refl). exists None. split; [reflexivity |].
      right. right. exists audio. split; [reflexivity | right; exact Hatob].
Qed.

Lemma generateSpeech_result_witness :
  let g := mkGemini (Some "key"%string) (fun _ => None)
                    (fun _ => Some (Some "YWI="%string))
                    (fun _ => Some "ab"%string) (fun s => "UklGRg=="%string) in
  exists result, generateSpeech g 0 = Return result.
Proof.
  intros g.
  destruct (generateSpeech_result g 0) as [_ H].
  destruct (H eq_refl) as (result & Heq & _). exists result. exact Heq.
Defined.

(** ** Asset generation *)

Lemma generateImage_with_key (g : Gemini) (k : nat) :
  JS.truthy (apiKey g) = true ->
  exists img,
    generateImage g k = Return img /\
    match img with
    | Some uri => JS.nonEmpty uri = true
    | None => True
    end.
Proof.
  intros Hkey. unfold generateImage, getClient. rewrite Hkey.
  destruct (imageReply g k) as [parts |];
    [| exists None; split; [reflexivity | exact I]].
  exists (firstInlineImage parts). split; [reflexivity |].
  pose proof (firstInlineImage_cases parts) as Hcases.
  destruct (firstInlineImage parts) as [uri |]; [| exact I].
  destruct Hcases as (before & inline & rest & _ & _ & _ & Huri).
  rewrite Huri. reflexivity.
Qed.

Lemma generateSpeech_with_key (g : Gemini) (k : nat) :
  JS.truthy (apiKey g) = true ->
  exists audio, generateSpeech g k = Return audio.
Proof.
  intros Hkey. unfold generateSpeech, getClient. rewrite Hkey.
  destruct (speechReply g k) as [[audioData |] |];
    [| eexists; reflexivity | eexists; reflexivity].
  destruct (JS.nonEmpty audioData); [| eexists; reflexivity].
  destruct (addWavHeader (atob g) (btoa g) audioData);
    eexists; reflexivity.
Qed.

Lemma progressValues_app (l1 l2 : list UiEvent) :
  progressValues (l1 ++ l2) = progressValues l1 ++ progressValues l2.
Proof. unfold progressValues. apply flat_map_app. Qed.

Lemma ranTasks_refl (T : nat) (run run' : AssetRun) :
  completedTasks run' = completedTasks run ->
  uiEvents run' = uiEvents run ->
  ranTasks T 0 run run'.
Proof.
  intros Hc He. split; [lia |].
  exists []. rewrite app_nil_r. repeat split; [exact He | constructor].
Qed.

Lemma ranTasks_trans (T n m : nat) (a b c : AssetRun) :
  ranTasks T n a b -> ranTasks T m b c -> ranTasks T (n + m) a c.
Proof.
  intros (Hab & added1 & He1 & Hp1 & Hv1) (Hbc & added2 & He2 & Hp2 & Hv2).
  split; [lia |].
  exists (added1 ++ added2). split; [| split].
  - rewrite He2, He1, app_assoc. reflexivity.
  - apply Forall_app. split; assumption.
  - rewrite progressValues_app, Hv1, Hv2, Hab, seq_app, map_app.
    replace (S (completedTasks a) + n)%nat with (S (completedTasks a + n))
      by lia.
    reflexivity.
Qed.

Lemma ranTasks_updateProgress (T : nat) (task : string) (run : AssetRun) :
  ranTasks T 1 run (updateProgress T task run).
Proof.
  split; [cbn; lia |].
  eexists. split; [reflexivity |]. split; [repeat constructor | reflexivity].
Qed.

Lemma mapAt_length {A : Type} (i : nat) (f : A -> A) (l : list A) :
  List.length (mapAt i f l) = List.length l.
Proof.
  revert i. induction l as [| x l IH]; intros [| i]; cbn [mapAt List.length];
    try reflexivity.
  rewrite IH. reflexivity.
Qed.

Lemma mapAt_mapAt {A : Type} (i : nat) (f h : A -> A) (l : list A) :
  mapAt i f (mapAt i h l) = mapAt i (fun x => f (h x)) l.
Proof.
  revert i. induction l as [| x l IH]; intros [| i]; cbn [mapAt];
    try reflexivity.
  rewrite IH. reflexivity.
Qed.

Lemma mapAt_at {A : Type} (i : nat) (f f' : A -> A) (l : list A) (x : A) :
  nth_error l i = Some x -> f x = f' x -> mapAt i f l = mapAt i f' l.
Proof.
  revert i. induction l as [| y l IH]; intros [| i] Hnth Hf;
    cbn [mapAt nth_error] in *; try discriminate.
  - injection Hnth as ->. rewrite Hf. reflexivity.
  - rewrite (IH i Hnth Hf). reflexivity.
Qed.

Lemma mapAt_same {A : Type} (i : nat) (f : A -> A) (l : list A) (x : A) :
  nth_error l i = Some x -> f x = x -> mapAt i f l = l.
Proof.
  revert i. induction l as [| y l IH]; intros [| i] Hnth Hf;
    cbn [mapAt nth_error] in *; try discriminate.
  - injection Hnth as ->. rewrite Hf. reflexivity.
  - rewrite (IH i Hnth Hf). reflexivity.
Qed.

Lemma mapAt_split {A : Type} (i : nat) (f : A -> A) (l : list A) (x : A) :
  nth_error l i = Some x ->
  mapAt i f l = firstn i l ++ f x :: skipn (S i) l /\
  l = firstn i l ++ x :: skipn (S i) l.
Proof.
  revert i. induction l as [| y l IH]; intros [| i] Hnth;
    cbn [mapAt nth_error firstn skipn app] in *; try discriminate.
  - injection Hnth as ->. split; reflexivity.
  - destruct (IH i Hnth) as [H1 H2]. split; [rewrite H1 | rewrite <- H2];
      reflexivity.
Qed.

Lemma mapAt_nth {A : Type} (i : nat) (f : A -> A) (l : list A) :
  nth_error (mapAt i f l) i = option_map f (nth_error l i).
Proof.
  revert i. induction l as [| y l IH]; intros [| i];
    cbn [mapAt nth_error option_map]; try reflexivity.
  apply IH.
Qed.

Lemma pushGeneratedImages_nil (s : ScriptSection) :
  pushGeneratedImages [] s = s.
Proof.
  destruct s as [[t imgs a c] ct ps]. unfold pushGeneratedImages.
  cbn. rewrite app_nil_r. reflexivity.
Qed.

Lemma pushGeneratedImages_push (x : string) (imgs : list string)
    (s : ScriptSection) :
  pushGeneratedImages imgs (pushGeneratedImages [x] s)
  = pushGeneratedImages (x :: imgs) s.
Proof.
  unfold pushGeneratedImages. cbn. rewrite <- app_assoc. reflexivity.
Qed.

Lemma mapAt_ext {A : Type} (i : nat) (f f' : A -> A) (l : list A) :
  (forall x, f x = f' x) -> mapAt i f l = mapAt i f' l.
Proof.
  intros Hf. revert i. induction l as [| y l IH]; intros [| i];
    cbn [mapAt]; try reflexivity.
  - rewrite Hf. reflexivity.
  - rewrite IH. reflexivity.
Qed.

Lemma mapAt_id {A : Type} (i : nat) (f : A -> A) (l : list A) :
  (forall x, f x = x) -> mapAt i f l = l.
Proof.
  intros Hf. revert i. induction l as [| y l IH]; intros [| i];
    cbn [mapAt]; try reflexivity.
  - rewrite Hf. reflexivity.
  - rewrite IH. reflexivity.
Qed.

Lemma updateTarget_compose (target : Target)
    (f h : ScriptSection -> ScriptSection) (p : Project) :
  updateTarget target f (updateTarget target h p)
  = updateTarget target (fun s => f (h s)) p.
Proof.
  destruct target; cbn [updateTarget projectIntro projectParts hashtags
                        thumbnailPrompt thumbnailImage characterDescription
                        projectConfig projectMusic];
    [reflexivity |].
  rewrite mapAt_mapAt. reflexivity.
Qed.

Lemma updateTarget_ext (target : Target)
    (f f' : ScriptSection -> ScriptSection) (p : Project) :
  (forall s, f s = f' s) -> updateTarget target f p = updateTarget target f' p.
Proof.
  intros Hf. destruct target; cbn [updateTarget].
  - rewrite Hf. reflexivity.
  - rewrite (mapAt_ext i f f' _ Hf). reflexivity.
Qed.

Lemma updateTarget_id (target : Target) (f : ScriptSection -> ScriptSection)
    (p : Project) :
  (forall s, f s = s) -> updateTarget target f p = p.
Proof.
  intros Hf. destruct p. destruct target; cbn [updateTarget projectIntro
    projectParts hashtags thumbnailPrompt thumbnailImage
    characterDescription projectConfig projectMusic].
  - rewrite Hf. reflexivity.
  - rewrite (mapAt_id i f _ Hf). reflexivity.
Qed.

Lemma imagesFrom_S (g : Gemini) (k count : nat) :
  imagesFrom g k (S count)
  = match generateImage g k with
    | Return (Some (String c rest)) => [String c rest]
    | _ => []
    end ++ imagesFrom g (S k) count.
Proof.
  unfold imagesFrom. cbn [seq flat_map]. rewrite Nat.add_0_r. f_equal.
  generalize 0%nat as start.
  induction count as [| count IH]; intros start; cbn [seq flat_map];
    [reflexivity |].
  rewrite IH, Nat.add_succ_r. reflexivity.
Qed.

Lemma imagesFrom_nonEmpty (g : Gemini) (k count : nat) :
  Forall (fun img => JS.nonEmpty img = true) (imagesFrom g k count) /\
  (List.length (imagesFrom g k count) <= count)%nat.
Proof.
  revert k. induction count as [| count IH]; intros k.
  - split; [constructor | cbn; lia].
  - rewrite imagesFrom_S. destruct (IH (S k)) as [Hall Hlen].
    destruct (generateImage g k) as [[[| c rest] |] | msg];
      cbn [app List.length]; split; try exact Hall; try lia.
    constructor; [reflexivity | exact Hall].
Qed.

(** With an API key the image loop of a section never throws: it reports
    [count] tasks, makes [count] requests, and pushes the non-empty
    replies onto the images of its target. *)
Lemma imageLoop_with_key (g : Gemini) (T : nat) (target : Target)
    (count : nat) :
  JS.truthy (apiKey g) = true ->
  forall j run,
  exists run',
    imageLoop g T target count j run = (run', false) /\
    run_project run'
    = updateTarget target
        (pushGeneratedImages (imagesFrom g (requests run) count))
        (run_project run) /\
    requests run' = (requests run + count)%nat /\
    ranTasks T count run run'.
Proof.
  intros Hkey. induction count as [| count IH]; intros j run.
  - exists run. cbn [imageLoop].
    split; [reflexivity |].
    split; [symmetry; apply updateTarget_id; apply pushGeneratedImages_nil |].
    split; [lia |].
    apply ranTasks_refl; reflexivity.
  - cbn [imageLoop]. cbv zeta.
    set (run1 := updateProgress T (imageTask target j) run).
    assert (H1 : ranTasks T 1 run run1) by apply ranTasks_updateProgress.
    change (requests run1) with (requests run).
    rewrite imagesFrom_S.
    destruct (generateImage_with_key g (requests run) Hkey)
      as (img & Himg & Hne).
    rewrite Himg.
    destruct img as [[| c rest] |]; try discriminate Hne.
    + set (run2 := withProject _ (requested run1)).
      destruct (IH (S j) run2) as (run' & Heq & Hproj & Hreq & Hran).
      change (requests run2) with (S (requests run)) in Hproj, Hreq.
      exists run'.
      split; [exact Heq |]. split; [| split].
      * rewrite Hproj. unfold run2. cbn [withProject run_project].
        rewrite updateTarget_compose.
        apply updateTarget_ext. intros s. apply pushGeneratedImages_push.
      * rewrite Hreq. lia.
      * change (S count) with (1 + count)%nat.
        apply (ranTasks_trans T 1 count run run1 run' H1).
        destruct Hran as (Hc & added & He & Hp & Hv).
        split; [exact Hc |]. exists added. repeat split; assumption.
    + destruct (IH (S j) (requested run1))
        as (run' & Heq & Hproj & Hreq & Hran).
      change (requests (requested run1)) with (S (requests run))
        in Hproj, Hreq.
      exists run'.
      split; [exact Heq |]. split; [exact Hproj |].
      split; [rewrite Hreq; lia |].
      change (S count) with (1 + count)%nat.
      apply (ranTasks_trans T 1 count run run1 run' H1).
      destruct Hran as (Hc & added & He & Hp & Hv).
      split; [exact Hc |]. exists added. repeat split; assumption.
Qed.

Lemma withParts_same (p : Project) : withParts (projectParts p) p = p.
Proof. destruct p. reflexivity. Qed.

(** With an API key the step for part [i] never throws: it reports eight
    tasks, makes seven requests, and replaces part [i] by what asset
    generation makes of it. *)
Lemma partStep_with_key (g : Gemini) (b : Browser) (config : VideoConfig)
    (T i : nat) (run : AssetRun) (part : ScriptSection) :
  JS.truthy (apiKey g) = true ->
  nth_error (projectParts (run_project run)) i = Some part ->
  exists run',
    partStep g b config T i run = (run', false) /\
    run_project run'
    = withParts
        (mapAt i (fun _ => generatedSection g (requests run)
                             (partTitleCard b config part) part)
               (projectParts (run_project run)))
        (run_project run) /\
    requests run' = (requests run + 7)%nat /\
    ranTasks T 8 run run'.
Proof.
  intros Hkey Hpart. unfold partStep. cbv zeta.
  set (run1 := updateProgress T _ run).
  assert (H1 : ranTasks T 1 run run1) by apply ranTasks_updateProgress.
  change (run_project run1) with (run_project run). rewrite Hpart.
  set (p := run_project run) in *.
  set (part2 := match title (assets part) with
                | Some (String c rest) =>
                  setTitleCard (generateTitleCard b (String c rest)
                                                  (aspectRatio config)) part
                | _ => part
                end).
  set (run2 := match title (assets part) with
               | Some (String c rest) => withProject _ run1
               | _ => run1
               end).
  assert (H2 : run_project run2
               = withParts (mapAt i (fun _ => part2) (projectParts p)) p
               /\ completedTasks run2 = completedTasks run1
               /\ uiEvents run2 = uiEvents run1
               /\ requests run2 = requests run).
  { unfold run2, part2.
    destruct (title (assets part)) as [[| c rest] |];
      cbn [withProject run_project completedTasks uiEvents requests];
      repeat split;
      try (change (run_project run1) with p;
           rewrite (mapAt_same i (fun _ => part) _ part Hpart eq_refl);
           symmetry; apply withParts_same).
    change (run_project run1) with p. cbn [updateTarget].
    rewrite (mapAt_at i
               (setTitleCard (generateTitleCard b (String c rest)
                                                (aspectRatio config)))
               (fun _ => setTitleCard
                           (generateTitleCard b (String c rest)
                                              (aspectRatio config)) part)
               (projectParts p) part Hpart eq_refl).
    reflexivity. }
  destruct H2 as (Hp2 & Hc2 & He2 & Hr2).
  set (run3 := updateProgress T _ run2).
  assert (H3 : ranTasks T 1 run2 run3) by apply ranTasks_updateProgress.
  change (requests run3) with (requests run2). rewrite Hr2.
  destruct (generateSpeech_with_key g (requests run) Hkey) as (audio & Haudio).
  rewrite Haudio.
  set (run4 := withProject _ (requested run3)).
  destruct (imageLoop_with_key g T (PartTarget i) GENERATION_LIMIT Hkey 0 run4)
    as (run' & Heq & Hproj & Hreq & Hran).
  assert (Hr4 : requests run4 = S (requests run))
    by (unfold run4; cbn [withProject requested requests];
        change (requests run3) with (requests run2); rewrite Hr2;
        reflexivity).
  rewrite Hr4 in Hproj, Hreq.
  exists run'.
  split; [exact Heq |]. split; [| split].
  - rewrite Hproj. unfold run4.
    cbn [withProject run_project]. change (run_project run3)
      with (run_project run2).
    rewrite Hp2. cbn [updateTarget withParts projectIntro projectParts
      hashtags thumbnailPrompt thumbnailImage characterDescription
      projectConfig projectMusic].
    rewrite !mapAt_mapAt. unfold withParts. f_equal.
    apply mapAt_ext. intros _.
    unfold generatedSection, audioFrom. rewrite Haudio.
    unfold part2, partTitleCard.
    destruct (title (assets part)) as [[| c rest] |] eqn:Ht;
      unfold pushGeneratedImages, setGeneratedAudio, setTitleCard;
      cbn [assets title generatedImages generatedAudio titleCard content
           imagePrompts]; rewrite ?Ht; reflexivity.
  - rewrite Hreq. unfold GENERATION_LIMIT. lia.
  - change 8%nat with (1 + (1 + GENERATION_LIMIT))%nat.
    apply (ranTasks_trans T 1 _ run run1 run' H1).
    assert (H12 : ranTasks T 0 run1 run2)
      by (apply ranTasks_refl; assumption).
    assert (H13 : ranTasks T 1 run1 run3)
      by (apply (ranTasks_trans T 0 1 run1 run2 run3 H12 H3)).
    apply (ranTasks_trans T 1 _ run1 run3 run' H13).
    destruct Hran as (Hc & added & He & Hp & Hv).
    split; [exact Hc |]. exists added. repeat split; assumption.
Qed.

Lemma partsLoop_with_key (g : Gemini) (b : Browser) (config : VideoConfig)
    (T count : nat) :
  JS.truthy (apiKey g) = true ->
  forall i run,
    (i + count)%nat = List.length (projectParts (run_project run)) ->
    exists run',
      partsLoop g b config T count i run = (run', false) /\
      run_project run'
      = withParts (firstn i (projectParts (run_project run))
                   ++ generatedParts g b config (requests run)
                        (skipn i (projectParts (run_project run))))
                  (run_project run) /\
      ranTasks T (8 * count) run run'.
Proof.
  intros Hkey. induction count as [| count IH]; intros i run Hlen.
  - exists run. cbn [partsLoop].
    split; [reflexivity |].
    rewrite Nat.add_0_r in Hlen. subst i.
    rewrite firstn_all, skipn_all. cbn [generatedParts]. rewrite app_nil_r.
    split; [symmetry; apply withParts_same |].
    apply ranTasks_refl; reflexivity.
  - cbn [partsLoop].
    set (ps := projectParts (run_project run)) in *.
    destruct (nth_error ps i) as [part |] eqn:Hpart;
      [| apply nth_error_None in Hpart; lia].
    destruct (partStep_with_key g b config T i run part Hkey Hpart)
      as (run1 & Heq & Hproj & Hreq & Hran).
    rewrite Heq. fold ps in Hproj.
    set (part' := generatedSection g (requests run)
                    (partTitleCard b config part) part) in *.
    destruct (mapAt_split i (fun _ => part') ps part Hpart) as [Hsplit Hps].
    assert (Hparts1 : projectParts (run_project run1)
                      = firstn i ps ++ part' :: skipn (S i) ps)
      by (rewrite Hproj; exact Hsplit).
    assert (Hfirst : List.length (firstn i ps) = i)
      by (apply firstn_length_le; lia).
    destruct (IH (S i) run1) as (run' & Heq' & Hproj' & Hran').
    { rewrite Hparts1, length_app. cbn [List.length].
      rewrite Hfirst, length_skipn. lia. }
    exists run'.
    split; [exact Heq' |]. split.
    + rewrite Hproj', Hparts1, Hproj, Hreq.
      replace (firstn (S i) (firstn i ps ++ part' :: skipn (S i) ps))
        with (firstn i ps ++ [part']).
      * replace (skipn (S i) (firstn i ps ++ part' :: skipn (S i) ps))
          with (skipn (S i) ps).
        -- assert (Hskip : skipn i ps = part :: skipn (S i) ps).
           { rewrite Hps at 1. rewrite skipn_app, Hfirst.
             rewrite (skipn_all2 (firstn i ps)) by lia.
             replace (i - i)%nat with 0%nat by lia. reflexivity. }
           rewrite Hskip. cbn [generatedParts]. fold part'.
           rewrite <- app_assoc. reflexivity.
        -- rewrite skipn_app, Hfirst.
           rewrite (skipn_all2 (firstn i ps)) by lia.
           replace (S i - i)%nat with 1%nat by lia. reflexivity.
      * rewrite firstn_app, Hfirst.
        replace (S i - i)%nat with 1%nat by lia.
        rewrite firstn_firstn. replace (Nat.min (S i) i) with i by lia.
        reflexivity.
    + replace (8 * S count)%nat with (8 + 8 * count)%nat by lia.
      apply (ranTasks_trans T 8 _ run run1 run' Hran Hran').
Qed.

(** The run of [generateAllAssets] with an API key: request 0 is the
    thumbnail, request 1 the speech of the intro, and the speech of the
    first part is request 8. *)
Lemma generateAllAssets_with_key (g : Gemini) (b : Browser)
    (config : VideoConfig) (project : Project) :
  JS.truthy (apiKey g) = true ->
  let T := (1 + (1 + GENERATION_LIMIT + 1)
                * (1 + List.length (projectParts project)))%nat in
  exists image run',
    generateAllAssets g b config project
    = (mkProject
         (generatedSection g 1 (titleCard (assets (projectIntro project)))
                           (projectIntro project))
         (generatedParts g b config 8 (projectParts project))
         (hashtags project) (thumbnailPrompt project)
         image (characterDescription project)
         (projectConfig project) (projectMusic project),
       uiEvents run' ++ [SetStatus COMPLETE]) /\
    generateImage g 0 = Return image /\
    ranTasks T (8 * (1 + List.length (projectParts project)))
             (mkAssetRun project 0 0 []) run'.
Proof.
  intros Hkey T. unfold generateAllAssets. cbv zeta. fold T.
  set (run0 := mkAssetRun project 0 0 []).
  set (run1 := updateProgress T "Generating Thumbnail..." run0).
  assert (H1 : ranTasks T 1 run0 run1) by apply ranTasks_updateProgress.
  change (requests run1) with 0%nat.
  destruct (generateImage_with_key g 0 Hkey) as (image & Himage & _).
  rewrite Himage.
  set (run2 := withProject _ (requested run1)).
  set (run3 := updateProgress T "Generating Intro Voice..." run2).
  assert (H3 : ranTasks T 1 run2 run3) by apply ranTasks_updateProgress.
  change (requests run3) with 1%nat.
  destruct (generateSpeech_with_key g 1 Hkey) as (audio & Haudio).
  rewrite Haudio.
  set (run4 := withProject _ (requested run3)).
  destruct (imageLoop_with_key g T IntroTarget GENERATION_LIMIT Hkey 0 run4)
    as (run5 & Heq5 & Hproj5 & Hreq5 & Hran5).
  change (requests run4) with 2%nat in Hproj5, Hreq5.
  rewrite Heq5.
  assert (Hparts5 : projectParts (run_project run5) = projectParts project)
    by (rewrite Hproj5; reflexivity).
  destruct (partsLoop_with_key g b config T
              (List.length (projectParts (run_project run5))) Hkey 0 run5
              eq_refl)
    as (run' & Heq' & Hproj' & Hran').
  rewrite Heq'. cbn [firstn skipn app] in Hproj'.
  exists image, run'.
  split; [| split; [reflexivity |]].
  - rewrite Hproj', Hparts5, Hreq5, Hproj5.
    unfold generatedSection, audioFrom. rewrite Haudio. reflexivity.
  - rewrite Hparts5 in Hran'.
    replace (8 * (1 + List.length (projectParts project)))%nat
      with (1 + (1 + GENERATION_LIMIT)
            + 8 * List.length (projectParts project))%nat
      by (unfold GENERATION_LIMIT; lia).
    apply (ranTasks_trans T _ _ run0 run5 run'); [| exact Hran'].
    apply (ranTasks_trans T 1 _ run0 run1 run5 H1).
    assert (H12 : ranTasks T 0 run1 run2)
      by (apply ranTasks_refl; reflexivity).
    assert (H13 : ranTasks T 1 run1 run3)
      by (apply (ranTasks_trans T 0 1 run1 run2 run3 H12 H3)).
    apply (ranTasks_trans T 1 _ run1 run3 run5 H13).
    destruct Hran5 as (Hc & added & He & Hp & Hv).
    split; [exact Hc |]. exists added. repeat split; assumption.
Qed.

(** X23. Progress of asset generation.  With an API key, for a project of
    [P] parts the total announced is [1 + 8 * (1 + P)] and exactly
    [8 * (1 + P)] tasks are reported, numbered 1, 2, ... in order, after
    which the status is set to [COMPLETE] and no error is reported: the
    count ends one short of the total, so the progress never reaches it.
    Without an API key only the thumbnail task is reported, the error
    message is set, the status is still set to [COMPLETE], and the project
    is left as it was. *)
Theorem asset_progress (g : Gemini) (b : Browser) (config : VideoConfig)
    (project : Project) :
  let P := List.length (projectParts project) in
  let T := (1 + 8 * (1 + P))%nat in
  (JS.truthy (apiKey g) = true ->
   exists reported,
     snd (generateAllAssets g b config project)
     = reported ++ [SetStatus COMPLETE] /\
     Forall (fun e => isProgressEvent e = true) reported /\
     progressValues reported
     = map (fun k => (k, T)) (seq 1 (8 * (1 + P))) /\
     Forall (fun v => (fst v < snd v)%nat) (progressValues reported)) /\
  (JS.truthy (apiKey g) = false ->
   generateAllAssets g b config project
   = (project,
      [SetProgress (mkAssetProgress T 1 "Generating Thumbnail...");
       ConsoleError;
       SetErrorMsg
         "Failed during asset generation. Some assets may be missing.";
       SetStatus COMPLETE])).
Proof.
  intros P T. split.
  - intros Hkey.
    destruct (generateAllAssets_with_key g b config project Hkey)
      as (image & run' & Heq & _ & Hran).
    cbv zeta in Hran.
    change (1 + (1 + GENERATION_LIMIT + 1)
            * (1 + List.length (projectParts project)))%nat
      with T in Hran.
    destruct Hran as (_ & added & He & Hp & Hv).
    cbn [uiEvents completedTasks app] in He, Hv.
    exists added. rewrite Heq. cbn [snd]. rewrite He.
    split; [reflexivity |]. split; [exact Hp |]. split; [exact Hv |].
    rewrite Hv. apply Forall_forall. intros v Hin.
    apply in_map_iff in Hin. destruct Hin as (k & <- & Hk).
    apply in_seq in Hk. cbn [fst snd]. unfold T, P. lia.
  - intros Hkey. unfold generateAllAssets, generateImage, getClient.
    rewrite Hkey. reflexivity.
Qed.

Lemma asset_progress_witness :
  let g := mkGemini None (fun _ => None) (fun _ => None) (fun _ => None)
                    (fun s => s) in
  let section := mkScriptSection (mkSection None [] None None) "text" [] in
  let project := mkProject section [section] [] "thumb" None None None None in
  snd (generateAllAssets g sampleBrowser
         (mkVideoConfig "16:9" Medium NoTransition 0.2) project)
  = [SetProgress (mkAssetProgress 17 1 "Generating Thumbnail...");
     ConsoleError;
     SetErrorMsg "Failed during asset generation. Some assets may be missing.";
     SetStatus COMPLETE].
Proof.
  intros g section project.
  destruct (asset_progress g sampleBrowser
              (mkVideoConfig "16:9" Medium NoTransition 0.2) project)
    as [_ H].
  rewrite (H eq_refl). reflexivity.
Defined.

Lemma generatedParts_length (g : Gemini) (b : Browser)
    (config : VideoConfig) (parts : list ScriptSection) (k : nat) :
  List.length (generatedParts g b config k parts) = List.length parts.
Proof.
  revert k. induction parts as [| s rest IH]; intros k; cbn; [reflexivity |].
  rewrite IH. reflexivity.
Qed.

(** Part [i] is generated from the seven requests that start at
    [k + 7 * i]. *)
Lemma generatedParts_nth (g : Gemini) (b : Browser) (config : VideoConfig)
    (parts : list ScriptSection) (k i : nat) (s : ScriptSection) :
  nth_error parts i = Some s ->
  nth_error (generatedParts g b config k parts) i
  = Some (generatedSection g (k + 7 * i) (partTitleCard b config s) s).
Proof.
  revert k i. induction parts as [| p rest IH]; intros k i Hnth.
  - destruct i; discriminate Hnth.
  - destruct i as [| i]; cbn [nth_error generatedParts] in *.
    + injection Hnth as ->. rewrite Nat.mul_0_r, Nat.add_0_r. reflexivity.
    + replace (k + 7 * S i)%nat with (k + 7 + 7 * i)%nat by lia.
      apply IH. exact Hnth.
Qed.

(** The images [renderVideo] shows of a generated section. *)
Lemma generatedSection_validSrcs (g : Gemini) (k : nat)
    (card : option string) (s : ScriptSection) :
  Forall (fun img => JS.nonEmpty img = true) (generatedImages (assets s)) ->
  validSrcs (assets (generatedSection g k card s))
  = match card with
    | Some (String c rest) => [String c rest]
    | _ => []
    end ++ generatedImages (assets (generatedSection g k card s)).
Proof.
  intros Hold.
  destruct (imagesFrom_nonEmpty g (S k) GENERATION_LIMIT) as [Hnew _].
  assert (Hall : Forall (fun img => JS.nonEmpty img = true)
                        (generatedImages (assets s)
                         ++ imagesFrom g (S k) GENERATION_LIMIT))
    by (apply Forall_app; split; assumption).
  unfold validSrcs, generatedSection.
  cbn [assets titleCard generatedImages].
  rewrite filter_app.
  assert (Hkeep : forall l, Forall (fun img => JS.nonEmpty img = true) l ->
                            filter JS.nonEmpty l = l).
  { induction 1 as [| x l Hx _ IH]; cbn [filter]; [reflexivity |].
    rewrite Hx, IH. reflexivity. }
  rewrite (Hkeep _ Hall).
  destruct card as [[| c rest] |]; reflexivity.
Qed.

(** X24. Assets after generation with an API key.  Nothing throws: only
    progress is reported, then the status is set to [COMPLETE], and no
    error is logged or shown.  Hashtags, thumbnail prompt, character
    description and the number of parts are unchanged, and so are the
    title, the script and the prompts of every section.  Requests are
    made in a fixed order: the thumbnail is the reply to request 0; the
    intro gets as audio the reply to request 1 and, pushed onto its
    images, the non-empty replies to requests 2 to 7; part [i] (from 0)
    gets as audio the reply to request [8 + 7 * i] and, pushed onto its
    images, the non-empty replies to the six requests after that one.
    Every part with a non-empty title gets the title card made by
    [generateTitleCard] for that title, while other parts and the intro
    keep the title card they had.  Hence, for sections that had only
    non-empty images before, [renderVideo] shows the title card (when it
    is non-empty) followed by every image of the section, dropping
    none, and a section gains at most six images. *)
Theorem assets_after_generation (g : Gemini) (b : Browser)
    (config : VideoConfig) (project : Project) :
  JS.truthy (apiKey g) = true ->
  let result := generateAllAssets g b config project in
  let project' := fst result in
  (exists reported,
     snd result = reported ++ [SetStatus COMPLETE] /\
     Forall (fun e => isProgressEvent e = true) reported) /\
  generateImage g 0 = Return (thumbnailImage project') /\
  hashtags project' = hashtags project /\
  thumbnailPrompt project' = thumbnailPrompt project /\
  characterDescription project' = characterDescription project /\
  projectIntro project'
  = generatedSection g 1 (titleCard (assets (projectIntro project)))
                     (projectIntro project) /\
  List.length (projectParts project') = List.length (projectParts project) /\
  (forall i s,
     nth_error (projectParts project) i = Some s ->
     nth_error (projectParts project') i
     = Some (generatedSection g (8 + 7 * i) (partTitleCard b config s) s)) /\
  (forall k, generateSpeech g k = Return (audioFrom g k)) /\
  (forall k card s,
     let s' := generatedSection g k card s in
     title (assets s') = title (assets s) /\
     content s' = content s /\
     imagePrompts s' = imagePrompts s /\
     titleCard (assets s') = card /\
     generatedAudio (assets s') = audioFrom g k /\
     generatedImages (assets s')
     = generatedImages (assets s)
       ++ flat_map (fun j => match generateImage g (S k + j) with
                             | Return (Some (String c rest)) =>
                               [String c rest]
                             | _ => []
                             end) (seq 0 6) /\
     (List.length (generatedImages (assets s'))
      <= List.length (generatedImages (assets s)) + 6)%nat /\
     (Forall (fun img => JS.nonEmpty img = true)
             (generatedImages (assets s)) ->
      validSrcs (assets s')
      = match card with
        | Some (String c rest) => [String c rest]
        | _ => []
        end ++ generatedImages (assets s'))).
Proof.
  intros Hkey.
  destruct (generateAllAssets_with_key g b config project Hkey)
    as (image & run' & Heq & Himage & Hran).
  cbv zeta. rewrite Heq.
  cbn [fst snd thumbnailImage hashtags thumbnailPrompt characterDescription
       projectIntro projectParts].
  split.
  { destruct Hran as (_ & added & He & Hp & _).
    cbn [uiEvents app] in He.
    exists added. rewrite He. split; [reflexivity | exact Hp]. }
  split; [exact Himage |].
  split; [reflexivity |]. split; [reflexivity |]. split; [reflexivity |].
  split; [reflexivity |].
  split; [apply generatedParts_length |].
  split; [intros i s Hnth; apply generatedParts_nth; exact Hnth |].
  split.
  { intros k. unfold audioFrom.
    destruct (generateSpeech_with_key g k Hkey) as (audio & ->).
    reflexivity. }
  intros k card s.
  split; [reflexivity |]. split; [reflexivity |]. split; [reflexivity |].
  split; [reflexivity |]. split; [reflexivity |]. split; [reflexivity |].
  split.
  - unfold generatedSection. cbn [assets generatedImages].
    rewrite length_app.
    destruct (imagesFrom_nonEmpty g (S k) GENERATION_LIMIT) as [_ Hlen].
    unfold GENERATION_LIMIT in Hlen. unfold GENERATION_LIMIT. lia.
  - apply generatedSection_validSrcs.
Qed.

Lemma assets_after_generation_witness :
  let g := mkGemini (Some "key"%string)
             (fun _ => Some [Some (mkInlineData (Some "image/png"%string)
                                                (Some "AAAA"%string))])
             (fun _ => Some None) (fun _ => None) (fun s => s) in
  let section :=
    mkScriptSection (mkSection (Some "One"%string) [] None None) "text" [] in
  let project := mkProject section [section] [] "thumb" None None None None in
  let config := mkVideoConfig "16:9" Medium NoTransition 0.2 in
  let project' := fst (generateAllAssets g sampleBrowser config project) in
  hashtags project' = [] /\
  nth_error (projectParts project') 0
  = Some (generatedSection g 8 (partTitleCard sampleBrowser config section)
                           section) /\
  List.length (generatedImages (assets (projectIntro project'))) = 6%nat.
Proof.
  intros g section project config project'.
  destruct (assets_after_generation g sampleBrowser config project eq_refl)
    as (_ & _ & Hhash & _ & _ & Hintro & _ & Hparts & _).
  split; [exact Hhash |]. split.
  - apply (Hparts 0%nat section). reflexivity.
  - fold project' in Hintro. rewrite Hintro. vm_compute. reflexivity.
Defined.

(** ** Short intervals under the cross-fade *)


